(** * StoryBox: session controller and lighting engine

    A shallow embedding of the control core of the storytelling appliance,
    from the sources under 2architecture/:
    - [Selector]:   hardware/selector.py, the three-position duration selector;
    - [Controller]: main.py, the [StoryBoxController] state machine, with the
      commands it issues to its collaborators recorded in order;
    - [Timeline]:   services/story_led_timeline.py, the timeline and its
      loader, and [ScriptedTimelinePattern] of services/led_patterns.py;
    - [GroupCycle]: the group partition of [GroupCyclePattern] of
      services/led_patterns.py.

    Python dictionaries are finite maps, lists are lists, integers are [Z].
    A callback that returns early is an [if]; a method that mutates [self]
    takes the controller and returns the new one.  What a callback reads
    from the outside while it runs (selector pins, the answer of the story
    provider, the playback position) is an argument. *)

From Stdlib Require Import ZArith QArith Qround Floats List Bool Sorting.Sorted Lia Lqa.
From stdpp Require Import gmap strings list fin_maps pretty.

Set Warnings "-inexact-float".

Open Scope string_scope.
Open Scope list_scope.
Open Scope Z_scope.

(* ===================================================================== *)
(** ** domain/states.py and domain/story_session.py *)
(* ===================================================================== *)

Inductive StoryBoxState : Set :=
| BOOTING
| WAITING_NETWORK
| IDLE_READY
| PREPARING_STORY
| REQUESTING_STORY
| PLAYING_STORY
| PAUSED
| CONFIRM_STOP.

#[global] Instance StoryBoxState_eq_dec : EqDecision StoryBoxState.
Proof. solve_decision. Defined.

(** An RGB triple. *)
Definition Color : Type := Z * Z * Z.

(** [StorySession]: the dataclass with its four fields.  [led_pattern] is
    never written by the controller. *)
Record StorySession : Type := mkStorySession {
  characters : list string;
  duration_mode : string;
  story_audio_path : option string;
  led_pattern : option (gmap string string)
}.

(** [StorySession()]: the dataclass defaults. *)
Definition StorySession_new : StorySession :=
  {| characters := [];
     duration_mode := "medium";
     story_audio_path := None;
     led_pattern := None |}.

Definition with_characters (l : list string) (s : StorySession) : StorySession :=
  {| characters := l;
     duration_mode := duration_mode s;
     story_audio_path := story_audio_path s;
     led_pattern := led_pattern s |}.

Definition with_duration_mode (m : string) (s : StorySession) : StorySession :=
  {| characters := characters s;
     duration_mode := m;
     story_audio_path := story_audio_path s;
     led_pattern := led_pattern s |}.

Definition with_story_audio_path (p : option string) (s : StorySession) : StorySession :=
  {| characters := characters s;
     duration_mode := duration_mode s;
     story_audio_path := p;
     led_pattern := led_pattern s |}.

(** Python truthiness of a [str]. *)
Definition str_truthy (s : string) : bool :=
  match s with EmptyString => false | _ => true end.

(* ===================================================================== *)
(** ** hardware/selector.py *)
(* ===================================================================== *)

Module Selector.

(** A GPIO input level. *)
Inductive Level : Set := LOW | HIGH.

#[global] Instance Level_eq_dec : EqDecision Level.
Proof. solve_decision. Defined.

(** What [GPIO.input] returns for the two selector pins at one moment. *)
Record Pins : Set := mkPins { sw1 : Level; sw2 : Level }.

(** [DurationSelector.read_mode] *)
Definition read_mode (p : Pins) : string :=
  match sw1 p, sw2 p with
  | LOW, HIGH => "short"
  | HIGH, HIGH => "medium"
  | HIGH, LOW => "long"
  | LOW, LOW => "unknown"
  end.

(** The polling thread of [DurationSelector.start]: the state it keeps
    ([last_mode], with [None] before the first reading) and, for one
    reading of the pins, the mode it passes to [on_duration_change], if
    any. *)
Definition poll (last_mode : option string) (p : Pins)
  : option string * option string :=
  let mode := read_mode p in
  match last_mode with
  | None =>
      (* first reading: notify once when the mode is valid *)
      (Some mode, if decide (mode ≠ "unknown") then Some mode else None)
  | Some last =>
      if decide (mode ≠ last ∧ mode ≠ "unknown")
      then (Some mode, Some mode)
      else (Some last, None)
  end.

(** The three positions of the switch. *)
Definition valid_mode (m : string) : Prop :=
  m = "short" ∨ m = "medium" ∨ m = "long".

#[global] Instance valid_mode_dec m : Decision (valid_mode m).
Proof. unfold valid_mode. apply _. Defined.

End Selector.

(* ===================================================================== *)
(** ** services/api_client.py: what the controller uses of it *)
(* ===================================================================== *)

Record CharacterInfo : Type := mkCharacterInfo {
  name : string;
  group_color : option Color
}.

(** [StoryApiClient.get_character]: [None] on any failure.  The lookup is a
    function of the tag id: the provider gives the same answer for the same
    tag each time it is asked. *)
Record StoryApiClient : Type := mkStoryApiClient {
  get_character : Z → option CharacterInfo
}.

(* ===================================================================== *)
(** ** main.py: StoryBoxController *)
(* ===================================================================== *)

Module Controller.

(** A call made on a collaborator (LED controller, prompt player, story
    player, audio output) or a thread started. *)
Inductive Command : Type :=
| led_apply_state (s : StoryBoxState)
| led_trigger_event (event_name : string)
| led_set_group_color (group_index : Z) (color : Color)
| led_clear_group_color (group_index : Z)
| led_set_story_timeline
| led_clear_story_timeline
| system_audio_play_event (category event_name : string)
| audio_play_story (filepath : string)
| audio_pause_story
| audio_resume_story
| audio_stop_story
| audio_output_set_volume (delta : Z)
| thread_start_run.

(** The attributes of [StoryBoxController] that change, and [issued], the
    commands sent so far, oldest first. *)
Record Controller : Type := mkController {
  story_file : string;
  state : StoryBoxState;
  session : StorySession;
  _pending_stop_confirm : bool;
  _tag_names : gmap Z string;
  _tag_colors : gmap Z Color;
  _reader_active_tags : gmap string (option Z);
  issued : list Command
}.

Definition emit (cmd : Command) (c : Controller) : Controller :=
  {| story_file := story_file c; state := state c; session := session c;
     _pending_stop_confirm := _pending_stop_confirm c;
     _tag_names := _tag_names c; _tag_colors := _tag_colors c;
     _reader_active_tags := _reader_active_tags c;
     issued := issued c ++ [cmd] |}.

Definition set_state_attr (s : StoryBoxState) (c : Controller) : Controller :=
  {| story_file := story_file c; state := s; session := session c;
     _pending_stop_confirm := _pending_stop_confirm c;
     _tag_names := _tag_names c; _tag_colors := _tag_colors c;
     _reader_active_tags := _reader_active_tags c;
     issued := issued c |}.

Definition set_session (s : StorySession) (c : Controller) : Controller :=
  {| story_file := story_file c; state := state c; session := s;
     _pending_stop_confirm := _pending_stop_confirm c;
     _tag_names := _tag_names c; _tag_colors := _tag_colors c;
     _reader_active_tags := _reader_active_tags c;
     issued := issued c |}.

Definition set_pending_stop_confirm (b : bool) (c : Controller) : Controller :=
  {| story_file := story_file c; state := state c; session := session c;
     _pending_stop_confirm := b;
     _tag_names := _tag_names c; _tag_colors := _tag_colors c;
     _reader_active_tags := _reader_active_tags c;
     issued := issued c |}.

Definition set_tag_names (m : gmap Z string) (c : Controller) : Controller :=
  {| story_file := story_file c; state := state c; session := session c;
     _pending_stop_confirm := _pending_stop_confirm c;
     _tag_names := m; _tag_colors := _tag_colors c;
     _reader_active_tags := _reader_active_tags c;
     issued := issued c |}.

Definition set_tag_colors (m : gmap Z Color) (c : Controller) : Controller :=
  {| story_file := story_file c; state := state c; session := session c;
     _pending_stop_confirm := _pending_stop_confirm c;
     _tag_names := _tag_names c; _tag_colors := m;
     _reader_active_tags := _reader_active_tags c;
     issued := issued c |}.

Definition set_reader_active_tags (m : gmap string (option Z)) (c : Controller)
  : Controller :=
  {| story_file := story_file c; state := state c; session := session c;
     _pending_stop_confirm := _pending_stop_confirm c;
     _tag_names := _tag_names c; _tag_colors := _tag_colors c;
     _reader_active_tags := m;
     issued := issued c |}.

(** [self._reader_to_group], in the order the dictionary is written. *)
Definition _reader_to_group : list (string * Z) :=
  [("reader1", 2); ("reader2", 3); ("reader3", 1); ("reader4", 0)].

Definition _group_highlight_colors : list Color :=
  [(255, 120, 30); (120, 220, 120); (80, 160, 255); (200, 120, 255)].

(** [sorted(items, key=lambda item: item[1])]: a stable sort on the group
    index, written as insertion after the elements with an equal key. *)
Fixpoint insert_by_group (x : string * Z) (l : list (string * Z))
  : list (string * Z) :=
  match l with
  | [] => [x]
  | y :: rest =>
      if Z.ltb (snd x) (snd y) then x :: y :: rest
      else y :: insert_by_group x rest
  end.

Definition sorted_by_group (l : list (string * Z)) : list (string * Z) :=
  fold_left (λ acc x, insert_by_group x acc) l [].

(** [__init__]: the controller as constructed, before any event. *)
Definition init (story_file : string) : Controller :=
  {| story_file := story_file;
     state := BOOTING;
     session := StorySession_new;
     _pending_stop_confirm := false;
     _tag_names := ∅;
     _tag_colors := ∅;
     _reader_active_tags :=
       list_to_map (map (λ item, (fst item, None)) _reader_to_group);
     issued := [led_apply_state BOOTING] |}.

Section WithProvider.

(** [self.api_client]; [None] when the controller was given no client. *)
Variable api_client : option StoryApiClient.

(** *** helpers *)

Definition _set_state (new_state : StoryBoxState) (c : Controller) : Controller :=
  if decide (new_state = state c) then c
  else emit (led_apply_state new_state) (set_state_attr new_state c).

Definition _play_system_prompt (category event_name : string) (c : Controller)
  : Controller :=
  if decide (state c = PLAYING_STORY)
  then emit (system_audio_play_event "system" "error") c
  else emit (system_audio_play_event category event_name) c.

Definition _character_name (tag_id : Z) (c : Controller) : string * Controller :=
  match _tag_names c !! tag_id with
  | Some cached => (cached, c)
  | None =>
      let fallback := "char_" +:+ pretty tag_id in
      match api_client with
      | None => (fallback, c)
      | Some api =>
          match get_character api tag_id with
          | Some info =>
              let c1 := set_tag_names (<[tag_id := name info]> (_tag_names c)) c in
              let c2 :=
                match group_color info with
                | Some col => set_tag_colors (<[tag_id := col]> (_tag_colors c1)) c1
                | None => c1
                end in
              (name info, c2)
          | None => (fallback, c)
          end
      end
  end.

(** The loop of [_update_preparing_feedback] over the readers in group
    order; [active_characters] is the list being built. *)
Fixpoint feedback_loop (ordered_groups : list (string * Z))
    (active_characters : list string) (c : Controller)
  : list string * Controller :=
  match ordered_groups with
  | [] => (active_characters, c)
  | (reader_id, group_index) :: rest =>
      match mjoin (_reader_active_tags c !! reader_id) with
      | Some tag_id =>
          let color :=
            match _tag_colors c !! tag_id with
            | Some col => col
            | None =>
                nth (Z.to_nat
                       (group_index `mod` Z.of_nat (length _group_highlight_colors)))
                    _group_highlight_colors (0, 0, 0)
            end in
          let c1 := emit (led_set_group_color group_index color) c in
          let '(character, c2) := _character_name tag_id c1 in
          feedback_loop rest (active_characters ++ [character]) c2
      | None =>
          feedback_loop rest active_characters
            (emit (led_clear_group_color group_index) c)
      end
  end.

Definition _update_preparing_feedback (c : Controller) : Controller :=
  if decide (state c ≠ PREPARING_STORY) then c
  else
    let '(active_characters, c1) :=
      feedback_loop (sorted_by_group _reader_to_group) [] c in
    set_session (with_characters active_characters (session c1)) c1.

(** *** lifecycle *)

(** [start_preparing]; [pins] is what the selector reads when asked. *)
Definition start_preparing (pins : Selector.Pins) (c : Controller) : Controller :=
  let c1 := _set_state PREPARING_STORY c in
  let c2 := set_session
              (with_duration_mode (Selector.read_mode pins) (session c1)) c1 in
  let c3 := _play_system_prompt "system" "preparing_story" c2 in
  _update_preparing_feedback c3.

Definition on_network_ready (pins : Selector.Pins) (c : Controller) : Controller :=
  let c1 :=
    if decide (state c = WAITING_NETWORK)
    then emit (led_trigger_event "internet_connected")
              (_play_system_prompt "system" "internet_connected" c)
    else c in
  if decide (state c1 = BOOTING ∨ state c1 = WAITING_NETWORK)
  then start_preparing pins (_set_state IDLE_READY c1)
  else c1.

Definition notify_no_internet (c : Controller) : Controller :=
  _play_system_prompt "system" "no_internet" (_set_state WAITING_NETWORK c).

(** *** hardware callbacks *)

Definition on_tag_detected (reader_id : string) (tag_id : Z) (c : Controller)
  : Controller :=
  match _reader_active_tags c !! reader_id with
  | None => c
  | Some previous =>
      let c1 := set_reader_active_tags
                  (<[reader_id := Some tag_id]> (_reader_active_tags c)) c in
      if decide (state c1 ≠ PREPARING_STORY) then c1
      else
        let '(character_name, c2) := _character_name tag_id c1 in
        let c3 :=
          if decide (previous ≠ Some tag_id)
          then _play_system_prompt "characters" character_name c2
          else c2 in
        _update_preparing_feedback c3
  end.

Definition on_tag_removed (reader_id : string) (c : Controller) : Controller :=
  match _reader_active_tags c !! reader_id with
  | None => c
  | Some None => c
  | Some (Some tag_id) =>
      let c1 := set_reader_active_tags
                  (<[reader_id := None]> (_reader_active_tags c)) c in
      if decide (state c1 ≠ PREPARING_STORY) then c1
      else
        _update_preparing_feedback
          (_play_system_prompt "system" "tag_removed" c1)
  end.

Definition on_duration_change (mode : string) (c : Controller) : Controller :=
  _play_system_prompt "system" mode
    (set_session (with_duration_mode mode (session c)) c).

(** [on_rotary_rotate]: the volume is moved by [delta] steps of 0.015; the
    command records [delta]. *)
Definition on_rotary_rotate (delta : Z) (c : Controller) : Controller :=
  emit (audio_output_set_volume delta) c.

(** *** story logic *)

(** [request_story], up to the start of the worker thread. *)
Definition request_story (c : Controller) : Controller :=
  if decide (state c ≠ PREPARING_STORY) then c
  else
    match characters (session c) with
    | [] => _play_system_prompt "system" "no_characters" c
    | _ :: _ => emit thread_start_run (_set_state REQUESTING_STORY c)
    end.

(** [_configure_story_timeline]; [timeline_loaded] tells whether
    [load_story_led_timeline] returned a timeline for the story. *)
Definition _configure_story_timeline (timeline_loaded : bool) (c : Controller)
  : Controller :=
  if timeline_loaded then emit led_set_story_timeline c
  else emit led_clear_story_timeline c.

(** [start_story]; the path handed to the player is the session's path (the
    source passes it through [Path.expanduser] first). *)
Definition start_story (timeline_loaded : bool) (c : Controller) : Controller :=
  match story_audio_path (session c) with
  | None => c
  | Some path =>
      if str_truthy path then
        let c1 := _configure_story_timeline timeline_loaded c in
        let c2 := _set_state PLAYING_STORY c1 in
        let c3 := set_pending_stop_confirm false c2 in
        emit (audio_play_story path) c3
      else c
  end.

(** The body [run] of the worker thread of [request_story]; [story_path] is
    what [generate_story] returned ([None] also when there is no client). *)
Definition request_story_run (story_path : option string) (timeline_loaded : bool)
    (c : Controller) : Controller :=
  let c1 := _play_system_prompt "system" "story_waiting" c in
  match (match api_client with Some _ => story_path | None => None end) with
  | None =>
      if str_truthy (story_file c1) then
        let c2 := _play_system_prompt "system" "story_start" c1 in
        let c3 := set_session
                    (with_story_audio_path (Some (story_file c2)) (session c2)) c2 in
        start_story timeline_loaded c3
      else
        _update_preparing_feedback
          (_set_state PREPARING_STORY
             (_play_system_prompt "system" "error" c1))
  | Some path =>
      let c2 := _play_system_prompt "system" "story_start" c1 in
      let c3 := set_session (with_story_audio_path (Some path) (session c2)) c2 in
      start_story timeline_loaded c3
  end.

Definition pause_story (c : Controller) : Controller :=
  if decide (state c ≠ PLAYING_STORY) then c
  else emit audio_pause_story (_set_state PAUSED c).

Definition resume_story (c : Controller) : Controller :=
  if decide (state c ≠ PAUSED ∧ state c ≠ CONFIRM_STOP) then c
  else
    emit audio_resume_story
      (_set_state PLAYING_STORY (set_pending_stop_confirm false c)).

(** [stop_story_and_reset] up to [_set_state(IDLE_READY)]; [pins] is the
    selector reading of this first [read_mode()]. *)
Definition stop_story_and_reset_head (pins : Selector.Pins) (c : Controller)
  : Controller :=
  let c1 := emit audio_stop_story c in
  let c2 := emit led_clear_story_timeline c1 in
  let c3 := set_session StorySession_new c2 in
  let c4 := set_session
              (with_duration_mode (Selector.read_mode pins) (session c3)) c3 in
  let c5 := set_pending_stop_confirm false c4 in
  _set_state IDLE_READY c5.

(** [stop_story_and_reset]: the selector is read twice, once here and once
    in [start_preparing]. *)
Definition stop_story_and_reset (pins1 pins2 : Selector.Pins) (c : Controller)
  : Controller :=
  start_preparing pins2 (stop_story_and_reset_head pins1 c).

(** [on_story_finished] up to [_set_state(IDLE_READY)]. *)
Definition on_story_finished_head (pins : Selector.Pins) (c : Controller)
  : Controller :=
  let c1 := emit led_clear_story_timeline c in
  let c2 := set_session StorySession_new c1 in
  let c3 := set_session
              (with_duration_mode (Selector.read_mode pins) (session c2)) c2 in
  let c4 := set_pending_stop_confirm false c3 in
  _set_state IDLE_READY c4.

Definition on_story_finished (pins1 pins2 : Selector.Pins) (c : Controller)
  : Controller :=
  start_preparing pins2 (on_story_finished_head pins1 c).

Definition on_rotary_click (c : Controller) : Controller :=
  let c1 := emit (led_trigger_event "play_button_press") c in
  if decide (state c1 = PREPARING_STORY) then request_story c1
  else if decide (state c1 = PLAYING_STORY) then pause_story c1
  else if decide (state c1 = PAUSED ∨ state c1 = CONFIRM_STOP) then resume_story c1
  else c1.

Definition on_stop_button (pins1 pins2 : Selector.Pins) (c : Controller)
  : Controller :=
  let c1 := emit (led_trigger_event "stop_button_press") c in
  if decide (state c1 = PLAYING_STORY ∨ state c1 = PAUSED) then
    if negb (_pending_stop_confirm c1) then
      let c2 := set_pending_stop_confirm true c1 in
      let c3 := pause_story c2 in
      let c4 := _set_state CONFIRM_STOP c3 in
      _play_system_prompt "system" "stop_story" c4
    else stop_story_and_reset pins1 pins2 c1
  else if decide (state c1 = CONFIRM_STOP) then
    stop_story_and_reset pins1 pins2 c1
  else _play_system_prompt "system" "stop_button_explain" c1.

End WithProvider.

End Controller.

(* ===================================================================== *)
(** ** services/story_led_timeline.py and services/led_patterns.py *)
(* ===================================================================== *)

(** The time values of the lighting engine are Python floats.  The code
    only compares, adds and subtracts them, so it is written once over the
    operations and read at two types: IEEE binary64 [float], what the
    program runs on, and the rationals [Q], on which the order facts are
    proved. *)
Class TimeOps (T : Type) : Type := {
  t_zero : T;
  t_ltb : T → T → bool;
  t_add : T → T → T;
  t_sub : T → T → T
}.

#[global] Instance float_TimeOps : TimeOps float :=
  {| t_zero := 0%float;
     t_ltb := PrimFloat.ltb;
     t_add := PrimFloat.add;
     t_sub := PrimFloat.sub |}.

Definition Qltb (a b : Q) : bool := negb (Qle_bool b a).

#[global] Instance Q_TimeOps : TimeOps Q :=
  {| t_zero := 0%Q;
     t_ltb := Qltb;
     t_add := Qplus;
     t_sub := Qminus |}.

(** Python's [max(a, b)] and [min(a, b)]: the first argument is kept unless
    the second is strictly beyond it. *)
Definition py_max {T} `{TimeOps T} (a b : T) : T := if t_ltb a b then b else a.

Module Timeline.

Section Defs.

(** [Params] is the [Dict[str, Any]] of pattern parameters and [Extra] the
    entry fields the loader passes through: their content does not matter
    to the scheduling.  [LedPattern] is a pattern instance. *)
Context {T : Type} `{TimeOps T} {Params Extra LedPattern : Type}.

Record StoryLedSegment : Type := mkSegment {
  start : T;
  pattern_id : string;
  duration : option T;
  params : Params;
  end_ : option T
}.

Record StoryLedTimeline : Type := mkTimeline {
  segments : list StoryLedSegment;
  fallback_pattern_id : option string;
  fallback_params : Params
}.

(** [segments.sort(key=lambda segment: segment.start)], stable. *)
Fixpoint insert_by_start (x : StoryLedSegment) (l : list StoryLedSegment)
  : list StoryLedSegment :=
  match l with
  | [] => [x]
  | y :: rest =>
      if t_ltb (start x) (start y) then x :: y :: rest
      else y :: insert_by_start x rest
  end.

Definition sort_by_start (l : list StoryLedSegment) : list StoryLedSegment :=
  fold_left (λ acc x, insert_by_start x acc) l [].

(** The dataclass constructor with its [__post_init__]. *)
Definition StoryLedTimeline_new (segs : list StoryLedSegment)
    (fallback_id : option string) (fallback_par : Params) : StoryLedTimeline :=
  {| segments := sort_by_start segs;
     fallback_pattern_id := fallback_id;
     fallback_params := fallback_par |}.

(** A numeric field of a timeline entry as the loader sees it:
    [entry.get(key)] is [None], [float(...)] raises, or [float(...)]
    returns a value. *)
Inductive Field : Type :=
| Absent
| NotNumeric
| Number (v : T).

(** One element of the [audio_led_sync] array that is a dictionary. *)
Record Entry : Type := mkEntry {
  pattern : option string;
  start_time : Field;
  end_time : Field;
  color : option Color;
  extra_params : Extra
}.

(** [_translate_pattern]: from the authored name to a library pattern id
    and its parameters. *)
Variable _translate_pattern :
  string → option Color → option T → Extra → string * Params.

(** The body of the loop of [load_story_led_timeline] for one array
    element; [None] when the element is skipped. *)
Definition load_entry (entry : option Entry) : option StoryLedSegment :=
  match entry with
  | None => None                              (* not a dictionary *)
  | Some e =>
      match pattern e, start_time e with
      | Some pattern_name, Number start =>
          let start_value := py_max t_zero start in
          let end_value :=
            match end_time e with
            | Number v => Some (py_max t_zero v)
            | Absent | NotNumeric => None
            end in
          let duration_value :=
            match end_value with
            | Some ev => Some (py_max t_zero (t_sub ev start_value))
            | None => None
            end in
          let '(pid, par) :=
            _translate_pattern pattern_name (color e) duration_value
              (extra_params e) in
          Some {| start := start_value; pattern_id := pid;
                  duration := duration_value; params := par;
                  end_ := end_value |}
      | _, _ => None
      end
  end.

(** [load_story_led_timeline]; the argument is the [audio_led_sync] array,
    [None] when the file is missing, unreadable or has no such array. *)
Definition load_story_led_timeline (empty_params : Params)
    (timeline_entries : option (list (option Entry))) : option StoryLedTimeline :=
  match timeline_entries with
  | None => None
  | Some entries =>
      match omap load_entry entries with
      | [] => None
      | segs => Some (StoryLedTimeline_new segs None empty_params)
      end
  end.

(** *** ScriptedTimelinePattern *)

(** The pattern library as the scripted pattern uses it: construction by
    id (which may raise, [None]), [reset], [render] at the pattern's own
    clock and [render_for_elapsed]. *)
Variable create_pattern : string → Params → option LedPattern.
Variable pattern_reset : Z → LedPattern → LedPattern.
Variable pattern_render : LedPattern → T → list Color.
Variable pattern_render_for_elapsed : LedPattern → T → list Color.

Record ScriptedTimelinePattern : Type := mkScripted {
  _timeline : StoryLedTimeline;
  _segments : list StoryLedSegment;
  _pixel_count : Z;
  _active_segment_index : option nat;
  _active_pattern : option LedPattern;
  _fallback_pattern : option LedPattern
}.


(** [reset] *)
Definition reset (pixel_count : Z) (p : ScriptedTimelinePattern)
  : ScriptedTimelinePattern :=
  {| _timeline := _timeline p;
     _segments := _segments p;
     _pixel_count := Z.max 0 pixel_count;
     _active_segment_index := None;
     _active_pattern := None;
     _fallback_pattern :=
       match fallback_pattern_id (_timeline p) with
       | Some fid =>
           if str_truthy fid then
             match create_pattern fid (fallback_params (_timeline p)) with
             | Some fallback => Some (pattern_reset pixel_count fallback)
             | None => None
             end
           else None
       | None => None
       end |}.

(** What calling the time supplier gives. *)
Inductive Supplied : Type :=
| SupplierRaises
| SupplierNone
| SupplierNotNumeric
| SupplierValue (v : T).

Definition _current_time (supplied : Supplied) : T :=
  match supplied with
  | SupplierRaises => t_zero
  | SupplierNone => t_zero
  | SupplierNotNumeric => t_zero
  | SupplierValue value => py_max t_zero value
  end.

(** [_segment_end]; it is only called with an index of the list. *)
Definition _segment_end (segs : list StoryLedSegment) (idx : nat) : option T :=
  match segs !! idx with
  | None => None
  | Some segment =>
      match duration segment with
      | Some d => Some (t_add (start segment) d)
      | None =>
          match segs !! (idx + 1)%nat with
          | Some next => Some (start next)
          | None => None
          end
      end
  end.

(** The [for idx, segment in enumerate(...)] loop of
    [_select_segment_index], from position [idx] on. *)
Fixpoint select_loop (segs : list StoryLedSegment) (idx : nat)
    (rest : list StoryLedSegment) (current_time : T) : nat :=
  match rest with
  | [] => (length segs - 1)%nat
  | segment :: rest' =>
      if t_ltb current_time (start segment) then
        match idx with
        | O => O
        | S _ => select_loop segs (S idx) rest' current_time
        end
      else
        match _segment_end segs idx with
        | None => idx
        | Some end_time =>
            if t_ltb current_time end_time then idx
            else select_loop segs (S idx) rest' current_time
        end
  end.

Definition _select_segment_index (segs : list StoryLedSegment) (current_time : T)
  : option nat :=
  match segs with
  | [] => None
  | _ :: _ => Some (select_loop segs 0 segs current_time)
  end.





End Defs.

Arguments StoryLedSegment : clear implicits.
Arguments StoryLedTimeline : clear implicits.
Arguments Field : clear implicits.
Arguments Entry : clear implicits.
Arguments Supplied : clear implicits.
Arguments ScriptedTimelinePattern : clear implicits.

End Timeline.

Module GroupCycle.

(** Python's [round] on a number, to the nearest integer with ties to the
    even one.  The product [length * scale] is taken exactly. *)
Definition py_round (q : Q) : Z :=
  let f := Qfloor q in
  match Qcompare (q - inject_Z f) (1 # 2) with
  | Lt => f
  | Gt => f + 1
  | Eq => if Z.even f then f else f + 1
  end.

(** [l[idx] = v] on a Python list: a negative index counts from the end,
    an index outside the list raises ([None]). *)
Definition py_setitem {A} (l : list A) (idx : Z) (v : A) : option (list A) :=
  let n := Z.of_nat (length l) in
  if decide (0 ≤ idx < n) then Some (<[Z.to_nat idx := v]> l)
  else if decide (- n ≤ idx < 0) then Some (<[Z.to_nat (n + idx) := v]> l)
  else None.

(** The attributes of [GroupCyclePattern] that [on_reset] reads and
    writes (the background pattern only matters to rendering). *)
Record GroupCyclePattern : Type := mkGroupCycle {
  _base_lengths : list Z;
  _pixel_count : Z;
  _groups : list (Z * Z);
  _group_overrides : list (option Color);
  _pixel_group_index : list Z
}.

(** [__init__]: [group_lengths or [1]]. *)
Definition GroupCyclePattern_new (group_lengths : option (list Z))
  : GroupCyclePattern :=
  {| _base_lengths :=
       match group_lengths with
       | None | Some [] => [1]
       | Some l => l
       end;
     _pixel_count := 0;
     _groups := [];
     _group_overrides := [];
     _pixel_group_index := [] |}.

(** [_build_group_cycle]: [params.get("group_lengths") or [6, 8, 8, 8]]. *)
Definition _build_group_cycle (group_lengths : option (list Z))
  : GroupCyclePattern :=
  let lengths :=
    match group_lengths with
    | None | Some [] => [6; 8; 8; 8]
    | Some l => l
    end in
  GroupCyclePattern_new (Some lengths).

(** The local variables of the loop of [on_reset]. *)
Record ResetLoop : Type := mkResetLoop {
  indices : list (Z * Z);
  cursor : Z;
  remaining_pixels : Z;
  remaining_groups : Z
}.

(** One iteration of [for length in self._base_lengths]. *)
Definition on_reset_step (pixel_count : Z) (scale : Q) (st : ResetLoop)
    (length : Z) : ResetLoop :=
  let remaining_groups := remaining_groups st - 1 in
  let target := Z.max 1 (py_round (inject_Z length * scale)) in
  let target :=
    if decide (remaining_groups = 0) then remaining_pixels st
    else Z.min target (remaining_pixels st - remaining_groups) in
  let start := cursor st in
  let stop := Z.min pixel_count (start + target) in
  {| indices := indices st ++ [(start, stop)];
     cursor := stop;
     remaining_pixels := Z.max 0 (pixel_count - stop);
     remaining_groups := remaining_groups |}.

(** [for idx in range(start, stop): self._pixel_group_index[idx] = gi] *)
Definition fill_range (gi start stop : Z) (l : list Z) : option (list Z) :=
  foldl (λ acc idx, acc ≫= λ cur, py_setitem cur idx gi)
        (Some l) (seqZ start (stop - start)).

(** [for group_index, (start, stop) in enumerate(self._groups)], from
    [group_index = gi] on. *)
Fixpoint fill_groups (gi : Z) (groups : list (Z * Z)) (l : list Z)
  : option (list Z) :=
  match groups with
  | [] => Some l
  | (start, stop) :: rest =>
      match fill_range gi start stop l with
      | Some l' => fill_groups (gi + 1) rest l'
      | None => None
      end
  end.

(** [on_reset]; [None] when an index assignment raises. *)
Definition on_reset (p : GroupCyclePattern) : option GroupCyclePattern :=
  let total := foldr Z.add 0 (_base_lengths p) in
  if decide (total ≤ 0 ∨ _pixel_count p ≤ 0) then
    Some {| _base_lengths := _base_lengths p; _pixel_count := _pixel_count p;
            _groups := []; _group_overrides := []; _pixel_group_index := [] |}
  else
    let scale := (inject_Z (_pixel_count p) / inject_Z total)%Q in
    let final :=
      fold_left (on_reset_step (_pixel_count p) scale) (_base_lengths p)
        {| indices := []; cursor := 0;
           remaining_pixels := _pixel_count p;
           remaining_groups := Z.of_nat (length (_base_lengths p)) |} in
    let groups := filter (λ group, group.1 < group.2) (indices final) in
    match fill_groups 0 groups (replicate (Z.to_nat (_pixel_count p)) (-1)) with
    | Some pixel_group_index =>
        Some {| _base_lengths := _base_lengths p;
                _pixel_count := _pixel_count p;
                _groups := groups;
                _group_overrides := replicate (length groups) None;
                _pixel_group_index := pixel_group_index |}
    | None => None
    end.

(** [LedPattern.reset] for this pattern. *)
Definition reset (pixel_count : Z) (p : GroupCyclePattern)
  : option GroupCyclePattern :=
  on_reset {| _base_lengths := _base_lengths p;
              _pixel_count := Z.max 0 pixel_count;
              _groups := _groups p;
              _group_overrides := _group_overrides p;
              _pixel_group_index := _pixel_group_index p |}.

(** Ranges that tile [from, to) in order: each starts where the previous
    one stops and holds at least one pixel. *)
Fixpoint tiles (from : Z) (ranges : list (Z * Z)) (to : Z) : Prop :=
  match ranges with
  | [] => from = to
  | (start, stop) :: rest => start = from ∧ start + 1 ≤ stop ∧ tiles stop rest to
  end.

Definition in_range (pixel : Z) (r : Z * Z) : Prop := r.1 ≤ pixel < r.2.

End GroupCycle.

(* ===================================================================== *)
(** ** Events, traces and the vocabulary of the statements *)
(* ===================================================================== *)

Module Events.

Import Controller.

(** The callbacks wired in [main()], each with what it reads from the
    outside when it runs: the selector pins, the result of the story
    request, whether a timeline was loaded. *)
Inductive Event : Type :=
| NetworkReady (pins : Selector.Pins)
| NoInternet
| TagDetected (reader_id : string) (tag_id : Z)
| TagRemoved (reader_id : string)
| DurationChange (mode : string)
| RotaryRotate (delta : Z)
| RotaryClick
| StopButton (pins1 pins2 : Selector.Pins)
| StoryFinished (pins1 pins2 : Selector.Pins)
| StoryRequestDone (story_path : option string) (timeline_loaded : bool).

Definition handle (api_client : option StoryApiClient) (e : Event)
    (c : Controller) : Controller :=
  match e with
  | NetworkReady pins => on_network_ready api_client pins c
  | NoInternet => notify_no_internet c
  | TagDetected reader_id tag_id => on_tag_detected api_client reader_id tag_id c
  | TagRemoved reader_id => on_tag_removed api_client reader_id c
  | DurationChange mode => on_duration_change mode c
  | RotaryRotate delta => on_rotary_rotate delta c
  | RotaryClick => on_rotary_click c
  | StopButton pins1 pins2 => on_stop_button api_client pins1 pins2 c
  | StoryFinished pins1 pins2 => on_story_finished api_client pins1 pins2 c
  | StoryRequestDone story_path timeline_loaded =>
      request_story_run api_client story_path timeline_loaded c
  end.

(** Events handled one after the other. *)
Definition run (api_client : option StoryApiClient) (events : list Event)
    (c : Controller) : Controller :=
  fold_left (λ acc e, handle api_client e acc) events c.


(** The device state while a list of commands is issued: every change of
    state is announced to the LED controller by [led_apply_state]. *)
Fixpoint state_after (st : StoryBoxState) (cmds : list Command) : StoryBoxState :=
  match cmds with
  | [] => st
  | led_apply_state s :: rest => state_after s rest
  | _ :: rest => state_after st rest
  end.

(** Every prompt played while the device state is [PLAYING_STORY] is the
    ("system", "error") one. *)
Fixpoint prompts_replaced_while_playing (st : StoryBoxState) (cmds : list Command)
  : Prop :=
  match cmds with
  | [] => True
  | led_apply_state s :: rest => prompts_replaced_while_playing s rest
  | system_audio_play_event category event_name :: rest =>
      (st = PLAYING_STORY → category = "system" ∧ event_name = "error")
      ∧ prompts_replaced_while_playing st rest
  | _ :: rest => prompts_replaced_while_playing st rest
  end.

(** Commands that are neither a prompt nor a change of state. *)
Definition plain (cmd : Command) : Prop :=
  match cmd with
  | led_apply_state _ | system_audio_play_event _ _ => False
  | _ => True
  end.

(** [c'] comes from [c] by issuing more commands, which track the state
    and respect the rule on prompts. *)
Definition continues (c c' : Controller) : Prop :=
  ∃ more, issued c' = issued c ++ more
          ∧ state c' = state_after (state c) more
          ∧ prompts_replaced_while_playing (state c) more.

(** The name the controller uses for a tag: the cached one, else the
    provider's, else [char_<id>]. *)
Definition character_of (api_client : option StoryApiClient)
    (names : gmap Z string) (tag_id : Z) : string :=
  match names !! tag_id with
  | Some cached => cached
  | None =>
      match api_client ≫= (λ api, get_character api tag_id) with
      | Some info => name info
      | None => "char_" +:+ pretty tag_id
      end
  end.

(** The configured group index of a reader. *)
Definition group_index_of (reader_id : string) : option Z :=
  (list_to_map _reader_to_group : gmap string Z) !! reader_id.

(** A held reader: its id, its group index and the tag on it. *)
Definition Held : Type := string * Z * Z.

Definition held_group (h : Held) : Z := h.1.2.
Definition held_tag (h : Held) : Z := h.2.

(** The readers of [readers] that hold a tag in [slots], in the order of
    [readers]. *)
Definition held_among (readers : list (string * Z))
    (slots : gmap string (option Z)) : list Held :=
  omap (λ item, (λ tag_id, (item.1, item.2, tag_id)) <$> mjoin (slots !! item.1))
       readers.

(** The names of the tags held in [c], along the readers in group order:
    the list which [_update_preparing_feedback] stores. *)
Definition current_characters (api_client : option StoryApiClient)
    (c : Controller) : list string :=
  map (λ h, character_of api_client (_tag_names c) (held_tag h))
      (held_among (sorted_by_group _reader_to_group) (_reader_active_tags c)).

(** [l] is the list of the characters on the readers that hold a tag, by
    ascending group index. *)
Definition is_active_list (api_client : option StoryApiClient) (c : Controller)
    (l : list string) : Prop :=
  ∃ held : list Held,
    (∀ reader_id g tag_id,
        (reader_id, g, tag_id) ∈ held
        ↔ group_index_of reader_id = Some g
          ∧ _reader_active_tags c !! reader_id = Some (Some tag_id))
    ∧ StronglySorted (λ a b, held_group a < held_group b) held
    ∧ l = map (λ h, character_of api_client (_tag_names c) (held_tag h)) held.


(** Sample inputs. *)
Definition pins_medium : Selector.Pins := Selector.mkPins Selector.HIGH Selector.HIGH.
Definition pins_unknown : Selector.Pins := Selector.mkPins Selector.LOW Selector.LOW.

(** A provider that knows tag 7 only. *)
Definition sample_api : StoryApiClient :=
  {| get_character := λ tag_id,
       if decide (tag_id = 7)
       then Some {| name := "Luna"; group_color := Some (10, 20, 30) |}
       else None |}.

(** The box once the network is up: it waits for figurines. *)
Definition sample_preparing : Controller :=
  on_network_ready (Some sample_api) pins_medium (init "epic.mp3").

(** ... with tag 42 on reader 1 and tag 7 on reader 4. *)
Definition sample_two_tags : Controller :=
  run (Some sample_api) [TagDetected "reader1" 42; TagDetected "reader4" 7]
      sample_preparing.

(** ... and after a click and a failed story request, the default story
    plays. *)
Definition sample_playing : Controller :=
  run (Some sample_api) [RotaryClick; StoryRequestDone None false] sample_two_tags.

(** ... and after a press on the stop button, confirmation is pending. *)
Definition sample_confirm_stop : Controller :=
  run (Some sample_api) [StopButton pins_medium pins_medium] sample_playing.

End Events.

(* ===================================================================== *)
(** ** Vocabulary of the statements on the timeline *)
(* ===================================================================== *)

Module TimelineSpec.

Import Timeline.

Section Generic.

Context {T : Type} `{TimeOps T} {Params LedPattern : Type}.




Variable create_pattern : string → Params → option LedPattern.
Variable pattern_reset : Z → LedPattern → LedPattern.
Variable pattern_render : LedPattern → T → list Color.
Variable pattern_render_for_elapsed : LedPattern → T → list Color.





End Generic.

Section OnRationals.

Context {Params : Type}.



End OnRationals.

(** *** Sample timeline and pattern library *)

(** Authored names are kept as pattern ids. *)
Definition keep_name {T} (pattern_name : string) (color : option Color)
    (duration : option T) (extra : unit) : string * unit :=
  (pattern_name, tt).




(** The array [{start:0,end:5,pattern:A},{start:5,end:10,pattern:B}]. *)
Definition entries_AB {T} (of_Z : Z → T) : list (option (Entry T unit)) :=
  [Some {| pattern := Some "A"; start_time := Number (of_Z 0);
           end_time := Number (of_Z 5); color := None; extra_params := tt |};
   Some {| pattern := Some "B"; start_time := Number (of_Z 5);
           end_time := Number (of_Z 10); color := None; extra_params := tt |}].

(** The timeline with these two segments, on floats. *)
Definition timeline_AB : StoryLedTimeline float unit :=
  StoryLedTimeline_new
    [{| start := 0%float; pattern_id := "A"; duration := Some 5%float;
        params := tt; end_ := Some 5%float |};
     {| start := 5%float; pattern_id := "B"; duration := Some 5%float;
        params := tt; end_ := Some 10%float |}]
    None tt.


(** The pattern id of the segment selected when the time supplier gives
    [supplied]. *)
Definition selected_pattern {T} `{TimeOps T} {Params}
    (timeline : StoryLedTimeline T Params) (supplied : Supplied T)
  : option string :=
  _select_segment_index (segments timeline) (_current_time supplied)
  ≫= λ idx, pattern_id <$> segments timeline !! idx.

End TimelineSpec.

(* ===================================================================== *)
(** ** The polling threads of the input devices *)
(* ===================================================================== *)

Module Inputs.

Import Selector.

(** *** hardware/selector.py: the thread of [DurationSelector.start] *)



(** *** hardware/buttons.py: the thread of [StopButton.start] *)

(** One turn of the loop: [last_state], the level read now; whether
    [on_press] is called, and the new [last_state]. *)
Definition stop_button_poll (last_state current : Level) : bool * Level :=
  if decide (current ≠ last_state)
  then (bool_decide (current = LOW), current)
  else (false, last_state).

(** The number of calls of [on_press] over successive readings. *)
Fixpoint stop_button_run (last_state : Level) (readings : list Level) : nat :=
  match readings with
  | [] => 0%nat
  | current :: rest =>
      let '(pressed, last_state') := stop_button_poll last_state current in
      ((if pressed then 1 else 0) + stop_button_run last_state' rest)%nat
  end.

(** *** hardware/rotary_encoder.py: the thread of [RotaryEncoder.start] *)

(** What the pins CLK, DT and SW read at one turn of the loop. *)
Record RotarySample : Set := mkRotarySample {
  clk_state : Level;
  dt_state : Level;
  sw_state : Level
}.

Inductive RotaryCallback : Set :=
| on_rotate (delta : Z)
| on_click.

#[global] Instance RotaryCallback_eq_dec : EqDecision RotaryCallback.
Proof. solve_decision. Defined.

(** One turn of the loop, from [last_clk_state] and [last_sw_state]: the
    callbacks made, in order, and the two remembered levels. *)
Definition rotary_poll (last_clk_state last_sw_state : Level) (s : RotarySample)
  : list RotaryCallback * (Level * Level) :=
  let rotation :=
    if decide (clk_state s ≠ last_clk_state) then
      [on_rotate (if decide (dt_state s ≠ clk_state s) then 1 else -1)]
    else [] in
  let click :=
    if decide (sw_state s ≠ last_sw_state ∧ sw_state s = LOW) then [on_click]
    else [] in
  (rotation ++ click, (clk_state s, sw_state s)).

Fixpoint rotary_run (last_clk_state last_sw_state : Level)
    (samples : list RotarySample) : list RotaryCallback :=
  match samples with
  | [] => []
  | s :: rest =>
      let '(calls, (clk', sw')) := rotary_poll last_clk_state last_sw_state s in
      calls ++ rotary_run clk' sw' rest
  end.

End Inputs.

(* ===================================================================== *)
(** ** services/network_monitor.py, with the controller it drives *)
(* ===================================================================== *)

Module Monitor.

Import Controller Events.

(** [skip_states] as [main()] passes it. *)
Definition skip_states : list StoryBoxState :=
  [PLAYING_STORY; PAUSED; CONFIRM_STOP].

(** The monitor ([_last_status]) and the controller whose callbacks it
    holds. *)
Record System : Type := mkSystem {
  _last_status : option bool;
  controller : Controller
}.

Section WithProvider.

Variable api_client : option StoryApiClient.

(** [_handle_status]; [pins] is what the selector reads if the controller
    starts preparing. *)
Definition _handle_status (is_online : bool) (pins : Selector.Pins) (s : System)
  : System :=
  if is_online then
    {| _last_status := Some true;
       controller :=
         if decide (_last_status s ≠ Some true)
         then on_network_ready api_client pins (controller s)
         else controller s |}
  else
    {| _last_status := Some false;
       controller := notify_no_internet (controller s) |}.

(** One turn of the loop of [_run]; [is_online] is what the probe answers
    if it is made. *)
Definition monitor_poll (is_online : bool) (pins : Selector.Pins) (s : System)
  : System :=
  if decide (state (controller s) ∈ skip_states) then s
  else _handle_status is_online pins s.

(** What happens to the box: a turn of the monitor, or a callback from a
    hardware thread, the player or the story worker. *)
Inductive Step : Type :=
| Poll (is_online : bool) (pins : Selector.Pins)
| Callback (e : Event).

(** The callbacks that threads other than the monitor make. *)
Definition from_other_thread (e : Event) : Prop :=
  match e with
  | NetworkReady _ | NoInternet => False
  | _ => True
  end.

Definition well_formed (st : Step) : Prop :=
  match st with
  | Poll _ _ => True
  | Callback e => from_other_thread e
  end.

Definition system_step (st : Step) (s : System) : System :=
  match st with
  | Poll is_online pins => monitor_poll is_online pins s
  | Callback e =>
      {| _last_status := _last_status s;
         controller := handle api_client e (controller s) |}
  end.

Definition system_run (steps : list Step) (s : System) : System :=
  fold_left (λ acc st, system_step st acc) steps s.

End WithProvider.

(** The box when [main()] has built it. *)
Definition boot (story_file : string) : System :=
  {| _last_status := None; controller := init story_file |}.

(** The box waits for the network. *)
Definition waiting (c : Controller) : Prop :=
  state c = BOOTING ∨ state c = WAITING_NETWORK.

End Monitor.

(* ===================================================================== *)
(** ** services/audio_player.py *)
(* ===================================================================== *)

Module Player.

(** A call made on [pygame.mixer.music]. *)
Inductive MixerCall : Type :=
| music_load (path : string)
| music_play
| music_pause
| music_unpause
| music_stop.

Section Defs.

Context {T : Type} `{TimeOps T}.

(** [pos_ms / 1000.0] *)
Variable ms_to_seconds : Z → T.

(** The attributes of [AudioPlayer], and [mixer], the calls made on the
    music mixer so far, oldest first. *)
Record AudioPlayer : Type := mkAudioPlayer {
  _paused : bool;
  _is_playing : bool;
  _current_file : option string;
  _playback_token : Z;
  _last_position : T;
  mixer : list MixerCall
}.

(** [__init__] *)
Definition AudioPlayer_new : AudioPlayer :=
  {| _paused := false; _is_playing := false; _current_file := None;
     _playback_token := 0; _last_position := t_zero; mixer := [] |}.

(** [_stop_story_locked]: the mixer is asked to stop (it may raise, which
    is caught) and the attributes are reset in any case. *)
Definition _stop_story_locked (p : AudioPlayer) : AudioPlayer :=
  {| _paused := false; _is_playing := false; _current_file := None;
     _playback_token := _playback_token p + 1;
     _last_position := t_zero;
     mixer := mixer p ++ [music_stop] |}.

Definition stop_story (p : AudioPlayer) : AudioPlayer := _stop_story_locked p.

(** [play_story]: [is_file] tells whether the path is a file, [load_ok] and
    [play_ok] whether the mixer accepts to load and to play it.  The
    result holds the token given to the two watcher threads, when they are
    started. *)
Definition play_story (filepath : string) (is_file load_ok play_ok : bool)
    (p : AudioPlayer) : option Z * AudioPlayer :=
  if negb is_file then (None, p)
  else
    let p1 := _stop_story_locked p in
    if negb load_ok then
      (None,
       {| _paused := _paused p1; _is_playing := _is_playing p1;
          _current_file := _current_file p1;
          _playback_token := _playback_token p1;
          _last_position := _last_position p1;
          mixer := mixer p1 ++ [music_load filepath] |})
    else if negb play_ok then
      (None,
       {| _paused := _paused p1; _is_playing := _is_playing p1;
          _current_file := _current_file p1;
          _playback_token := _playback_token p1;
          _last_position := _last_position p1;
          mixer := mixer p1 ++ [music_load filepath; music_play] |})
    else
      (Some (_playback_token p1 + 1),
       {| _paused := false; _is_playing := true;
          _current_file := Some filepath;
          _playback_token := _playback_token p1 + 1;
          _last_position := t_zero;
          mixer := mixer p1 ++ [music_load filepath; music_play] |}).

(** [pause_story]; [pause_ok] tells whether the mixer call returns. *)
Definition pause_story (pause_ok : bool) (p : AudioPlayer) : AudioPlayer :=
  if _is_playing p && negb (_paused p) then
    {| _paused := if pause_ok then true else _paused p;
       _is_playing := _is_playing p; _current_file := _current_file p;
       _playback_token := _playback_token p;
       _last_position := _last_position p;
       mixer := mixer p ++ [music_pause] |}
  else p.

(** [resume_story] *)
Definition resume_story (unpause_ok : bool) (p : AudioPlayer) : AudioPlayer :=
  if _is_playing p && _paused p then
    {| _paused := if unpause_ok then false else _paused p;
       _is_playing := _is_playing p; _current_file := _current_file p;
       _playback_token := _playback_token p;
       _last_position := _last_position p;
       mixer := mixer p ++ [music_unpause] |}
  else p.

(** What one turn of the loop of [_wait_for_story_end] does. *)
Inductive Watch : Set :=
| WatchReturns               (* the token is stale: return *)
| WatchNotifies              (* end of the story: the callback is called *)
| WatchSleeps.               (* sleep and loop *)

(** One turn of the loop of [_wait_for_story_end(token)]; [busy] is what
    [get_busy()] answers. *)
Definition _wait_for_story_end (token : Z) (busy : bool) (p : AudioPlayer)
  : Watch * AudioPlayer :=
  if decide (token ≠ _playback_token p) then (WatchReturns, p)
  else if negb busy && negb (_paused p) then
    (WatchNotifies,
     {| _paused := false; _is_playing := false; _current_file := None;
        _playback_token := _playback_token p;
        _last_position := t_zero; mixer := mixer p |})
  else (WatchSleeps, p).

(** [get_playback_position]; [pos_ms] is what [get_pos()] answers. *)
Definition get_playback_position (pos_ms : Z) (p : AudioPlayer) : T * AudioPlayer :=
  if negb (_is_playing p || _paused p) then (t_zero, p)
  else if decide (0 ≤ pos_ms) then
    (ms_to_seconds pos_ms,
     {| _paused := _paused p; _is_playing := _is_playing p;
        _current_file := _current_file p;
        _playback_token := _playback_token p;
        _last_position := ms_to_seconds pos_ms; mixer := mixer p |})
  else (_last_position p, p).

(** The calls made on the player. *)
Inductive Op : Type :=
| Play (filepath : string) (is_file load_ok play_ok : bool)
| Pause (pause_ok : bool)
| Resume (unpause_ok : bool)
| Stop
| Position (pos_ms : Z)
| Watcher (token : Z) (busy : bool).

Definition apply_op (op : Op) (p : AudioPlayer) : AudioPlayer :=
  match op with
  | Play filepath is_file load_ok play_ok =>
      (play_story filepath is_file load_ok play_ok p).2
  | Pause pause_ok => pause_story pause_ok p
  | Resume unpause_ok => resume_story unpause_ok p
  | Stop => stop_story p
  | Position pos_ms => (get_playback_position pos_ms p).2
  | Watcher token busy => (_wait_for_story_end token busy p).2
  end.

Definition apply_ops (ops : list Op) (p : AudioPlayer) : AudioPlayer :=
  fold_left (λ acc op, apply_op op acc) ops p.

(** The operations that end the current playback. *)
Definition ends_playback (op : Op) : bool :=
  match op with
  | Play _ is_file _ _ => is_file
  | Stop => true
  | _ => false
  end.

(** The attributes agree: paused only while playing, a current file
    exactly while playing, position zero when nothing plays, and a token
    that has only been counted up. *)
Definition consistent (p : AudioPlayer) : Prop :=
  (_paused p = true → _is_playing p = true)
  ∧ (_is_playing p = true ↔ is_Some (_current_file p))
  ∧ (_is_playing p = false → _last_position p = t_zero)
  ∧ 0 ≤ _playback_token p.

End Defs.

Arguments AudioPlayer : clear implicits.
Arguments Op : clear implicits.

End Player.

(* ===================================================================== *)
(** ** Colors, pattern names and the pattern table *)
(* ===================================================================== *)

Module Patterns.

(** *** services/led_patterns.py *)

(** [_clamp] on an integer: [round] leaves an integer as it is. *)
Definition _clamp (value : Z) : Z := Z.max 0 (Z.min 255 value).

(** [_normalize_color], on a tuple of integers: the first three
    components, completed with zeros, each clamped. *)
Definition _normalize_color (color : list Z) : Color :=
  let components := take 3 color in
  let components :=
    components ++ replicate (3 - length components) 0 in
  (_clamp (nth 0 components 0), _clamp (nth 1 components 0),
   _clamp (nth 2 components 0)).

(** The keys of [_PATTERN_BUILDERS]. *)
Definition _PATTERN_BUILDERS : list string :=
  ["loading_blue_cycle"; "story_pulse"; "flash"; "flash_play_button";
   "flash_stop_button"; "flash_internet_connected"; "preparing_group_cycle"].

(** The keys of [PATTERN_FACTORIES]; the factory of an id calls
    [create_pattern] with that id and no parameters. *)
Definition PATTERN_FACTORIES : list string :=
  ["loading_blue_cycle"; "story_pulse"; "flash_play_button";
   "flash_stop_button"; "flash_internet_connected"; "preparing_group_cycle"].

(** What [create_pattern] does. *)
Inductive Created (LedPattern : Type) : Type :=
| UnknownPattern                  (* ValueError: no builder for the id *)
| BuilderRaised                   (* the builder raised *)
| Built (pattern : LedPattern).

Arguments UnknownPattern {LedPattern}.
Arguments BuilderRaised {LedPattern}.
Arguments Built {LedPattern} pattern.

(** [create_pattern]; [build] applies the builder of an id of the table to
    the parameters ([None] when it raises). *)
Definition create_pattern {Params LedPattern : Type}
    (build : string → Params → option LedPattern)
    (pattern_id : string) (params : Params) : Created LedPattern :=
  if decide (pattern_id ∈ _PATTERN_BUILDERS) then
    match build pattern_id params with
    | Some pattern => Built pattern
    | None => BuilderRaised
    end
  else UnknownPattern.

(** *** services/story_led_timeline.py *)

(** [str.lower] on the ASCII letters.  The keys of the table below are
    ASCII and hold no letter that a non-ASCII character lowers to. *)
Definition lower_ascii (a : Ascii.ascii) : Ascii.ascii :=
  let n := Ascii.nat_of_ascii a in
  if (65 <=? n)%nat && (n <=? 90)%nat then Ascii.ascii_of_nat (n + 32) else a.

Fixpoint lower (s : string) : string :=
  match s with
  | EmptyString => EmptyString
  | String a rest => String (lower_ascii a) (lower rest)
  end.

Inductive Translator : Set :=
| _translate_vent
| _default_translation
| _translate_flashing
| _translate_pulse_doux.

Definition _PATTERN_TRANSLATORS : list (string * Translator) :=
  [("bluecycle", _translate_vent);
   ("blue_cycle", _translate_vent);
   ("story_pulse", _default_translation);
   ("flash", _translate_flashing);
   ("vent", _translate_vent);
   ("flashing", _translate_flashing);
   ("pulse_doux", _translate_pulse_doux)].

(** The pattern id which each translator returns. *)
Definition translator_target (tr : Translator) : string :=
  match tr with
  | _translate_vent => "loading_blue_cycle"
  | _default_translation => "story_pulse"
  | _translate_flashing => "flash"
  | _translate_pulse_doux => "story_pulse"
  end.

Section Translate.

Context {T Params Extra : Type}.

(** The parameters each translator computes from the color, the duration
    and the other fields of the entry; [None] when it raises. *)
Variable translator_params :
  Translator → option Color → option T → Extra → option Params.

Definition apply_translator (tr : Translator) (color : option Color)
    (duration : option T) (extra : Extra) : option (string * Params) :=
  (λ par, (translator_target tr, par))
    <$> translator_params tr color duration extra.

(** [_translate_pattern]; [None] when the default translation raises. *)
Definition _translate_pattern (pattern_name : string) (color : option Color)
    (duration : option T) (extra : Extra) : option (string * Params) :=
  match (list_to_map _PATTERN_TRANSLATORS : gmap string Translator)
          !! lower pattern_name with
  | Some tr =>
      match apply_translator tr color duration extra with
      | Some translated => Some translated
      | None => apply_translator _default_translation color duration extra
      end
  | None => apply_translator _default_translation color duration extra
  end.

End Translate.

(** One component of a color as [_parse_color] converts it with
    [int(round(float(component)))]: the conversion raises [TypeError] or
    [ValueError] (no number, or NaN: the component then counts as 0), it
    raises [OverflowError], which nothing catches (an infinity, or an
    integer too large for a float), or it gives a number, taken with its
    exact value. *)
Inductive Component : Type :=
| c_invalid
| c_overflow
| c_number (q : Q).

(** The argument of [_parse_color]. *)
Inductive ColorData : Type :=
| data_dict (r g b : Component)      (* [data.get] of "r", "g", "b" *)
| data_sequence (items : list Component)
| data_other.

(** What [_parse_color] does. *)
Inductive ParsedColor : Type :=
| ParseRaises
| ParseNone
| ParseColor (color : Color).

(** [int(round(float(component)))], clamped; [None] when it raises. *)
Definition parse_component (c : Component) : option Z :=
  match c with
  | c_invalid => Some (Z.max 0 (Z.min 255 0))
  | c_overflow => None
  | c_number q => Some (Z.max 0 (Z.min 255 (GroupCycle.py_round q)))
  end.

(** The loop over the components, up to the first that raises. *)
Fixpoint parse_components (components : list Component) : option (list Z) :=
  match components with
  | [] => Some []
  | c :: rest =>
      match parse_component c with
      | Some v =>
          match parse_components rest with
          | Some vs => Some (v :: vs)
          | None => None
          end
      | None => None
      end
  end.

Definition _parse_color (data : ColorData) : ParsedColor :=
  let components :=
    match data with
    | data_dict r g b => Some [r; g; b]
    | data_sequence items => Some (take 3 items)
    | data_other => None
    end in
  match components with
  | None => ParseNone
  | Some components =>
      match parse_components components with
      | None => ParseRaises
      | Some normalized =>
          let normalized :=
            normalized ++ replicate (3 - length normalized) 0 in
          ParseColor (nth 0 normalized 0, nth 1 normalized 0, nth 2 normalized 0)
      end
  end.

(** A color whose channels are in 0..255. *)
Definition in_gamut (color : Color) : Prop :=
  (0 ≤ color.1.1 ≤ 255) ∧ (0 ≤ color.1.2 ≤ 255) ∧ (0 ≤ color.2 ≤ 255).

(** The components which [_parse_color] reads, when the data is a
    dictionary or a sequence. *)
Definition components_read (data : ColorData) : option (list Component) :=
  match data with
  | data_dict r g b => Some [r; g; b]
  | data_sequence items => Some (take 3 items)
  | data_other => None
  end.

End Patterns.

(* ===================================================================== *)
(** ** GroupCyclePattern: the group colors and the frame *)
(* ===================================================================== *)

Module GroupColors.

Import GroupCycle Patterns.

Definition with_overrides (overrides : list (option Color))
    (p : GroupCyclePattern) : GroupCyclePattern :=
  {| _base_lengths := _base_lengths p; _pixel_count := _pixel_count p;
     _groups := _groups p; _group_overrides := overrides;
     _pixel_group_index := _pixel_group_index p |}.

(** [set_group_color] *)
Definition set_group_color (group_index : Z) (color : list Z)
    (p : GroupCyclePattern) : GroupCyclePattern :=
  if decide (group_index < 0
             ∨ Z.of_nat (length (_group_overrides p)) ≤ group_index)
  then p
  else with_overrides
         (<[Z.to_nat group_index := Some (_normalize_color color)]>
            (_group_overrides p)) p.

(** [clear_group_color] *)
Definition clear_group_color (group_index : Z) (p : GroupCyclePattern)
  : GroupCyclePattern :=
  if decide (group_index < 0
             ∨ Z.of_nat (length (_group_overrides p)) ≤ group_index)
  then p
  else with_overrides (<[Z.to_nat group_index := None]> (_group_overrides p)) p.


(** [base_colors] in [_render_frame]: [background] is what the background
    pattern renders and [dim] is [_scale(color, 0.1)]. *)
Definition base_colors (dim : Color → Color) (background : list Color)
    (pixel_count : Z) : list Color :=
  if decide (Z.of_nat (length background) ≠ pixel_count)
  then replicate (Z.to_nat pixel_count) (0, 0, 0)
  else map dim background.

(** The color of the pixel [idx] in the loop of [_render_frame]. *)
Definition pixel_color (p : GroupCyclePattern) (base : list Color)
    (idx : nat) : Color :=
  let group_index :=
    if decide (idx < length (_pixel_group_index p))%nat
    then nth idx (_pixel_group_index p) (-1)
    else -1 in
  let override :=
    if decide (0 ≤ group_index < Z.of_nat (length (_group_overrides p)))
    then mjoin (_group_overrides p !! Z.to_nat group_index)
    else None in
  match override with
  | Some color => color
  | None => nth idx base (0, 0, 0)
  end.

(** [_render_frame] *)
Definition _render_frame (dim : Color → Color) (background : list Color)
    (pixel_count : Z) (p : GroupCyclePattern) : list Color :=
  map (pixel_color p (base_colors dim background pixel_count))
      (seq 0 (Z.to_nat pixel_count)).

(** A color as the tuple which the controller passes. *)
Definition color_tuple (color : Color) : list Z :=
  [color.1.1; color.1.2; color.2].

End GroupColors.

(* ===================================================================== *)
(** ** services/led_controller.py *)
(* ===================================================================== *)

Module Leds.

Import Controller.

Definition STATE_PATTERN_MAP (s : StoryBoxState) : option string :=
  match s with
  | BOOTING | WAITING_NETWORK | REQUESTING_STORY => Some "loading_blue_cycle"
  | PREPARING_STORY => Some "preparing_group_cycle"
  | PLAYING_STORY => Some "story_pulse"
  | IDLE_READY | PAUSED | CONFIRM_STOP => None
  end.

Definition EVENT_PATTERN_MAP : list (string * string) :=
  [("play_button_press", "flash_play_button");
   ("stop_button_press", "flash_stop_button");
   ("internet_connected", "flash_internet_connected")].

(** [EVENT_PATTERN_MAP.get(event_name)] *)
Definition event_pattern_id (event_name : string) : option string :=
  (list_to_map EVENT_PATTERN_MAP : gmap string string) !! event_name.

(** A call made on the LED driver. *)
Inductive DriverCall : Type :=
| set_pixels (colors : list Color)
| off.

(** What the LED controller asks of its patterns, over the clock readings
    [T], the patterns, the timelines and the suppliers of the playback
    position. *)
Class PatternOps (T Pattern Timeline Supplier : Type) : Type := {
  (** [PATTERN_FACTORIES[pattern_id]()], for an id of the table *)
  factory : string → Pattern;
  (** [ScriptedTimelinePattern(timeline, supplier)]; [None] when it raises *)
  scripted : Timeline → Supplier → option Pattern;
  (** [pattern.reset(pixel_count)] when the clock reads the given time *)
  pattern_reset : Z → T → Pattern → Pattern;
  (** [pattern.render()] at the given time: the colors, [None] when it
      raises, and the pattern as the call leaves it *)
  pattern_render : T → Pattern → option (list Color) * Pattern;
  (** [pattern.is_finished()] at the given time *)
  pattern_is_finished : T → Pattern → bool;
  (** [pattern.set_group_color(group_index, color)] and
      [pattern.clear_group_color(group_index)]; a pattern without the
      method, or whose call raises, is left as it is *)
  pattern_set_group_color : Z → Color → Pattern → Pattern;
  pattern_clear_group_color : Z → Pattern → Pattern
}.

Section Defs.

Context {T Pattern Timeline Supplier : Type}
        `{PatternOps T Pattern Timeline Supplier}.

(** The attributes of [LedController], and [driver], the calls made on the
    LED driver so far, oldest first. *)
Record LedController : Type := mkLedController {
  _pixel_count : Z;
  _state_pattern_id : option string;
  _state_pattern : option Pattern;
  _event_pattern_id : option string;
  _event_pattern : option Pattern;
  _current_state : option StoryBoxState;
  _story_timeline : option Timeline;
  _story_time_supplier : option Supplier;
  _strip_active : bool;
  driver : list DriverCall
}.

(** [__init__]; [led_count] is [getattr(led_driver, "led_count", 0)]. *)
Definition LedController_new (led_count : Z) : LedController :=
  {| _pixel_count := led_count;
     _state_pattern_id := None; _state_pattern := None;
     _event_pattern_id := None; _event_pattern := None;
     _current_state := None;
     _story_timeline := None; _story_time_supplier := None;
     _strip_active := false; driver := [] |}.

Definition with_state_pattern (pattern_id : option string)
    (pattern : option Pattern) (lc : LedController) : LedController :=
  {| _pixel_count := _pixel_count lc;
     _state_pattern_id := pattern_id; _state_pattern := pattern;
     _event_pattern_id := _event_pattern_id lc;
     _event_pattern := _event_pattern lc;
     _current_state := _current_state lc;
     _story_timeline := _story_timeline lc;
     _story_time_supplier := _story_time_supplier lc;
     _strip_active := _strip_active lc; driver := driver lc |}.

Definition with_event_pattern (pattern_id : option string)
    (pattern : option Pattern) (lc : LedController) : LedController :=
  {| _pixel_count := _pixel_count lc;
     _state_pattern_id := _state_pattern_id lc;
     _state_pattern := _state_pattern lc;
     _event_pattern_id := pattern_id; _event_pattern := pattern;
     _current_state := _current_state lc;
     _story_timeline := _story_timeline lc;
     _story_time_supplier := _story_time_supplier lc;
     _strip_active := _strip_active lc; driver := driver lc |}.

Definition with_current_state (s : option StoryBoxState) (lc : LedController)
  : LedController :=
  {| _pixel_count := _pixel_count lc;
     _state_pattern_id := _state_pattern_id lc;
     _state_pattern := _state_pattern lc;
     _event_pattern_id := _event_pattern_id lc;
     _event_pattern := _event_pattern lc;
     _current_state := s;
     _story_timeline := _story_timeline lc;
     _story_time_supplier := _story_time_supplier lc;
     _strip_active := _strip_active lc; driver := driver lc |}.

Definition with_story_timeline (timeline : option Timeline)
    (time_supplier : option Supplier) (lc : LedController) : LedController :=
  {| _pixel_count := _pixel_count lc;
     _state_pattern_id := _state_pattern_id lc;
     _state_pattern := _state_pattern lc;
     _event_pattern_id := _event_pattern_id lc;
     _event_pattern := _event_pattern lc;
     _current_state := _current_state lc;
     _story_timeline := timeline;
     _story_time_supplier := time_supplier;
     _strip_active := _strip_active lc; driver := driver lc |}.

(** A call on the driver, and [_strip_active] after it. *)
Definition drive (call : DriverCall) (active : bool) (lc : LedController)
  : LedController :=
  {| _pixel_count := _pixel_count lc;
     _state_pattern_id := _state_pattern_id lc;
     _state_pattern := _state_pattern lc;
     _event_pattern_id := _event_pattern_id lc;
     _event_pattern := _event_pattern lc;
     _current_state := _current_state lc;
     _story_timeline := _story_timeline lc;
     _story_time_supplier := _story_time_supplier lc;
     _strip_active := active; driver := driver lc ++ [call] |}.

(** [_instantiate_pattern] *)
Definition _instantiate_pattern (now : T) (pattern_id : option string)
    (lc : LedController) : option Pattern :=
  match pattern_id with
  | None => None
  | Some id =>
      if str_truthy id then
        if decide (id ∈ Patterns.PATTERN_FACTORIES)
        then Some (pattern_reset (_pixel_count lc) now (factory id))
        else None
      else None
  end.

(** [_instantiate_story_pattern_locked] *)
Definition _instantiate_story_pattern_locked (now : T) (lc : LedController)
  : option Pattern :=
  match _story_timeline lc, _story_time_supplier lc with
  | Some timeline, Some time_supplier =>
      match scripted timeline time_supplier with
      | Some pattern => Some (pattern_reset (_pixel_count lc) now pattern)
      | None => None
      end
  | _, _ => None
  end.

(** [_apply_current_state_locked] *)
Definition _apply_current_state_locked (now : T) (lc : LedController)
  : LedController :=
  match _current_state lc with
  | None => with_state_pattern None None lc
  | Some current =>
      if bool_decide (current = PLAYING_STORY)
         && bool_decide (is_Some (_story_timeline lc))
         && bool_decide (is_Some (_story_time_supplier lc))
      then
        match _instantiate_story_pattern_locked now lc with
        | None =>
            let fallback_id := STATE_PATTERN_MAP PLAYING_STORY in
            with_state_pattern fallback_id
              (_instantiate_pattern now fallback_id lc) lc
        | Some pattern => with_state_pattern None (Some pattern) lc
        end
      else
        let pattern_id := STATE_PATTERN_MAP current in
        with_state_pattern pattern_id (_instantiate_pattern now pattern_id lc) lc
  end.

(** [apply_state] *)
Definition apply_state (now : T) (s : StoryBoxState) (lc : LedController)
  : LedController :=
  _apply_current_state_locked now (with_current_state (Some s) lc).

(** [trigger_event] *)
Definition trigger_event (now : T) (event_name : string) (lc : LedController)
  : LedController :=
  match event_pattern_id event_name with
  | None => lc
  | Some pattern_id =>
      if str_truthy pattern_id then
        with_event_pattern (Some pattern_id)
          (_instantiate_pattern now (Some pattern_id) lc) lc
      else lc
  end.

(** [set_group_color] *)
Definition set_group_color (group_index : Z) (color : Color)
    (lc : LedController) : LedController :=
  match _state_pattern lc with
  | Some pattern =>
      with_state_pattern (_state_pattern_id lc)
        (Some (pattern_set_group_color group_index color pattern)) lc
  | None => lc
  end.

(** [clear_group_color] *)
Definition clear_group_color (group_index : Z) (lc : LedController)
  : LedController :=
  match _state_pattern lc with
  | Some pattern =>
      with_state_pattern (_state_pattern_id lc)
        (Some (pattern_clear_group_color group_index pattern)) lc
  | None => lc
  end.

(** [set_story_timeline] *)
Definition set_story_timeline (now : T) (timeline : option Timeline)
    (time_supplier : option Supplier) (lc : LedController) : LedController :=
  let lc1 := with_story_timeline timeline time_supplier lc in
  if decide (_current_state lc1 = Some PLAYING_STORY)
  then _apply_current_state_locked now lc1
  else lc1.

(** [clear_story_timeline] *)
Definition clear_story_timeline (now : T) (lc : LedController) : LedController :=
  set_story_timeline now None None lc.

(** The pattern which a turn of [_run_loop] renders: the event pattern
    when there is one, else the state pattern. *)
Definition shows_event (lc : LedController) : bool :=
  match _event_pattern lc, _event_pattern_id lc with
  | Some _, Some pattern_id => str_truthy pattern_id
  | _, _ => false
  end.

(** The end of the locked part of a turn: a finished event pattern is
    dropped, else a finished state pattern is started again. *)
Definition retire (now : T) (lc : LedController) : LedController :=
  let restart :=
    match _state_pattern lc with
    | Some pattern =>
        if pattern_is_finished now pattern
        then with_state_pattern (_state_pattern_id lc)
               (_instantiate_pattern now (_state_pattern_id lc) lc) lc
        else lc
    | None => lc
    end in
  match _event_pattern lc with
  | Some pattern =>
      if pattern_is_finished now pattern then with_event_pattern None None lc
      else restart
  | None => restart
  end.

(** One turn of [_run_loop], when the clock reads [now]. *)
Definition frame (now : T) (lc : LedController) : LedController :=
  let current_pattern :=
    if shows_event lc then _event_pattern lc else _state_pattern lc in
  match current_pattern with
  | Some pattern =>
      let '(rendered, pattern') := pattern_render now pattern in
      let colors := default [] rendered in
      let lc1 :=
        if shows_event lc
        then with_event_pattern (_event_pattern_id lc) (Some pattern') lc
        else with_state_pattern (_state_pattern_id lc) (Some pattern') lc in
      let lc2 := retire now lc1 in
      if decide (Z.of_nat (length colors) = _pixel_count lc2)
      then drive (set_pixels colors) true lc2
      else drive off false lc2
  | None =>
      if _strip_active lc then drive off false lc else lc
  end.

(** What happens to the LED controller: a call the controller makes, with
    the timeline and the supplier it passes when the call is
    [set_story_timeline], or a turn of the loop; each with the reading of
    the clock. *)
Inductive LedStep : Type :=
| Call (now : T) (timeline : Timeline) (time_supplier : Supplier)
       (cmd : Command)
| Turn (now : T).

Definition led_step (st : LedStep) (lc : LedController) : LedController :=
  match st with
  | Call now timeline time_supplier cmd =>
      match cmd with
      | led_apply_state s => apply_state now s lc
      | led_trigger_event event_name => trigger_event now event_name lc
      | led_set_group_color group_index color =>
          set_group_color group_index color lc
      | led_clear_group_color group_index => clear_group_color group_index lc
      | led_set_story_timeline =>
          set_story_timeline now (Some timeline) (Some time_supplier) lc
      | led_clear_story_timeline => clear_story_timeline now lc
      | _ => lc
      end
  | Turn now => frame now lc
  end.

Definition led_run (steps : list LedStep) (lc : LedController) : LedController :=
  fold_left (λ acc st, led_step st acc) steps lc.

(** The calls of the controller among the steps. *)
Definition calls (steps : list LedStep) : list Command :=
  omap (λ st, match st with
              | Call _ _ _ cmd => Some cmd
              | Turn _ => None
              end) steps.

(** The state which the calls of [apply_state] among [cmds] leave, from
    [current]. *)
Definition follow (current : option StoryBoxState) (cmds : list Command)
  : option StoryBoxState :=
  fold_left (λ acc cmd, match cmd with
                        | led_apply_state s => Some s
                        | _ => acc
                        end) cmds current.

(** The state pattern, with its id, which PLAYING_STORY gets for a
    timeline and a supplier when it is applied at [now]: the scripted
    pattern, or "story_pulse" when that cannot be built. *)
Definition story_pattern (now : T) (timeline : Timeline)
    (time_supplier : Supplier) (lc : LedController)
  : option string * option Pattern :=
  match scripted timeline time_supplier with
  | Some pattern => (None, Some (pattern_reset (_pixel_count lc) now pattern))
  | None =>
      (Some "story_pulse",
       Some (pattern_reset (_pixel_count lc) now (factory "story_pulse")))
  end.

(** The state pattern, with its id, which PLAYING_STORY gets without a
    timeline. *)
Definition pulse_pattern (now : T) (lc : LedController)
  : option string * option Pattern :=
  (Some "story_pulse",
   Some (pattern_reset (_pixel_count lc) now (factory "story_pulse"))).


(** Nothing to show: no event pattern shown and no state pattern. *)
Definition nothing_to_show (lc : LedController) : Prop :=
  shows_event lc = false ∧ _state_pattern lc = None.

(** No state pattern in a state without a pattern. *)
Definition dark (lc : LedController) : Prop :=
  ∀ s, _current_state lc = Some s → STATE_PATTERN_MAP s = None →
       _state_pattern lc = None.

End Defs.

Arguments LedController : clear implicits.
Arguments LedStep : clear implicits.

(** The commands of the controller which the LED controller can serve: a
    known event whose pattern has a factory, a state whose pattern, if it
    has one, has a factory, one of the four groups. *)
Definition well_addressed (cmd : Command) : bool :=
  match cmd with
  | led_trigger_event event_name =>
      match event_pattern_id event_name with
      | Some pattern_id =>
          str_truthy pattern_id
          && bool_decide (pattern_id ∈ Patterns.PATTERN_FACTORIES)
      | None => false
      end
  | led_apply_state s =>
      match STATE_PATTERN_MAP s with
      | Some pattern_id =>
          str_truthy pattern_id
          && bool_decide (pattern_id ∈ Patterns.PATTERN_FACTORIES)
      | None => true
      end
  | led_set_group_color group_index _ | led_clear_group_color group_index =>
      bool_decide (0 ≤ group_index < 4)
  | _ => true
  end.

End Leds.

(* ===================================================================== *)
(** ** Vocabulary of the statements on runs of the box *)
(* ===================================================================== *)

Module Traces.

Import Controller Events.

(** What a tag event does to the reader slots, whatever the state: a
    known reader takes the tag or loses it. *)
Definition slot_event (slots : gmap string (option Z)) (e : Event)
  : gmap string (option Z) :=
  match e with
  | TagDetected reader_id tag_id =>
      if decide (is_Some (slots !! reader_id))
      then <[reader_id := Some tag_id]> slots else slots
  | TagRemoved reader_id =>
      if decide (is_Some (slots !! reader_id))
      then <[reader_id := None]> slots else slots
  | _ => slots
  end.

Definition slots_after (events : list Event) (slots : gmap string (option Z))
  : gmap string (option Z) :=
  fold_left slot_event events slots.

(** The readers the controller is built with. *)
Definition known_readers : gset string :=
  {[ "reader1"; "reader2"; "reader3"; "reader4" ]}.

(** The commands issued from [c] to [c']. *)
Definition issued_since (c c' : Controller) : list Command :=
  drop (length (issued c)) (issued c').

(** The command which [_update_preparing_feedback] sends for a reader. *)
Definition is_feedback_for (slots : gmap string (option Z))
    (item : string * Z) (cmd : Command) : Prop :=
  match mjoin (slots !! item.1) with
  | Some _ => ∃ color, cmd = led_set_group_color item.2 color
  | None => cmd = led_clear_group_color item.2
  end.

(** The name cache holds answers of the provider only. *)
Definition names_from_provider (api_client : option StoryApiClient)
    (c : Controller) : Prop :=
  ∀ tag_id cached,
    _tag_names c !! tag_id = Some cached →
    ∃ api info, api_client = Some api
                ∧ get_character api tag_id = Some info
                ∧ name info = cached.

(** The path which the worker of [request_story] hands to [start_story]:
    the provider's, else the default story file, if there is one. *)
Definition story_to_play (api_client : option StoryApiClient)
    (story_path : option string) (c : Controller) : option string :=
  match (match api_client with Some _ => story_path | None => None end) with
  | Some path => Some path
  | None => if str_truthy (story_file c) then Some (story_file c) else None
  end.

(** The state and the pending confirmation after a callback, read from the
    state, the pending confirmation, the characters and the story file
    before it. *)
Definition next (api_client : option StoryApiClient) (e : Event)
    (c : Controller) : StoryBoxState * bool :=
  let st := state c in
  let pending := _pending_stop_confirm c in
  match e with
  | NetworkReady _ =>
      if decide (st = BOOTING ∨ st = WAITING_NETWORK)
      then (PREPARING_STORY, pending) else (st, pending)
  | NoInternet => (WAITING_NETWORK, pending)
  | TagDetected _ _ | TagRemoved _ | DurationChange _ | RotaryRotate _ =>
      (st, pending)
  | RotaryClick =>
      match st with
      | PREPARING_STORY =>
          match characters (session c) with
          | [] => (PREPARING_STORY, pending)
          | _ :: _ => (REQUESTING_STORY, pending)
          end
      | PLAYING_STORY => (PAUSED, pending)
      | PAUSED | CONFIRM_STOP => (PLAYING_STORY, false)
      | _ => (st, pending)
      end
  | StopButton _ _ =>
      match st with
      | PLAYING_STORY | PAUSED =>
          if pending then (PREPARING_STORY, false) else (CONFIRM_STOP, true)
      | CONFIRM_STOP => (PREPARING_STORY, false)
      | _ => (st, pending)
      end
  | StoryFinished _ _ => (PREPARING_STORY, false)
  | StoryRequestDone story_path _ =>
      match story_to_play api_client story_path c with
      | Some path =>
          if str_truthy path then (PLAYING_STORY, false) else (st, pending)
      | None => (PREPARING_STORY, pending)
      end
  end.

(** A story is on: playing or paused by the click. *)
Definition story_on (c : Controller) : Prop :=
  state c = PLAYING_STORY ∨ state c = PAUSED.

(** [c'] comes from [c] by issuing more commands, each of which the LED
    controller can serve. *)
Definition sends (c c' : Controller) : Prop :=
  ∃ more, issued c' = issued c ++ more
          ∧ Forall (λ cmd, Leds.well_addressed cmd = true) more.

(** The prompt which [_play_system_prompt] plays. *)
Definition prompt_played (c : Controller) (category event_name : string)
  : Command :=
  if decide (state c = PLAYING_STORY)
  then system_audio_play_event "system" "error"
  else system_audio_play_event category event_name.

(** The box from construction to a story playing: the network comes up,
    a figurine is put on reader 1, the click asks for a story and the
    request fails, so that the default story starts. *)
Definition events_to_story : list Event :=
  [NetworkReady pins_medium; TagDetected "reader1" 42; RotaryClick;
   StoryRequestDone None false].


(** ... then the click pauses the story. *)
Definition events_to_pause : list Event := events_to_story ++ [RotaryClick].

(** Sample patterns for the LED controller: a pattern is its name, the
    clock counts turns, and rendering gives no color. *)
#[global] Instance sample_ops : Leds.PatternOps Z string unit unit := {|
  Leds.factory := λ pattern_id, pattern_id;
  Leds.scripted := λ _ _, Some "scripted";
  Leds.pattern_reset := λ _ _ pattern, pattern;
  Leds.pattern_render := λ _ pattern, (Some [], pattern);
  Leds.pattern_is_finished := λ _ _, false;
  Leds.pattern_set_group_color := λ _ _ pattern, pattern;
  Leds.pattern_clear_group_color := λ _ pattern, pattern
|}.

(** The calls for the commands [cmds], followed by a turn of the loop. *)
Definition sample_steps (cmds : list Command) : list (Leds.LedStep Z unit unit) :=
  map (Leds.Call 0 tt tt) cmds ++ [Leds.Turn 1].


(** Each reading with the level of the pin before it, [before] being the
    level before the first reading; [level] gives the level of a reading. *)
Fixpoint with_previous {A B} (level : B → A) (before : A) (readings : list B)
  : list (A * B) :=
  match readings with
  | [] => []
  | r :: rest => (before, r) :: with_previous level (level r) rest
  end.

(** The falling edges of a pin: the readings at LOW that follow a level
    at HIGH. *)
Definition falling_edges (before : Selector.Level)
    (readings : list Selector.Level) : list (Selector.Level * Selector.Level) :=
  filter (λ pair, pair.1 = Selector.HIGH ∧ pair.2 = Selector.LOW)
         (with_previous id before readings).

(** The changes of the CLK pin of the encoder, with the direction read on
    DT at each. *)
Definition clk_changes (before : Selector.Level)
    (samples : list Inputs.RotarySample) : list Z :=
  omap (λ pair : Selector.Level * Inputs.RotarySample,
          if decide (Inputs.clk_state pair.2 ≠ pair.1)
          then Some (if decide (Inputs.dt_state pair.2 ≠ Inputs.clk_state pair.2)
                     then 1 else -1)
          else None)
       (with_previous Inputs.clk_state before samples).

(** The rotations and the clicks among callbacks of the encoder. *)
Definition rotations (calls : list Inputs.RotaryCallback) : list Z :=
  omap (λ call, match call with
                | Inputs.on_rotate delta => Some delta
                | Inputs.on_click => None
                end) calls.

Definition clicks (calls : list Inputs.RotaryCallback) : nat :=
  length (filter (λ call, call = Inputs.on_click) calls).

End Traces.

(* ===================================================================== *)
(** * Properties of the session controller *)
(* ===================================================================== *)

Import Controller Events.

(** ** What the helpers leave alone *)

Section Frames.

Variable api_client : option StoryApiClient.

Lemma _set_state_state (s : StoryBoxState) (c : Controller) :
  state (_set_state s c) = s.
Proof. unfold _set_state. case_decide; simpl; congruence. Qed.

Lemma _set_state_session (s : StoryBoxState) (c : Controller) :
  session (_set_state s c) = session c.
Proof. unfold _set_state. case_decide; reflexivity. Qed.

Lemma _set_state_slots (s : StoryBoxState) (c : Controller) :
  _reader_active_tags (_set_state s c) = _reader_active_tags c.
Proof. unfold _set_state. case_decide; reflexivity. Qed.

Lemma _set_state_names (s : StoryBoxState) (c : Controller) :
  _tag_names (_set_state s c) = _tag_names c.
Proof. unfold _set_state. case_decide; reflexivity. Qed.

Lemma _set_state_issued (s : StoryBoxState) (c : Controller) :
  issued (_set_state s c)
  = issued c ++ (if decide (s = state c) then [] else [led_apply_state s]).
Proof. unfold _set_state. case_decide; simpl; by rewrite ?app_nil_r. Qed.

Lemma _play_system_prompt_state (category event_name : string) (c : Controller) :
  state (_play_system_prompt category event_name c) = state c.
Proof. unfold _play_system_prompt. case_decide; reflexivity. Qed.

Lemma _play_system_prompt_session (category event_name : string) (c : Controller) :
  session (_play_system_prompt category event_name c) = session c.
Proof. unfold _play_system_prompt. case_decide; reflexivity. Qed.

Lemma _play_system_prompt_slots (category event_name : string) (c : Controller) :
  _reader_active_tags (_play_system_prompt category event_name c)
  = _reader_active_tags c.
Proof. unfold _play_system_prompt. case_decide; reflexivity. Qed.

Lemma _play_system_prompt_names (category event_name : string) (c : Controller) :
  _tag_names (_play_system_prompt category event_name c) = _tag_names c.
Proof. unfold _play_system_prompt. case_decide; reflexivity. Qed.

Lemma _play_system_prompt_issued (category event_name : string) (c : Controller) :
  state c ≠ PLAYING_STORY →
  issued (_play_system_prompt category event_name c)
  = issued c ++ [system_audio_play_event category event_name].
Proof. intros Hs. unfold _play_system_prompt. case_decide; [done | reflexivity]. Qed.

Lemma _character_name_frame (tag_id : Z) (c : Controller) :
  let c' := (_character_name api_client tag_id c).2 in
  state c' = state c ∧ session c' = session c
  ∧ _reader_active_tags c' = _reader_active_tags c
  ∧ issued c' = issued c.
Proof.
  unfold _character_name.
  destruct (_tag_names c !! tag_id); [done |].
  destruct api_client as [api |]; [| done].
  destruct (get_character api tag_id) as [info |]; [| done].
  destruct (group_color info); done.
Qed.

(** A name, once resolved, stays: looking a tag up does not change the
    name of any tag. *)
Lemma _character_name_fst (tag_id : Z) (c : Controller) :
  (_character_name api_client tag_id c).1
  = character_of api_client (_tag_names c) tag_id.
Proof.
  unfold _character_name, character_of.
  destruct (_tag_names c !! tag_id); [done |].
  destruct api_client as [api |]; simpl; [| done].
  destruct (get_character api tag_id) as [info |]; [| done].
  destruct (group_color info); done.
Qed.

Lemma _character_name_stable (tag_id other : Z) (c : Controller) :
  character_of api_client
    (_tag_names (_character_name api_client tag_id c).2) other
  = character_of api_client (_tag_names c) other.
Proof.
  unfold _character_name, character_of.
  destruct (_tag_names c !! tag_id) eqn:Hhit; [done |].
  destruct api_client as [api |]; simpl; [| done].
  destruct (get_character api tag_id) as [info |] eqn:Hapi; [| done].
  assert (Hins : (<[tag_id := name info]> (_tag_names c) !! other
                  = if decide (tag_id = other) then Some (name info)
                    else _tag_names c !! other)).
  { apply lookup_insert. }
  destruct (group_color info); simpl; rewrite Hins;
    (case_decide; [subst other; by rewrite Hhit, Hapi | done]).
Qed.

Lemma feedback_loop_frame (ordered : list (string * Z)) :
  ∀ (active : list string) (c : Controller),
    let r := feedback_loop api_client ordered active c in
    state r.2 = state c ∧ session r.2 = session c
    ∧ _reader_active_tags r.2 = _reader_active_tags c.
Proof.
  induction ordered as [| [reader_id group_index] rest IH]; intros active c; [done |].
  simpl. destruct (mjoin (_reader_active_tags c !! reader_id)) as [tag_id |].
  - set (c1 := emit _ c).
    pose proof (_character_name_frame tag_id c1) as (Hs & Hse & Hsl & _).
    destruct (_character_name api_client tag_id c1) as [character c2]; simpl in *.
    destruct (IH (active ++ [character]) c2) as (IHs & IHse & IHsl).
    rewrite IHs, IHse, IHsl. done.
  - destruct (IH active (emit (led_clear_group_color group_index) c))
      as (IHs & IHse & IHsl).
    rewrite IHs, IHse, IHsl. done.
Qed.

(** The list built by the loop: the names of the held tags, in the order of
    the readers given; and names are stable through the loop. *)
Lemma feedback_loop_characters (ordered : list (string * Z)) :
  ∀ (active : list string) (c : Controller),
    let r := feedback_loop api_client ordered active c in
    r.1 = active
          ++ map (λ h, character_of api_client (_tag_names c) (held_tag h))
                 (held_among ordered (_reader_active_tags c))
    ∧ ∀ other, character_of api_client (_tag_names r.2) other
               = character_of api_client (_tag_names c) other.
Proof.
  induction ordered as [| [reader_id group_index] rest IH]; intros active c.
  { simpl. by rewrite app_nil_r. }
  simpl. unfold held_among; simpl.
  destruct (mjoin (_reader_active_tags c !! reader_id)) as [tag_id |]; simpl.
  - set (c1 := emit _ c).
    pose proof (_character_name_frame tag_id c1) as (_ & _ & Hsl & _).
    pose proof (_character_name_fst tag_id c1) as Hfst.
    pose proof (λ o, _character_name_stable tag_id o c1) as Hst.
    destruct (_character_name api_client tag_id c1) as [character c2]; simpl in *.
    destruct (IH (active ++ [character]) c2) as [IH1 IH2].
    split.
    + rewrite IH1, Hsl, Hfst, <- app_assoc. simpl. f_equal. f_equal.
      apply map_ext. intros h. apply Hst.
    + intros o. by rewrite IH2, Hst.
  - apply (IH active (emit (led_clear_group_color group_index) c)).
Qed.

Lemma _update_preparing_feedback_state (c : Controller) :
  state (_update_preparing_feedback api_client c) = state c.
Proof.
  unfold _update_preparing_feedback. case_decide; [done |].
  pose proof (feedback_loop_frame (sorted_by_group _reader_to_group) [] c)
    as (Hs & _).
  destruct (feedback_loop _ _ _ c) as [l c1]. exact Hs.
Qed.

Lemma _update_preparing_feedback_slots (c : Controller) :
  _reader_active_tags (_update_preparing_feedback api_client c)
  = _reader_active_tags c.
Proof.
  unfold _update_preparing_feedback. case_decide; [done |].
  pose proof (feedback_loop_frame (sorted_by_group _reader_to_group) [] c)
    as (_ & _ & Hsl).
  destruct (feedback_loop _ _ _ c) as [l c1]. exact Hsl.
Qed.

(** [_update_preparing_feedback] rewrites the character list and nothing
    else of the session. *)
Lemma _update_preparing_feedback_session (c : Controller) :
  session (_update_preparing_feedback api_client c)
  = if decide (state c = PREPARING_STORY)
    then with_characters
           (map (λ h, character_of api_client (_tag_names c) (held_tag h))
                (held_among (sorted_by_group _reader_to_group)
                            (_reader_active_tags c)))
           (session c)
    else session c.
Proof.
  unfold _update_preparing_feedback.
  destruct (decide (state c = PREPARING_STORY)) as [Hp | Hp].
  - rewrite decide_False by (intros Hn; by apply Hn).
    pose proof (feedback_loop_frame (sorted_by_group _reader_to_group) [] c)
      as (_ & Hse & _).
    pose proof (feedback_loop_characters (sorted_by_group _reader_to_group) [] c)
      as [Hl _].
    destruct (feedback_loop _ _ _ c) as [l c1]. simpl in *.
    by rewrite Hse, Hl.
  - by rewrite decide_True.
Qed.

Lemma _update_preparing_feedback_names (c : Controller) (other : Z) :
  character_of api_client
    (_tag_names (_update_preparing_feedback api_client c)) other
  = character_of api_client (_tag_names c) other.
Proof.
  unfold _update_preparing_feedback. case_decide; [done |].
  pose proof (feedback_loop_characters (sorted_by_group _reader_to_group) [] c)
    as [_ Hn].
  destruct (feedback_loop _ _ _ c) as [l c1]. apply Hn.
Qed.

End Frames.

(** ** Commands issued, and the state while they are issued *)

Lemma state_after_app (st : StoryBoxState) (l1 l2 : list Command) :
  state_after st (l1 ++ l2) = state_after (state_after st l1) l2.
Proof.
  revert st. induction l1 as [| cmd l1 IH]; intros st; [done |].
  destruct cmd; simpl; apply IH.
Qed.

Lemma prompts_replaced_app (st : StoryBoxState) (l1 l2 : list Command) :
  prompts_replaced_while_playing st (l1 ++ l2)
  ↔ prompts_replaced_while_playing st l1
    ∧ prompts_replaced_while_playing (state_after st l1) l2.
Proof.
  revert st. induction l1 as [| cmd l1 IH]; intros st; [simpl; tauto |].
  destruct cmd; simpl; rewrite ?IH; tauto.
Qed.

Lemma continues_refl (c : Controller) : continues c c.
Proof. exists []. by rewrite app_nil_r. Qed.

Lemma continues_trans (c1 c2 c3 : Controller) :
  continues c1 c2 → continues c2 c3 → continues c1 c3.
Proof.
  intros (m1 & Hi1 & Hs1 & Hp1) (m2 & Hi2 & Hs2 & Hp2).
  exists (m1 ++ m2). split_and!.
  - by rewrite Hi2, Hi1, app_assoc.
  - by rewrite state_after_app, <- Hs1.
  - apply prompts_replaced_app. by rewrite <- Hs1.
Qed.

(** A step that issues nothing and keeps the state. *)
Lemma continues_silent (c c' : Controller) :
  issued c' = issued c → state c' = state c → continues c c'.
Proof. intros Hi Hs. exists []. by rewrite app_nil_r. Qed.

Lemma continues_emit (cmd : Command) (c : Controller) :
  plain cmd → continues c (emit cmd c).
Proof. intros Hq. exists [cmd]. by destruct cmd. Qed.

Lemma continues_set_state (s : StoryBoxState) (c : Controller) :
  continues c (_set_state s c).
Proof.
  unfold _set_state. case_decide; [apply continues_refl |].
  by exists [led_apply_state s].
Qed.

Lemma continues_play_system_prompt (category event_name : string) (c : Controller) :
  continues c (_play_system_prompt category event_name c).
Proof.
  unfold _play_system_prompt. case_decide.
  - by exists [system_audio_play_event "system" "error"].
  - by exists [system_audio_play_event category event_name].
Qed.

Section Continues.

Variable api_client : option StoryApiClient.

Lemma continues_character_name (tag_id : Z) (c : Controller) :
  continues c (_character_name api_client tag_id c).2.
Proof.
  destruct (_character_name_frame api_client tag_id c) as (Hs & _ & _ & Hi).
  by apply continues_silent.
Qed.

Lemma continues_feedback_loop (ordered : list (string * Z)) :
  ∀ (active : list string) (c : Controller),
    continues c (feedback_loop api_client ordered active c).2.
Proof.
  induction ordered as [| [reader_id group_index] rest IH]; intros active c.
  { apply continues_refl. }
  simpl. destruct (mjoin (_reader_active_tags c !! reader_id)) as [tag_id |].
  - set (c1 := emit _ c).
    assert (continues c c1) as H1 by by apply continues_emit.
    pose proof (continues_character_name tag_id c1) as H2.
    destruct (_character_name api_client tag_id c1) as [character c2].
    eapply continues_trans; [exact H1 |].
    eapply continues_trans; [exact H2 | apply IH].
  - eapply continues_trans; [| apply IH]. by apply continues_emit.
Qed.

Lemma continues_update_preparing_feedback (c : Controller) :
  continues c (_update_preparing_feedback api_client c).
Proof.
  unfold _update_preparing_feedback. case_decide; [apply continues_refl |].
  pose proof (continues_feedback_loop (sorted_by_group _reader_to_group) [] c)
    as Hloop.
  destruct (feedback_loop _ _ _ c) as [l c1].
  eapply continues_trans; [exact Hloop |]. by apply continues_silent.
Qed.

Lemma continues_start_preparing (pins : Selector.Pins) (c : Controller) :
  continues c (start_preparing api_client pins c).
Proof.
  unfold start_preparing.
  eapply continues_trans; [apply continues_set_state |].
  eapply continues_trans; [| apply continues_update_preparing_feedback].
  eapply continues_trans; [| apply continues_play_system_prompt].
  by apply continues_silent.
Qed.

Lemma continues_request_story (c : Controller) : continues c (request_story c).
Proof.
  unfold request_story. case_decide; [apply continues_refl |].
  destruct (characters (session c)).
  - apply continues_play_system_prompt.
  - eapply continues_trans; [apply continues_set_state |]. by apply continues_emit.
Qed.

Lemma continues_pause_story (c : Controller) : continues c (pause_story c).
Proof.
  unfold pause_story. case_decide; [apply continues_refl |].
  eapply continues_trans; [apply continues_set_state |]. by apply continues_emit.
Qed.

Lemma continues_resume_story (c : Controller) : continues c (resume_story c).
Proof.
  unfold resume_story. case_decide; [apply continues_refl |].
  eapply continues_trans; [| by apply continues_emit].
  eapply continues_trans; [| apply continues_set_state].
  by apply continues_silent.
Qed.

Lemma continues_start_story (timeline_loaded : bool) (c : Controller) :
  continues c (start_story timeline_loaded c).
Proof.
  unfold start_story.
  destruct (story_audio_path (session c)) as [path |]; [| apply continues_refl].
  destruct (str_truthy path); [| apply continues_refl].
  eapply continues_trans; [| by apply continues_emit].
  eapply continues_trans; [| by apply continues_silent].
  eapply continues_trans; [| apply continues_set_state].
  unfold _configure_story_timeline.
  destruct timeline_loaded; by apply continues_emit.
Qed.

Lemma continues_stop_story_and_reset (pins1 pins2 : Selector.Pins) (c : Controller) :
  continues c (stop_story_and_reset api_client pins1 pins2 c).
Proof.
  unfold stop_story_and_reset, stop_story_and_reset_head.
  eapply continues_trans; [| apply continues_start_preparing].
  eapply continues_trans; [| apply continues_set_state].
  eapply continues_trans; [by apply (continues_emit audio_stop_story) |].
  eapply continues_trans; [by apply (continues_emit led_clear_story_timeline) |].
  by apply continues_silent.
Qed.

Lemma continues_on_story_finished (pins1 pins2 : Selector.Pins) (c : Controller) :
  continues c (on_story_finished api_client pins1 pins2 c).
Proof.
  unfold on_story_finished, on_story_finished_head.
  eapply continues_trans; [| apply continues_start_preparing].
  eapply continues_trans; [| apply continues_set_state].
  eapply continues_trans; [by apply (continues_emit led_clear_story_timeline) |].
  by apply continues_silent.
Qed.

Lemma continues_request_story_run (story_path : option string)
    (timeline_loaded : bool) (c : Controller) :
  continues c (request_story_run api_client story_path timeline_loaded c).
Proof.
  unfold request_story_run.
  eapply continues_trans; [apply continues_play_system_prompt |].
  set (c1 := _play_system_prompt "system" "story_waiting" c).
  destruct (match api_client with Some _ => story_path | None => None end).
  - eapply continues_trans; [| apply continues_start_story].
    eapply continues_trans; [apply continues_play_system_prompt |].
    by apply continues_silent.
  - destruct (str_truthy (story_file c1)).
    + eapply continues_trans; [| apply continues_start_story].
      eapply continues_trans; [apply continues_play_system_prompt |].
      by apply continues_silent.
    + eapply continues_trans; [| apply continues_update_preparing_feedback].
      eapply continues_trans; [| apply continues_set_state].
      apply continues_play_system_prompt.
Qed.

Lemma continues_handle (e : Event) (c : Controller) :
  continues c (handle api_client e c).
Proof.
  destruct e; simpl.
  - (* on_network_ready *)
    unfold on_network_ready.
    set (c1 := if decide (state c = WAITING_NETWORK) then _ else c).
    assert (continues c c1) as H1.
    { subst c1. case_decide; [| apply continues_refl].
      eapply continues_trans; [apply continues_play_system_prompt |].
      by apply continues_emit. }
    case_decide; [| exact H1].
    eapply continues_trans; [exact H1 |].
    eapply continues_trans; [apply continues_set_state |].
    apply continues_start_preparing.
  - (* notify_no_internet *)
    unfold notify_no_internet.
    eapply continues_trans; [apply continues_set_state |].
    apply continues_play_system_prompt.
  - (* on_tag_detected *)
    unfold on_tag_detected.
    destruct (_reader_active_tags c !! reader_id) as [previous |];
      [| apply continues_refl].
    set (c1 := set_reader_active_tags _ c).
    assert (continues c c1) as H1 by by apply continues_silent.
    case_decide; [exact H1 |].
    pose proof (continues_character_name tag_id c1) as H2.
    destruct (_character_name api_client tag_id c1) as [character_name c2].
    eapply continues_trans; [exact H1 |].
    eapply continues_trans; [exact H2 |].
    eapply continues_trans; [| apply continues_update_preparing_feedback].
    case_decide; [apply continues_play_system_prompt | apply continues_refl].
  - (* on_tag_removed *)
    unfold on_tag_removed.
    destruct (_reader_active_tags c !! reader_id) as [[tag_id |] |];
      try apply continues_refl.
    set (c1 := set_reader_active_tags _ c).
    assert (continues c c1) as H1 by by apply continues_silent.
    case_decide; [exact H1 |].
    eapply continues_trans; [exact H1 |].
    eapply continues_trans; [apply continues_play_system_prompt |].
    apply continues_update_preparing_feedback.
  - (* on_duration_change *)
    unfold on_duration_change.
    eapply continues_trans; [| apply continues_play_system_prompt].
    by apply continues_silent.
  - (* on_rotary_rotate *)
    by apply continues_emit.
  - (* on_rotary_click *)
    unfold on_rotary_click.
    set (c1 := emit _ c).
    assert (continues c c1) as H1 by by apply continues_emit.
    eapply continues_trans; [exact H1 |].
    repeat case_decide; auto using continues_request_story,
      continues_pause_story, continues_resume_story, continues_refl.
  - (* on_stop_button *)
    unfold on_stop_button.
    set (c1 := emit _ c).
    assert (continues c c1) as H1 by by apply continues_emit.
    eapply continues_trans; [exact H1 |].
    repeat case_decide; auto using continues_stop_story_and_reset,
      continues_play_system_prompt.
    destruct (negb (_pending_stop_confirm c1));
      [| apply continues_stop_story_and_reset].
    eapply continues_trans; [| apply continues_play_system_prompt].
    eapply continues_trans; [| apply continues_set_state].
    eapply continues_trans; [| apply continues_pause_story].
    by apply continues_silent.
  - apply continues_on_story_finished.
  - apply continues_request_story_run.
Qed.

Lemma continues_run (events : list Event) :
  ∀ c : Controller, continues c (run api_client events c).
Proof.
  induction events as [| e events IH]; intros c; [apply continues_refl |].
  simpl. eapply continues_trans; [apply continues_handle | apply IH].
Qed.

End Continues.

(** ** The readers in group order *)

Lemma ordered_groups_eq :
  sorted_by_group _reader_to_group
  = [("reader4", 0); ("reader3", 1); ("reader1", 2); ("reader2", 3)].
Proof. reflexivity. Qed.

Lemma ordered_groups_sorted :
  StronglySorted (λ a b : string * Z, a.2 < b.2) (sorted_by_group _reader_to_group).
Proof. rewrite ordered_groups_eq. repeat constructor; simpl; lia. Qed.

Lemma group_index_of_ordered (reader_id : string) (g : Z) :
  group_index_of reader_id = Some g
  ↔ (reader_id, g) ∈ sorted_by_group _reader_to_group.
Proof.
  unfold group_index_of. rewrite <- elem_of_list_to_map.
  - rewrite ordered_groups_eq. unfold _reader_to_group.
    rewrite !elem_of_cons, !elem_of_nil. tauto.
  - simpl. repeat constructor; rewrite ?elem_of_cons, ?elem_of_nil;
      intros Hin; repeat destruct Hin as [Hin | Hin]; done.
Qed.

Lemma StronglySorted_omap {A B} (R : A → A → Prop) (R' : B → B → Prop)
    (f : A → option B) (l : list A) :
  (∀ x y x' y', R x y → f x = Some x' → f y = Some y' → R' x' y') →
  StronglySorted R l → StronglySorted R' (omap f l).
Proof.
  intros Hf. induction 1 as [| x l Hs IH Hall]; simpl; [constructor |].
  destruct (f x) as [x' |] eqn:Hx; [| exact IH].
  constructor; [exact IH |].
  apply Forall_forall. intros y' Hy'.
  apply list_elem_of_omap in Hy' as (y & Hy & Hfy).
  rewrite Forall_forall in Hall. eauto.
Qed.

(** The held readers computed along the group order are exactly the known
    readers that hold a tag, by strictly ascending group index. *)
Lemma held_among_ordered (slots : gmap string (option Z)) :
  let held := held_among (sorted_by_group _reader_to_group) slots in
  (∀ reader_id g tag_id,
      (reader_id, g, tag_id) ∈ held
      ↔ group_index_of reader_id = Some g ∧ slots !! reader_id = Some (Some tag_id))
  ∧ StronglySorted (λ a b, held_group a < held_group b) held.
Proof.
  cbv zeta. split.
  - intros reader_id g tag_id. unfold held_among.
    rewrite list_elem_of_omap, group_index_of_ordered. split.
    + intros ([r g'] & Hin & Hf). simpl in Hf.
      destruct (slots !! r) as [[t |] |] eqn:Hslot; simpl in Hf; try done.
      by simplify_eq.
    + intros [Hin Hslot]. exists (reader_id, g). split; [done |].
      simpl. by rewrite Hslot.
  - unfold held_among.
    eapply StronglySorted_omap; [| apply ordered_groups_sorted].
    intros [r1 g1] [r2 g2] h1 h2 Hlt Hf1 Hf2. simpl in *.
    destruct (mjoin (slots !! r1)); [| done].
    destruct (mjoin (slots !! r2)); [| done].
    simpl in *. by simplify_eq.
Qed.

Section Feedback.

Variable api_client : option StoryApiClient.

Lemma current_characters_active (c : Controller) :
  is_active_list api_client c (current_characters api_client c).
Proof.
  exists (held_among (sorted_by_group _reader_to_group) (_reader_active_tags c)).
  destruct (held_among_ordered (_reader_active_tags c)) as [Hmem Hsorted].
  done.
Qed.

Lemma current_characters_ext (c c' : Controller) :
  _reader_active_tags c' = _reader_active_tags c →
  (∀ other, character_of api_client (_tag_names c') other
            = character_of api_client (_tag_names c) other) →
  current_characters api_client c' = current_characters api_client c.
Proof.
  intros Hsl Hn. unfold current_characters. rewrite Hsl.
  apply map_ext. intros h. apply Hn.
Qed.

(** After the feedback is recomputed in PREPARING_STORY the session lists
    the current characters. *)
Lemma _update_preparing_feedback_current (c : Controller) :
  state c = PREPARING_STORY →
  let c' := _update_preparing_feedback api_client c in
  state c' = PREPARING_STORY
  ∧ characters (session c') = current_characters api_client c'
  ∧ current_characters api_client c' = current_characters api_client c.
Proof.
  intros Hp c'. subst c'.
  assert (Hcur : current_characters api_client (_update_preparing_feedback api_client c)
                 = current_characters api_client c).
  { apply current_characters_ext.
    - apply _update_preparing_feedback_slots.
    - apply _update_preparing_feedback_names. }
  split_and!.
  - by rewrite _update_preparing_feedback_state.
  - rewrite Hcur, _update_preparing_feedback_session.
    by rewrite decide_True.
  - exact Hcur.
Qed.



End Feedback.

(** ** Prompts *)

(** C10.  A prompt requested while the device state is PLAYING_STORY is
    played as the fixed ("system", "error") prompt, and in every other
    state as requested; nothing else of the controller changes.  Hence,
    through any sequence of events, every prompt played while the state is
    PLAYING_STORY is the ("system", "error") one: no character name,
    duration or status prompt is played then. *)
Theorem play_system_prompt_while_playing (api_client : option StoryApiClient)
    (category event_name : string) (c : Controller) (events : list Event) :
  _play_system_prompt category event_name c
  = emit (if decide (state c = PLAYING_STORY)
          then system_audio_play_event "system" "error"
          else system_audio_play_event category event_name) c
  ∧ ∃ more,
      issued (run api_client events c) = issued c ++ more
      ∧ state (run api_client events c) = state_after (state c) more
      ∧ prompts_replaced_while_playing (state c) more.
Proof.
  split.
  - unfold _play_system_prompt. by case_decide.
  - apply continues_run.
Qed.

(** ** The primary control *)

(** C1 (amended).  A rotary click first flashes the LEDs; then in
    PREPARING_STORY it invokes request-story; in PLAYING_STORY it pauses
    Playback and goes to PAUSED, with no prompt; in PAUSED and in
    CONFIRM_STOP it resumes and goes to PLAYING_STORY; in every other state
    nothing more happens. *)
Theorem on_rotary_click_by_state (c : Controller) :
  let pressed := emit (led_trigger_event "play_button_press") c in
  let c' := on_rotary_click c in
  match state c with
  | PREPARING_STORY => c' = request_story pressed
  | PLAYING_STORY =>
      state c' = PAUSED
      ∧ session c' = session c
      ∧ issued c' = issued c ++ [led_trigger_event "play_button_press";
                                 led_apply_state PAUSED; audio_pause_story]
  | PAUSED | CONFIRM_STOP =>
      state c' = PLAYING_STORY
      ∧ session c' = session c
      ∧ _pending_stop_confirm c' = false
      ∧ issued c' = issued c ++ [led_trigger_event "play_button_press";
                                 led_apply_state PLAYING_STORY; audio_resume_story]
  | BOOTING | WAITING_NETWORK | IDLE_READY | REQUESTING_STORY => c' = pressed
  end.
Proof.
  unfold on_rotary_click, pause_story, resume_story, _set_state.
  destruct (state c) eqn:Hs; simpl; rewrite Hs; simpl;
    rewrite <- ?app_assoc; done.
Qed.

(** C1, as stated, fails: a click while the default story plays leaves the
    box in PAUSED, not in CONFIRM_STOP, and plays no prompt. *)
Lemma rotary_click_while_playing_pauses :
  state sample_playing = PLAYING_STORY
  ∧ state (on_rotary_click sample_playing) = PAUSED
  ∧ state (on_rotary_click sample_playing) ≠ CONFIRM_STOP
  ∧ issued (on_rotary_click sample_playing)
    = issued sample_playing ++ [led_trigger_event "play_button_press";
                                led_apply_state PAUSED; audio_pause_story]
  ∧ system_audio_play_event "system" "stop_story"
    ∉ [led_trigger_event "play_button_press"; led_apply_state PAUSED;
       audio_pause_story].
Proof.
  split_and!; try (vm_compute; done).
  rewrite !elem_of_cons, elem_of_nil. intros [? | [? | [? | []]]]; done.
Qed.

(** The way to CONFIRM_STOP is the stop button: pressed while a story
    plays and no confirmation is pending, it pauses Playback, goes to
    CONFIRM_STOP and plays the "stop story" prompt. *)
Lemma on_stop_button_while_playing (api_client : option StoryApiClient)
    (pins1 pins2 : Selector.Pins) (c : Controller) :
  state c = PLAYING_STORY →
  _pending_stop_confirm c = false →
  let c' := on_stop_button api_client pins1 pins2 c in
  state c' = CONFIRM_STOP
  ∧ _pending_stop_confirm c' = true
  ∧ session c' = session c
  ∧ issued c' = issued c ++ [led_trigger_event "stop_button_press";
                             led_apply_state PAUSED; audio_pause_story;
                             led_apply_state CONFIRM_STOP;
                             system_audio_play_event "system" "stop_story"].
Proof.
  intros Hs Hp.
  unfold on_stop_button, pause_story, _set_state, _play_system_prompt.
  simpl. rewrite Hs, Hp. simpl. rewrite <- !app_assoc. done.
Qed.

(** ** request-story without characters *)

(** C3.  request-story with an empty character list changes neither the
    state nor the session; invoked in PREPARING_STORY it stays there and
    plays the "no characters" error prompt, and issues nothing else. *)
Theorem request_story_without_characters (c : Controller) :
  characters (session c) = [] →
  state (request_story c) = state c
  ∧ session (request_story c) = session c
  ∧ (state c = PREPARING_STORY →
     state (request_story c) = PREPARING_STORY
     ∧ issued (request_story c)
       = issued c ++ [system_audio_play_event "system" "no_characters"]).
Proof.
  intros Hempty. unfold request_story. rewrite Hempty.
  case_decide as Hp.
  - split_and!; [done | done |]. intros Hp'. by destruct Hp.
  - rewrite _play_system_prompt_state, _play_system_prompt_session.
    split_and!; [done | done |]. intros Hp'.
    split; [done |]. apply _play_system_prompt_issued. by rewrite Hp'.
Qed.

Lemma request_story_without_characters_witness :
  characters (session sample_preparing) = []
  ∧ state sample_preparing = PREPARING_STORY
  ∧ state (request_story sample_preparing) = PREPARING_STORY
  ∧ issued (request_story sample_preparing)
    = issued sample_preparing
      ++ [system_audio_play_event "system" "no_characters"].
Proof.
  split; [reflexivity |]. split; [reflexivity |].
  apply (request_story_without_characters sample_preparing); reflexivity.
Defined.

(** ** The duration mode *)

(** The selector thread passes only valid modes to the controller. *)
Lemma poll_notifies_valid_modes (last_mode : option string) (p : Selector.Pins)
    (mode : string) :
  (Selector.poll last_mode p).2 = Some mode → Selector.valid_mode mode.
Proof.
  unfold Selector.poll, Selector.valid_mode, Selector.read_mode.
  destruct p as [[] []], last_mode as [last |]; simpl;
    repeat (match goal with
            | |- context [decide ?P] => destruct (decide P)
            end);
    simpl; intros [= <-]; intuition congruence.
Qed.

Section DurationMode.

Variable api_client : option StoryApiClient.

(** [start_preparing] stores whatever the selector reads. *)
Lemma start_preparing_duration_mode (pins : Selector.Pins) (c : Controller) :
  duration_mode (session (start_preparing api_client pins c))
  = Selector.read_mode pins.
Proof.
  unfold start_preparing.
  rewrite _update_preparing_feedback_session.
  case_decide; simpl; by rewrite _play_system_prompt_session.
Qed.

(** C2 on the code: with both selector pins low the reading is "unknown",
    and start-preparing, stop-and-reset and story-finished each store it
    as the session's duration mode, whatever valid mode was stored. *)
Theorem unknown_reading_is_stored (pins : Selector.Pins) (c : Controller) :
  Selector.read_mode pins_unknown = "unknown"
  ∧ ¬ Selector.valid_mode "unknown"
  ∧ duration_mode (session (start_preparing api_client pins_unknown c))
    = "unknown"
  ∧ duration_mode (session (stop_story_and_reset api_client pins pins_unknown c))
    = "unknown"
  ∧ duration_mode (session (on_story_finished api_client pins pins_unknown c))
    = "unknown".
Proof.
  split_and!.
  - reflexivity.
  - unfold Selector.valid_mode. intros [? | [? | ?]]; done.
  - apply start_preparing_duration_mode.
  - apply start_preparing_duration_mode.
  - apply start_preparing_duration_mode.
Qed.

End DurationMode.

(** ** The active character list *)


Section ActiveList.

Variable api_client : option StoryApiClient.


Lemma start_preparing_spec (pins : Selector.Pins) (c : Controller) :
  let c' := start_preparing api_client pins c in
  state c' = PREPARING_STORY
  ∧ session c'
    = with_characters (current_characters api_client c)
        (with_duration_mode (Selector.read_mode pins) (session c))
  ∧ current_characters api_client c' = current_characters api_client c
  ∧ _reader_active_tags c' = _reader_active_tags c.
Proof.
  unfold start_preparing.
  set (c1 := _set_state PREPARING_STORY c).
  set (c2 := set_session _ c1).
  set (c3 := _play_system_prompt "system" "preparing_story" c2).
  assert (Hs3 : state c3 = PREPARING_STORY).
  { subst c3 c2. rewrite _play_system_prompt_state. simpl.
    apply _set_state_state. }
  assert (Hsl3 : _reader_active_tags c3 = _reader_active_tags c).
  { subst c3 c2. rewrite _play_system_prompt_slots. simpl.
    apply _set_state_slots. }
  assert (Hn3 : _tag_names c3 = _tag_names c).
  { subst c3 c2. rewrite _play_system_prompt_names. simpl.
    apply _set_state_names. }
  assert (Hc3 : current_characters api_client c3 = current_characters api_client c).
  { apply current_characters_ext; [done |]. intros o. by rewrite Hn3. }
  destruct (_update_preparing_feedback_current api_client c3 Hs3)
    as (Hs & Hch & Hcur).
  split_and!.
  - exact Hs.
  - rewrite _update_preparing_feedback_session, decide_True by done.
    fold (current_characters api_client c3). rewrite Hc3.
    subst c3 c2. rewrite _play_system_prompt_session. simpl.
    subst c1. by rewrite _set_state_session.
  - by rewrite Hcur.
  - by rewrite _update_preparing_feedback_slots.
Qed.





End ActiveList.


(** ** Reset after a stop or at the end of a story *)

Section Reset.

Variable api_client : option StoryApiClient.

(** C4 (amended).  stop-and-reset and story-finished have the same
    postcondition.  Both pass through IDLE_READY with a fresh session (no
    characters, no audio path, the duration mode just read), then enter
    PREPARING_STORY at once.  There the duration mode is the one read
    again, the audio path is empty, and the character list is recomputed
    from the tags still on the readers: it is empty exactly when no known
    reader holds a tag. *)
Theorem stop_and_finish_postcondition (pins1 pins2 : Selector.Pins)
    (c : Controller) :
  let idle_s := stop_story_and_reset_head pins1 c in
  let idle_f := on_story_finished_head pins1 c in
  let stopped := stop_story_and_reset api_client pins1 pins2 c in
  let finished := on_story_finished api_client pins1 pins2 c in
  let fresh := with_duration_mode (Selector.read_mode pins1) StorySession_new in
  (state idle_s = IDLE_READY ∧ session idle_s = fresh)
  ∧ (state idle_f = IDLE_READY ∧ session idle_f = fresh)
  ∧ stopped = start_preparing api_client pins2 idle_s
  ∧ finished = start_preparing api_client pins2 idle_f
  ∧ state stopped = PREPARING_STORY
  ∧ state finished = PREPARING_STORY
  ∧ session stopped
    = {| characters := current_characters api_client c;
         duration_mode := Selector.read_mode pins2;
         story_audio_path := None;
         led_pattern := None |}
  ∧ session finished = session stopped
  ∧ _pending_stop_confirm idle_s = false
  ∧ _pending_stop_confirm idle_f = false
  ∧ is_active_list api_client stopped (characters (session stopped))
  ∧ (characters (session stopped) = []
     ↔ ∀ reader_id g tag_id,
         group_index_of reader_id = Some g →
         _reader_active_tags c !! reader_id ≠ Some (Some tag_id)).
Proof.
  intros idle_s idle_f stopped finished fresh.
  subst stopped finished. unfold stop_story_and_reset, on_story_finished.
  fold idle_s idle_f.
  assert (His : state idle_s = IDLE_READY ∧ session idle_s = fresh
                ∧ _reader_active_tags idle_s = _reader_active_tags c
                ∧ _tag_names idle_s = _tag_names c
                ∧ _pending_stop_confirm idle_s = false).
  { subst idle_s. unfold stop_story_and_reset_head.
    rewrite _set_state_state, _set_state_session, _set_state_slots,
      _set_state_names.
    split_and!; try done. unfold _set_state. by case_decide. }
  assert (Hif : state idle_f = IDLE_READY ∧ session idle_f = fresh
                ∧ _reader_active_tags idle_f = _reader_active_tags c
                ∧ _tag_names idle_f = _tag_names c
                ∧ _pending_stop_confirm idle_f = false).
  { subst idle_f. unfold on_story_finished_head.
    rewrite _set_state_state, _set_state_session, _set_state_slots,
      _set_state_names.
    split_and!; try done. unfold _set_state. by case_decide. }
  destruct His as (Hs1 & Hse1 & Hsl1 & Hn1 & Hp1).
  destruct Hif as (Hs2 & Hse2 & Hsl2 & Hn2 & Hp2).
  destruct (start_preparing_spec api_client pins2 idle_s)
    as (Hps & Hpse & Hpcur & Hpsl).
  destruct (start_preparing_spec api_client pins2 idle_f)
    as (Hpf & Hpfe & _ & _).
  assert (Hcs : current_characters api_client idle_s
                = current_characters api_client c).
  { apply current_characters_ext; [done |]. intros o. by rewrite Hn1. }
  assert (Hcf : current_characters api_client idle_f
                = current_characters api_client c).
  { apply current_characters_ext; [done |]. intros o. by rewrite Hn2. }
  assert (Hsess : session (start_preparing api_client pins2 idle_s)
                  = {| characters := current_characters api_client c;
                       duration_mode := Selector.read_mode pins2;
                       story_audio_path := None;
                       led_pattern := None |}).
  { rewrite Hpse, Hse1, Hcs. reflexivity. }
  split_and!; try done.
  - rewrite Hpfe, Hse2, Hcf, Hsess. reflexivity.
  - rewrite Hsess. simpl. rewrite <- Hcs, <- Hpcur.
    apply current_characters_active.
  - rewrite Hsess. simpl. unfold current_characters.
    destruct (held_among_ordered (_reader_active_tags c)) as [Hmem _].
    split.
    + intros Hnil reader_id g tag_id Hg Hslot.
      apply fmap_nil_inv in Hnil.
      assert ((reader_id, g, tag_id)
              ∈ held_among (sorted_by_group _reader_to_group)
                  (_reader_active_tags c)) as Hin by by apply Hmem.
      rewrite Hnil in Hin. by apply elem_of_nil in Hin.
    + intros Hnone.
      destruct (held_among _ _) as [| [[r g] t] rest] eqn:Hheld; [done |].
      exfalso. apply (Hnone r g t); apply (Hmem r g t), elem_of_cons; by left.
Qed.

End Reset.

(** C4, as stated, fails: with figurines left on readers 1 and 4, the
    session after stop-and-reset (and after story-finished) lists their
    two characters. *)
Lemma reset_keeps_held_characters :
  state sample_confirm_stop = CONFIRM_STOP
  ∧ characters
      (session (stop_story_and_reset (Some sample_api) pins_medium pins_medium
                  sample_confirm_stop))
    = ["Luna"; "char_42"]
  ∧ characters
      (session (on_story_finished (Some sample_api) pins_medium pins_medium
                  sample_playing))
    = ["Luna"; "char_42"]
  ∧ characters StorySession_new = [].
Proof. split_and!; vm_compute; reflexivity. Qed.

(** ** Tag removed *)

Section TagRemoved.

Variable api_client : option StoryApiClient.


End TagRemoved.


(* ===================================================================== *)
(** * Properties of the lighting engine *)
(* ===================================================================== *)

Import Timeline TimelineSpec.

(** ** Segment selection, for any time values *)

Section Selection.

Context {T : Type} `{TimeOps T} {Params : Type}.

Implicit Types (segs rest : list (StoryLedSegment T Params)) (t : T).





End Selection.

(** ** Rendering a frame of the scripted timeline *)

Section Rendering.

Context {T : Type} `{TimeOps T} {Params LedPattern : Type}.

Variable create_pattern : string → Params → option LedPattern.
Variable pattern_reset : Z → LedPattern → LedPattern.
Variable pattern_render : LedPattern → T → list Color.
Variable pattern_render_for_elapsed : LedPattern → T → list Color.






End Rendering.

(** ** What the loader gives *)

Section Loader.

Context {T : Type} `{TimeOps T} {Params Extra : Type}.

Variable _translate_pattern :
  string → option Color → option T → Extra → string * Params.

Lemma insert_by_start_Forall (P : StoryLedSegment T Params → Prop)
    (x : StoryLedSegment T Params) (l : list (StoryLedSegment T Params)) :
  P x → Forall P l → Forall P (insert_by_start x l).
Proof.
  intros Hx. induction 1 as [| y l Hy Hl IH]; simpl.
  - by constructor.
  - destruct (t_ltb (start x) (start y)); repeat constructor; done.
Qed.





End Loader.

(** ** Intervals, on exact time values *)

Lemma Qltb_true (a b : Q) : Qltb a b = true ↔ (a < b)%Q.
Proof.
  unfold Qltb. rewrite negb_true_iff, <- not_true_iff_false, Qle_bool_iff.
  split; [apply Qnot_le_lt | apply Qlt_not_le].
Qed.

Lemma Qltb_false (a b : Q) : Qltb a b = false ↔ (b <= a)%Q.
Proof. unfold Qltb. by rewrite negb_false_iff, Qle_bool_iff. Qed.

Section Intervals.

Context {Params : Type}.

Implicit Types (segs : list (StoryLedSegment Q Params)) (t : Q).


(** After [__post_init__] the segments are in ascending order of start. *)
Lemma sort_by_start_sorted segs :
  StronglySorted (λ a b, (start a <= start b)%Q) (sort_by_start segs).
Proof.
  unfold sort_by_start.
  assert (∀ acc,
    StronglySorted (λ a b : StoryLedSegment Q Params, (start a <= start b)%Q) acc →
    StronglySorted (λ a b : StoryLedSegment Q Params, (start a <= start b)%Q)
      (fold_left (λ acc x, insert_by_start x acc) segs acc)) as Hgen.
  { induction segs as [| x segs IH]; intros acc Hacc; [done |].
    simpl. apply IH. clear IH.
    induction Hacc as [| y l Hl IHl Hy]; simpl; [repeat constructor |].
    change (t_ltb (start x) (start y)) with (Qltb (start x) (start y)).
    destruct (Qltb (start x) (start y)) eqn:Hlt.
    - apply Qltb_true in Hlt. constructor; [by constructor |].
      constructor; [lra |].
      eapply Forall_impl; [exact Hy |]. simpl. intros z Hz. lra.
    - apply Qltb_false in Hlt. constructor; [done |].
      by apply insert_by_start_Forall. }
  apply Hgen. constructor.
Qed.

End Intervals.

(** ** The two-segment timeline *)

(** C6.  On the timeline with segments A from 0 to 5 and B from 5 to 10,
    as the loader builds it, the segment selected is A (index 0) at
    position 4.999, B (index 1) at position 5.0, B at position 20 and A at
    position -1, which is first clamped to 0.  The positions are binary64
    floats. *)
Theorem timeline_AB_selection :
  load_story_led_timeline keep_name tt
    (Some (entries_AB (λ z, PrimFloat.of_uint63 (Uint63.of_Z z))))
  = Some timeline_AB
  ∧ selected_pattern timeline_AB (SupplierValue 4.999%float) = Some "A"
  ∧ selected_pattern timeline_AB (SupplierValue 5.0%float) = Some "B"
  ∧ selected_pattern timeline_AB (SupplierValue 20%float) = Some "B"
  ∧ selected_pattern timeline_AB (SupplierValue (-1)%float) = Some "A"
  ∧ _select_segment_index (segments timeline_AB) 4.999%float = Some 0%nat
  ∧ _select_segment_index (segments timeline_AB) 5.0%float = Some 1%nat
  ∧ _select_segment_index (segments timeline_AB) 20%float = Some 1%nat
  ∧ _current_time (SupplierValue (-1)%float) = 0%float
  ∧ _select_segment_index (segments timeline_AB) 0%float = Some 0%nat.
Proof. split_and!; vm_compute; reflexivity. Qed.

(** ** Frames of a loaded timeline *)

Section LoadedFrames.

Context {Params Extra LedPattern : Type}.

Variable _translate_pattern :
  string → option Color → option Q → Extra → string * Params.
Variable create_pattern : string → Params → option LedPattern.
Variable pattern_reset : Z → LedPattern → LedPattern.
Variable pattern_render : LedPattern → Q → list Color.
Variable pattern_render_for_elapsed : LedPattern → Q → list Color.


End LoadedFrames.



(** ** The group partition *)

Import GroupCycle.

Lemma tiles_snoc (from mid stop : Z) (ranges : list (Z * Z)) :
  tiles from ranges mid → mid + 1 ≤ stop →
  tiles from (ranges ++ [(mid, stop)]) stop.
Proof.
  revert from. induction ranges as [| [s e] ranges IH]; intros from; simpl.
  - intros -> Hlen. done.
  - intros (-> & Hlen & Hrest) Hstop. split_and!; [done | done |]. by apply IH.
Qed.

Lemma tiles_bounds (ranges : list (Z * Z)) :
  ∀ from to, tiles from ranges to →
    from ≤ to
    ∧ ∀ j r, ranges !! j = Some r → from ≤ r.1 ∧ r.1 < r.2 ∧ r.2 ≤ to.
Proof.
  induction ranges as [| [s e] ranges IH]; intros from to; simpl.
  - intros ->. split; [lia | done].
  - intros (-> & Hlen & Hrest). destruct (IH _ _ Hrest) as [Hle Hall].
    split; [lia |]. intros [| j] r Hr; simpl in Hr.
    + simplify_eq. simpl. lia.
    + destruct (Hall j r Hr). lia.
Qed.

(** Ranges that tile an interval keep every range and cover every pixel of
    the interval exactly once. *)
Lemma tiles_filter (ranges : list (Z * Z)) :
  ∀ from to, tiles from ranges to →
    filter (λ group : Z * Z, group.1 < group.2) ranges = ranges.
Proof.
  induction ranges as [| [s e] ranges IH]; intros from to; [done |].
  simpl. intros (-> & Hlen & Hrest).
  rewrite filter_cons_True by (simpl; lia). f_equal. by eapply IH.
Qed.

Lemma tiles_cover (ranges : list (Z * Z)) :
  ∀ from to pixel, tiles from ranges to → from ≤ pixel < to →
    ∃ (i : nat) r,
      ranges !! i = Some r ∧ in_range pixel r
      ∧ ∀ j r', ranges !! j = Some r' → in_range pixel r' → j = i.
Proof.
  induction ranges as [| [s e] ranges IH]; intros from to pixel; simpl.
  - intros ->. lia.
  - intros (-> & Hlen & Hrest) Hpx.
    destruct (tiles_bounds _ _ _ Hrest) as [Hle Hall].
    destruct (decide (pixel < e)) as [Hin | Hout].
    + exists 0%nat, (from, e). split_and!; [done | unfold in_range; simpl; lia |].
      intros [| j] r' Hr' Hpr'; [done |]. simpl in Hr'.
      destruct (Hall j r' Hr'). unfold in_range in Hpr'. lia.
    + destruct (IH e to pixel Hrest) as (i & r & Hr & Hpr & Huniq); [lia |].
      exists (S i), r. split_and!; [done | done |].
      intros [| j] r' Hr' Hpr'; simpl in Hr'.
      * simplify_eq. unfold in_range in Hpr'. simpl in Hpr'. lia.
      * f_equal. by eapply Huniq.
Qed.

(** The loop of [on_reset], when there are at least as many pixels left as
    groups left: the ranges built tile the strip up to the cursor, and the
    last group takes what is left. *)
Lemma on_reset_loop_tiles (pixel_count : Z) (scale : Q) (lengths : list Z) :
  ∀ st : ResetLoop,
    remaining_groups st = Z.of_nat (length lengths) →
    remaining_pixels st = pixel_count - cursor st →
    remaining_groups st ≤ remaining_pixels st →
    tiles 0 (indices st) (cursor st) →
    let final := fold_left (on_reset_step pixel_count scale) lengths st in
    tiles 0 (indices final) (cursor final)
    ∧ (lengths ≠ [] → cursor final = pixel_count)
    ∧ length (indices final) = (length (indices st) + length lengths)%nat.
Proof.
  induction lengths as [| len lengths IH]; intros st Hgroups Hpixels Hroom Htiles.
  { simpl. split_and!; [done | done | lia]. }
  simpl fold_left.
  set (st' := on_reset_step pixel_count scale st len).
  assert (Hstep :
    remaining_groups st' = Z.of_nat (length lengths)
    ∧ remaining_pixels st' = pixel_count - cursor st'
    ∧ remaining_groups st' ≤ remaining_pixels st'
    ∧ indices st' = indices st ++ [(cursor st, cursor st')]
    ∧ cursor st + 1 ≤ cursor st'
    ∧ (lengths = [] → cursor st' = pixel_count)).
  { subst st'. unfold on_reset_step. simpl in Hgroups. simpl.
    destruct (decide (remaining_groups st - 1 = 0)) as [Hlast | Hmore].
    - split_and!; try lia; try done.
    - split_and!; try lia; try done.
      intros ->. simpl in Hgroups. lia. }
  destruct Hstep as (Hg' & Hp' & Hr' & Hi' & Hlen' & Hend').
  destruct (IH st' Hg' Hp' Hr') as (Ht & Hc & Hl).
  { rewrite Hi'. by apply tiles_snoc. }
  split_and!; [done | |].
  - intros _. destruct lengths as [| len' lengths'].
    + simpl. by apply Hend'.
    + by apply Hc.
  - rewrite Hl, Hi', length_app. simpl. lia.
Qed.

Lemma fill_indices_ok (gi : Z) (idxs : list Z) :
  ∀ l : list Z,
    Forall (λ idx, 0 ≤ idx < Z.of_nat (length l)) idxs →
    ∃ l', foldl (λ acc idx, acc ≫= λ cur, py_setitem cur idx gi) (Some l) idxs
          = Some l'
          ∧ length l' = length l.
Proof.
  induction idxs as [| idx idxs IH]; intros l Hall; simpl; [by exists l |].
  apply Forall_cons in Hall as [Hidx Hall].
  unfold py_setitem at 2. rewrite decide_True by done.
  destruct (IH (<[Z.to_nat idx := gi]> l)) as (l' & Hl' & Hlen).
  { by rewrite length_insert. }
  exists l'. split; [done |]. by rewrite Hlen, length_insert.
Qed.

Lemma fill_range_ok (gi start stop : Z) (l : list Z) :
  0 ≤ start → stop ≤ Z.of_nat (length l) →
  ∃ l', fill_range gi start stop l = Some l' ∧ length l' = length l.
Proof.
  intros Hstart Hstop. apply fill_indices_ok.
  apply Forall_forall. intros idx Hidx.
  apply elem_of_seqZ in Hidx. lia.
Qed.

Lemma fill_groups_ok (ranges : list (Z * Z)) :
  ∀ (gi from to : Z) (l : list Z),
    tiles from ranges to → 0 ≤ from → to ≤ Z.of_nat (length l) →
    ∃ l', fill_groups gi ranges l = Some l' ∧ length l' = length l.
Proof.
  induction ranges as [| [s e] ranges IH]; intros gi from to l; simpl.
  - intros _ _ _. by exists l.
  - intros (-> & Hlen & Hrest) Hfrom Hto.
    destruct (tiles_bounds _ _ _ Hrest) as [Hle _].
    destruct (fill_range_ok gi from e l) as (l1 & Hl1 & Hlen1); [lia | lia |].
    rewrite Hl1.
    destruct (IH (gi + 1) e to l1 Hrest) as (l' & Hl' & Hlen'); [lia | lia |].
    exists l'. split; [done | congruence].
Qed.

(** Whatever the lengths and the rounding, with at least one pixel per
    group the ranges of [on_reset] tile the strip: no gap, no overlap,
    every range non-empty, the last one taking the remainder. *)
Lemma reset_tiles (lengths : list Z) (pixel_count : Z) :
  lengths ≠ [] →
  0 < foldr Z.add 0 lengths →
  Z.of_nat (length lengths) ≤ pixel_count →
  ∃ p, GroupCycle.reset pixel_count (GroupCyclePattern_new (Some lengths))
       = Some p
       ∧ tiles 0 (_groups p) pixel_count
       ∧ length (_groups p) = length lengths
       ∧ length (GroupCycle._pixel_group_index p) = Z.to_nat pixel_count.
Proof.
  intros Hne Htotal Hroom.
  assert (0 < pixel_count) as Hpix by (destruct lengths; [done | simpl in *; lia]).
  unfold GroupCycle.reset, on_reset, GroupCyclePattern_new.
  destruct lengths as [| len lengths]; [done |].
  cbn [GroupCycle._base_lengths GroupCycle._pixel_count].
  rewrite Z.max_r by lia.
  rewrite decide_False by lia.
  set (scale := (inject_Z pixel_count / inject_Z _)%Q).
  set (st0 := {| indices := []; cursor := 0; remaining_pixels := pixel_count;
                 remaining_groups := Z.of_nat (length (len :: lengths)) |}).
  destruct (on_reset_loop_tiles pixel_count scale (len :: lengths) st0)
    as (Htiles & Hcursor & Hlen); try done; [simpl; lia |].
  rewrite Hcursor in Htiles by done.
  set (final := fold_left _ _ st0) in *.
  rewrite (tiles_filter _ _ _ Htiles).
  destruct (fill_groups_ok (indices final) 0 0 pixel_count
              (replicate (Z.to_nat pixel_count) (-1)) Htiles)
    as (l' & Hl' & Hlen'); [lia | rewrite length_replicate; lia |].
  rewrite Hl'. eexists. split; [reflexivity |]. simpl.
  split_and!; [done | by rewrite Hlen | by rewrite Hlen', length_replicate].
Qed.

(** C8.  With group lengths [6, 8, 8, 8] (also the default ones) and 30
    pixels, the four ranges are [0,6), [6,14), [14,22) and [22,30): they
    tile [0,30) with no gap and no overlap, each holds at least one pixel,
    every pixel lies in exactly one range, which is its group, and the
    last range takes what the others leave.  For any number of pixels, at
    least four, the ranges tile the strip in the same way, the last one
    absorbing the rounding remainder. *)
Theorem group_cycle_partition_30 :
  ∃ p,
    GroupCycle.reset 30 (_build_group_cycle (Some [6; 8; 8; 8])) = Some p
    ∧ GroupCycle.reset 30 (_build_group_cycle None) = Some p
    ∧ _groups p = [(0, 6); (6, 14); (14, 22); (22, 30)]
    ∧ tiles 0 (_groups p) 30
    ∧ GroupCycle._pixel_group_index p
      = replicate 6 0 ++ replicate 8 1 ++ replicate 8 2 ++ replicate 8 3
    ∧ (∀ pixel, 0 ≤ pixel < 30 →
         ∃ (i : nat) r,
           _groups p !! i = Some r ∧ in_range pixel r
           ∧ ∀ j r', _groups p !! j = Some r' → in_range pixel r' → j = i)
    ∧ (∀ pixel_count, 4 ≤ pixel_count →
         ∃ q, GroupCycle.reset pixel_count (_build_group_cycle None) = Some q
              ∧ tiles 0 (_groups q) pixel_count
              ∧ length (_groups q) = 4%nat).
Proof.
  eexists. split; [vm_compute; reflexivity |].
  assert (tiles 0 [(0, 6); (6, 14); (14, 22); (22, 30)] 30) as Htiles
    by (simpl; lia).
  split; [vm_compute; reflexivity |].
  split; [reflexivity |].
  split; [exact Htiles |].
  split; [reflexivity |].
  split.
  - intros pixel Hpx. by apply (tiles_cover _ 0 30).
  - intros pixel_count Hpc.
    destruct (reset_tiles [6; 8; 8; 8] pixel_count) as (q & Hq & Ht & Hl & _);
      [done | simpl; lia | simpl; lia |].
    exists q. done.
Qed.

(* ===================================================================== *)
(** * Further properties of the session controller *)
(* ===================================================================== *)

Section Slots.

Import Traces.

Variable api_client : option StoryApiClient.

Lemma start_preparing_slots (pins : Selector.Pins) (c : Controller) :
  _reader_active_tags (start_preparing api_client pins c) = _reader_active_tags c.
Proof.
  unfold start_preparing.
  rewrite _update_preparing_feedback_slots, _play_system_prompt_slots.
  simpl. apply _set_state_slots.
Qed.

Lemma emit_slots (cmd : Command) (c : Controller) :
  _reader_active_tags (emit cmd c) = _reader_active_tags c.
Proof. reflexivity. Qed.

Lemma start_story_slots (timeline_loaded : bool) (c : Controller) :
  _reader_active_tags (start_story timeline_loaded c) = _reader_active_tags c.
Proof.
  unfold start_story, _configure_story_timeline.
  repeat case_match; simpl; rewrite ?_set_state_slots; by destruct timeline_loaded.
Qed.

Lemma handle_slots (e : Event) (c : Controller) :
  _reader_active_tags (handle api_client e c)
  = slot_event (_reader_active_tags c) e.
Proof.
  destruct e; simpl.
  - unfold on_network_ready.
    repeat case_decide;
      rewrite ?start_preparing_slots, ?_set_state_slots, ?emit_slots,
        ?_play_system_prompt_slots; done.
  - unfold notify_no_internet.
    by rewrite _play_system_prompt_slots, _set_state_slots.
  - unfold on_tag_detected.
    destruct (_reader_active_tags c !! reader_id) as [previous|] eqn:Hslot.
    + rewrite (decide_True (P := is_Some (Some previous))) by done.
      case_decide; [done|].
      destruct (_character_name _ _ _) as [character_name c2] eqn:Hname.
      rewrite _update_preparing_feedback_slots.
      pose proof (_character_name_frame api_client tag_id
                    (set_reader_active_tags
                       (<[reader_id:=Some tag_id]> (_reader_active_tags c)) c))
        as Hframe.
      rewrite Hname in Hframe. simpl in Hframe.
      destruct Hframe as (_ & _ & Hslots & _).
      case_decide; rewrite ?_play_system_prompt_slots; done.
    + rewrite (decide_False (P := is_Some None)); [done|]. by intros [? ?].
  - unfold on_tag_removed.
    destruct (_reader_active_tags c !! reader_id) as [[tag_id|]|] eqn:Hslot.
    + rewrite (decide_True (P := is_Some (Some (Some tag_id)))) by done.
      case_decide; [done|].
      by rewrite _update_preparing_feedback_slots, _play_system_prompt_slots.
    + rewrite (decide_True (P := is_Some (Some None))) by done.
      by rewrite insert_id.
    + rewrite (decide_False (P := is_Some None)); [done|]. by intros [? ?].
  - unfold on_duration_change. by rewrite _play_system_prompt_slots.
  - done.
  - unfold on_rotary_click, request_story, pause_story, resume_story.
    repeat (case_decide || case_match); simpl;
      rewrite ?_play_system_prompt_slots, ?_set_state_slots; done.
  - unfold on_stop_button, stop_story_and_reset, stop_story_and_reset_head,
      pause_story.
    repeat (case_decide || case_match); simpl;
      rewrite ?start_preparing_slots, ?_play_system_prompt_slots,
        ?_set_state_slots; simpl; rewrite ?_set_state_slots; done.
  - unfold on_story_finished, on_story_finished_head.
    by rewrite start_preparing_slots, _set_state_slots.
  - unfold request_story_run.
    repeat case_match;
      rewrite ?start_story_slots, ?_update_preparing_feedback_slots,
        ?_set_state_slots; simpl;
      rewrite ?_play_system_prompt_slots; done.
Qed.

Lemma slot_event_dom (e : Event) (slots : gmap string (option Z)) :
  dom (slot_event slots e) = dom slots.
Proof.
  destruct e; simpl; try done;
    (destruct (decide _) as [Hin|]; [|done]);
    apply elem_of_dom in Hin; rewrite dom_insert_L;
    apply set_eq; intros r; rewrite elem_of_union, elem_of_singleton;
    (split; [by intros [->|]|tauto]).
Qed.

(** X1 (main.py, [on_tag_detected], [on_tag_removed] and every other
    callback): whatever the states the box goes through, the reader slots
    are what the tag events alone make them: a known reader holds the last
    tag detected on it since its last removal, and no other callback, reset
    of the session included, touches a slot.  From construction on, the
    slots are those of the four readers. *)
Theorem slots_follow_tag_events (events : list Event) (c : Controller)
    (story_file : string) :
  _reader_active_tags (run api_client events c)
  = slots_after events (_reader_active_tags c)
  ∧ dom (_reader_active_tags (run api_client events c))
    = dom (_reader_active_tags c)
  ∧ dom (_reader_active_tags (run api_client events (init story_file)))
    = known_readers.
Proof.
  assert (Hrun : ∀ evs c0,
             _reader_active_tags (run api_client evs c0)
             = slots_after evs (_reader_active_tags c0)).
  { induction evs as [|e evs IH]; intros c0; [done|].
    unfold run, slots_after in *. simpl.
    by rewrite IH, handle_slots. }
  assert (Hdom : ∀ evs slots, dom (slots_after evs slots) = dom slots).
  { induction evs as [|e evs IH]; intros slots; [done|].
    unfold slots_after in *. simpl. by rewrite IH, slot_event_dom. }
  split_and!.
  - apply Hrun.
  - by rewrite Hrun, Hdom.
  - rewrite Hrun, Hdom. unfold init, known_readers. simpl.
    apply set_eq. intros r. rewrite elem_of_dom.
    rewrite !elem_of_union, !elem_of_singleton.
    unfold is_Some. split.
    + intros [x Hx].
      repeat (rewrite lookup_insert_Some in Hx;
              destruct Hx as [[<- _]|[_ Hx]]; [tauto|]).
      by rewrite lookup_empty in Hx.
    + intros [[[->| ->]| ->]| ->]; by eexists.
Qed.

End Slots.

Section Transitions.

Import Traces.

Variable api_client : option StoryApiClient.

Lemma _set_state_pending (s : StoryBoxState) (c : Controller) :
  _pending_stop_confirm (_set_state s c) = _pending_stop_confirm c.
Proof. unfold _set_state. by case_decide. Qed.

Lemma _play_system_prompt_pending (category event_name : string) (c : Controller) :
  _pending_stop_confirm (_play_system_prompt category event_name c)
  = _pending_stop_confirm c.
Proof. unfold _play_system_prompt. by case_decide. Qed.

Lemma _character_name_pending (tag_id : Z) (c : Controller) :
  _pending_stop_confirm (_character_name api_client tag_id c).2
  = _pending_stop_confirm c.
Proof. unfold _character_name. repeat case_match; done. Qed.

Lemma feedback_loop_pending (ordered : list (string * Z)) :
  ∀ (active : list string) (c : Controller),
    _pending_stop_confirm (feedback_loop api_client ordered active c).2
    = _pending_stop_confirm c.
Proof.
  induction ordered as [|[reader_id group_index] rest IH]; intros active c;
    [done|].
  simpl. destruct (mjoin _) as [tag_id|]; [|by rewrite IH].
  destruct (_character_name _ _ _) as [character c2] eqn:Hname.
  rewrite IH.
  change c2 with (character, c2).2. rewrite <- Hname.
  by rewrite _character_name_pending.
Qed.

Lemma _update_preparing_feedback_pending (c : Controller) :
  _pending_stop_confirm (_update_preparing_feedback api_client c)
  = _pending_stop_confirm c.
Proof.
  unfold _update_preparing_feedback. case_decide; [done|].
  destruct (feedback_loop _ _ _ _) as [active c1] eqn:Hloop. simpl.
  change c1 with (active, c1).2. rewrite <- Hloop.
  apply feedback_loop_pending.
Qed.

Lemma start_preparing_pending (pins : Selector.Pins) (c : Controller) :
  _pending_stop_confirm (start_preparing api_client pins c)
  = _pending_stop_confirm c.
Proof.
  unfold start_preparing.
  rewrite _update_preparing_feedback_pending, _play_system_prompt_pending.
  simpl. apply _set_state_pending.
Qed.

Lemma start_preparing_state (pins : Selector.Pins) (c : Controller) :
  state (start_preparing api_client pins c) = PREPARING_STORY.
Proof.
  unfold start_preparing.
  rewrite _update_preparing_feedback_state, _play_system_prompt_state.
  simpl. apply _set_state_state.
Qed.

Lemma stop_story_and_reset_head_pending (pins : Selector.Pins) (c : Controller) :
  _pending_stop_confirm (stop_story_and_reset_head pins c) = false.
Proof. unfold stop_story_and_reset_head. by rewrite _set_state_pending. Qed.

Lemma on_story_finished_head_pending (pins : Selector.Pins) (c : Controller) :
  _pending_stop_confirm (on_story_finished_head pins c) = false.
Proof. unfold on_story_finished_head. by rewrite _set_state_pending. Qed.

Lemma _play_system_prompt_story_file (category event_name : string)
    (c : Controller) :
  story_file (_play_system_prompt category event_name c) = story_file c.
Proof. unfold _play_system_prompt. by case_decide. Qed.

Lemma start_story_next (timeline_loaded : bool) (c : Controller) :
  (state (start_story timeline_loaded c),
   _pending_stop_confirm (start_story timeline_loaded c))
  = match story_audio_path (session c) with
    | Some path =>
        if str_truthy path then (PLAYING_STORY, false)
        else (state c, _pending_stop_confirm c)
    | None => (state c, _pending_stop_confirm c)
    end.
Proof.
  unfold start_story.
  destruct (story_audio_path (session c)) as [path|]; [|done].
  destruct (str_truthy path); [|done].
  simpl. by rewrite _set_state_state.
Qed.

(** The state and the pending confirmation after each callback. *)
Lemma handle_next (e : Event) (c : Controller) :
  (state (handle api_client e c), _pending_stop_confirm (handle api_client e c))
  = next api_client e c.
Proof.
  destruct e; unfold next; simpl.
  - unfold on_network_ready.
    repeat case_decide; simpl in *;
      rewrite ?start_preparing_state, ?start_preparing_pending,
        ?_set_state_pending, ?_play_system_prompt_state,
        ?_play_system_prompt_pending in *; simpl in *;
      try done; try tauto.
    all: rewrite ?_play_system_prompt_state, ?_play_system_prompt_pending in *;
      try done; tauto.
  - unfold notify_no_internet.
    by rewrite _play_system_prompt_state, _play_system_prompt_pending,
      _set_state_state, _set_state_pending.
  - unfold on_tag_detected.
    destruct (_reader_active_tags c !! reader_id) as [previous|]; [|done].
    case_decide; [done|].
    destruct (_character_name _ _ _) as [character_name c2] eqn:Hname.
    rewrite _update_preparing_feedback_state, _update_preparing_feedback_pending.
    pose proof (_character_name_frame api_client tag_id
                  (set_reader_active_tags
                     (<[reader_id:=Some tag_id]> (_reader_active_tags c)) c))
      as (Hst & _).
    pose proof (_character_name_pending tag_id
                  (set_reader_active_tags
                     (<[reader_id:=Some tag_id]> (_reader_active_tags c)) c))
      as Hpend.
    rewrite Hname in Hst, Hpend. simpl in Hst, Hpend.
    case_decide;
      rewrite ?_play_system_prompt_state, ?_play_system_prompt_pending;
      by rewrite Hst, Hpend.
  - unfold on_tag_removed.
    destruct (_reader_active_tags c !! reader_id) as [[tag_id|]|]; try done.
    case_decide; [done|].
    by rewrite _update_preparing_feedback_state, _update_preparing_feedback_pending,
      _play_system_prompt_state, _play_system_prompt_pending.
  - unfold on_duration_change.
    by rewrite _play_system_prompt_state, _play_system_prompt_pending.
  - done.
  - unfold on_rotary_click, request_story, pause_story, resume_story. simpl.
    destruct (state c) eqn:Hst; simpl;
      repeat (case_decide; try (exfalso; intuition congruence)); simpl;
      try destruct (characters (session c)); simpl;
      rewrite ?_play_system_prompt_state, ?_play_system_prompt_pending,
        ?_set_state_state, ?_set_state_pending; simpl; rewrite ?Hst; done.
  - unfold on_stop_button, stop_story_and_reset, pause_story. simpl.
    destruct (state c) eqn:Hst; simpl;
      repeat (case_decide; try (exfalso; intuition congruence)); simpl;
      try destruct (_pending_stop_confirm c) eqn:Hp; simpl;
      rewrite ?start_preparing_state, ?start_preparing_pending,
        ?stop_story_and_reset_head_pending,
        ?_play_system_prompt_state, ?_play_system_prompt_pending,
        ?_set_state_state, ?_set_state_pending; simpl; rewrite ?Hst, ?Hp;
      try done.
    by rewrite _set_state_pending.
  - unfold on_story_finished.
    by rewrite start_preparing_state, start_preparing_pending,
      on_story_finished_head_pending.
  - unfold request_story_run, story_to_play.
    rewrite !_play_system_prompt_story_file.
    destruct (match api_client with Some _ => story_path | None => None end)
      as [path|].
    + rewrite start_story_next. simpl. destruct (str_truthy path); [done|].
      by rewrite !_play_system_prompt_state, !_play_system_prompt_pending.
    + destruct (str_truthy (story_file c)) eqn:Hfile.
      * rewrite start_story_next. simpl.
        rewrite ?_play_system_prompt_story_file. by rewrite Hfile.
      * by rewrite _update_preparing_feedback_state,
          _update_preparing_feedback_pending, _set_state_state,
          _set_state_pending, !_play_system_prompt_pending.
Qed.

End Transitions.
Section Protocol.

Import Traces.

Variable api_client : option StoryApiClient.

Lemma issued_since_app (c c' : Controller) (more : list Command) :
  issued c' = issued c ++ more → issued_since c c' = more.
Proof. unfold issued_since. intros ->. by rewrite drop_app_length. Qed.

Lemma next_story_on (e : Event) (c : Controller) :
  (story_on c → _pending_stop_confirm c = false) →
  (next api_client e c).1 = PLAYING_STORY ∨ (next api_client e c).1 = PAUSED →
  (next api_client e c).2 = false.
Proof.
  unfold story_on, next. intros Hinv.
  destruct e; simpl;
    repeat (case_decide || case_match); simpl; intros [?|?];
    try done; try (apply Hinv; by auto); congruence.
Qed.

Lemma run_snoc (events : list Event) (e : Event) (c : Controller) :
  run api_client (events ++ [e]) c
  = handle api_client e (run api_client events c).
Proof. unfold run. by rewrite fold_left_app. Qed.

(** While a story is on, no confirmation is pending. *)
Lemma run_story_on_pending (events : list Event) (story_file : string) :
  story_on (run api_client events (init story_file)) →
  _pending_stop_confirm (run api_client events (init story_file)) = false.
Proof.
  induction events as [|e events IH] using rev_ind.
  - by intros [?|?].
  - rewrite run_snoc.
    pose proof (handle_next api_client e
                  (run api_client events (init story_file))) as Hnext.
    intros Hon. unfold story_on in Hon.
    pose proof (next_story_on e _ IH) as Hp.
    rewrite <- Hnext in Hp. simpl in Hp. by apply Hp.
Qed.

Lemma stop_story_and_reset_issued (pins1 pins2 : Selector.Pins) (c : Controller) :
  ∃ more,
    issued (stop_story_and_reset api_client pins1 pins2 c)
    = issued c ++ audio_stop_story :: led_clear_story_timeline :: more.
Proof.
  unfold stop_story_and_reset.
  destruct (continues_start_preparing api_client pins2
              (stop_story_and_reset_head pins1 c)) as (more & -> & _).
  unfold stop_story_and_reset_head. rewrite _set_state_issued. simpl.
  eexists. rewrite <- !app_assoc. simpl. reflexivity.
Qed.

(** X2 (main.py, [on_stop_button], [on_rotary_click],
    [stop_story_and_reset]): a story is never stopped by one press.  After
    any events from construction on, while a story plays or is paused, a
    press on the stop button only asks for confirmation: the state becomes
    CONFIRM_STOP, the session is kept and the player is not stopped.  From
    there a second press stops the player and brings the box back to
    PREPARING_STORY, whereas a click resumes the story and drops the
    request. *)
Theorem stop_needs_two_presses (events : list Event) (story_file : string)
    (pins1 pins2 pins3 pins4 : Selector.Pins) :
  let c := run api_client events (init story_file) in
  let asked := on_stop_button api_client pins1 pins2 c in
  let stopped := on_stop_button api_client pins3 pins4 asked in
  let resumed := on_rotary_click asked in
  story_on c →
  (state asked = CONFIRM_STOP
   ∧ _pending_stop_confirm asked = true
   ∧ session asked = session c
   ∧ (audio_stop_story ∉ issued_since c asked)
   ∧ system_audio_play_event "system" "stop_story" ∈ issued_since c asked)
  ∧ (state stopped = PREPARING_STORY
     ∧ _pending_stop_confirm stopped = false
     ∧ story_audio_path (session stopped) = None
     ∧ audio_stop_story ∈ issued_since asked stopped)
  ∧ (state resumed = PLAYING_STORY
     ∧ _pending_stop_confirm resumed = false
     ∧ session resumed = session c
     ∧ issued_since asked resumed
       = [led_trigger_event "play_button_press";
          led_apply_state PLAYING_STORY; audio_resume_story]).
Proof.
  intros c asked stopped resumed Hon.
  pose proof (run_story_on_pending events story_file Hon) as Hpend.
  fold c in Hpend.
  assert (Hasked : state asked = CONFIRM_STOP
                   ∧ _pending_stop_confirm asked = true
                   ∧ session asked = session c
                   ∧ (audio_stop_story ∉ issued_since c asked)
                   ∧ system_audio_play_event "system" "stop_story"
                     ∈ issued_since c asked).
  { destruct Hon as [Hst|Hst].
    - destruct (on_stop_button_while_playing api_client pins1 pins2 c Hst Hpend)
        as (H1 & H2 & H3 & H4).
      fold asked in H1, H2, H3, H4.
      rewrite (issued_since_app _ _ _ H4).
      split_and!; try done.
      + rewrite !elem_of_cons, elem_of_nil. intros H; intuition discriminate.
      + rewrite !elem_of_cons. tauto.
    - assert (Hdef : asked
                     = _play_system_prompt "system" "stop_story"
                         (_set_state CONFIRM_STOP
                            (set_pending_stop_confirm true
                               (emit (led_trigger_event "stop_button_press") c)))).
      { subst asked. unfold on_stop_button, pause_story. simpl.
        rewrite decide_True by (right; exact Hst).
        rewrite Hpend. simpl.
        rewrite (decide_True (P := state c ≠ PLAYING_STORY)) by congruence.
        done. }
      assert (Hiss : issued asked
                     = issued c ++ [led_trigger_event "stop_button_press";
                                    led_apply_state CONFIRM_STOP;
                                    system_audio_play_event "system" "stop_story"]).
      { rewrite Hdef.
        rewrite _play_system_prompt_issued
          by (rewrite _set_state_state; discriminate).
        rewrite _set_state_issued. simpl.
        rewrite decide_False by congruence.
        by rewrite <- !app_assoc. }
      rewrite (issued_since_app _ _ _ Hiss).
      rewrite Hdef.
      rewrite _play_system_prompt_state, _play_system_prompt_pending,
        _play_system_prompt_session, _set_state_state, _set_state_pending,
        _set_state_session.
      split_and!; try done.
      + rewrite !elem_of_cons, elem_of_nil. intros H; intuition discriminate.
      + rewrite !elem_of_cons. tauto. }
  destruct Hasked as (Hst1 & Hp1 & Hs1 & Hno & Hprompt).
  split; [done|]. split.
  - assert (Hdef : stopped
                   = stop_story_and_reset api_client pins3 pins4
                       (emit (led_trigger_event "stop_button_press") asked)).
    { subst stopped. unfold on_stop_button. simpl.
      rewrite decide_False by (rewrite Hst1; intros [?|?]; discriminate).
      by rewrite decide_True by done. }
    destruct (stop_story_and_reset_issued pins3 pins4
                (emit (led_trigger_event "stop_button_press") asked))
      as (more & Hiss).
    rewrite <- Hdef in Hiss. simpl in Hiss. rewrite <- app_assoc in Hiss.
    rewrite (issued_since_app _ _ _ Hiss).
    rewrite Hdef. unfold stop_story_and_reset.
    rewrite start_preparing_state, start_preparing_pending,
      stop_story_and_reset_head_pending.
    destruct (start_preparing_spec api_client pins4
                (stop_story_and_reset_head pins3
                   (emit (led_trigger_event "stop_button_press") asked)))
      as (_ & -> & _).
    split_and!; try done.
    + unfold stop_story_and_reset_head. by rewrite _set_state_session.
    + simpl. rewrite !elem_of_cons. tauto.
  - assert (Hdef : resumed
                   = emit audio_resume_story
                       (_set_state PLAYING_STORY
                          (set_pending_stop_confirm false
                             (emit (led_trigger_event "play_button_press") asked)))).
    { subst resumed. unfold on_rotary_click, resume_story. simpl.
      rewrite Hst1. by repeat (case_decide; try intuition congruence). }
    assert (Hiss : issued resumed
                   = issued asked ++ [led_trigger_event "play_button_press";
                                      led_apply_state PLAYING_STORY;
                                      audio_resume_story]).
    { rewrite Hdef. simpl. rewrite _set_state_issued. simpl.
      rewrite Hst1. rewrite decide_False by congruence.
      by rewrite <- !app_assoc. }
    rewrite (issued_since_app _ _ _ Hiss). rewrite Hdef. simpl.
    by rewrite _set_state_state, _set_state_pending, _set_state_session.
Qed.

End Protocol.

(** A run on which [stop_needs_two_presses] applies: a story plays. *)
Lemma stop_needs_two_presses_witness :
  let c := run (Some sample_api) Traces.events_to_story (init "epic.mp3") in
  Traces.story_on c
  ∧ state (on_stop_button (Some sample_api) pins_medium pins_medium c)
    = CONFIRM_STOP
  ∧ state (on_stop_button (Some sample_api) pins_medium pins_medium
             (on_stop_button (Some sample_api) pins_medium pins_medium c))
    = PREPARING_STORY.
Proof.
  assert (Hon : Traces.story_on
                  (run (Some sample_api) Traces.events_to_story (init "epic.mp3")))
    by (left; vm_compute; reflexivity).
  pose proof (stop_needs_two_presses (Some sample_api) Traces.events_to_story
                "epic.mp3" pins_medium pins_medium pins_medium pins_medium Hon)
    as ((H1 & _) & (H2 & _) & _).
  exact (conj Hon (conj H1 H2)).
Defined.

Section Entering.

Import Traces.

Variable api_client : option StoryApiClient.

(** X3 (main.py, all callbacks with [_set_state]): how each state is
    entered.  A callback either leaves the state as it is or enters
    WAITING_NETWORK (loss of the network only), PREPARING_STORY (network up
    while waiting, confirmed stop, end of the story, failed request with no
    default story), REQUESTING_STORY (click in PREPARING_STORY with a
    character), PLAYING_STORY (click in PAUSED or CONFIRM_STOP, or a story
    to play), PAUSED (click in PLAYING_STORY) or CONFIRM_STOP (stop button
    while a story is on and no confirmation is pending).  No callback ends
    in BOOTING or IDLE_READY: IDLE_READY is only passed through, and from
    construction on the box is never found in it. *)
Theorem state_entered_only_by (e : Event) (c : Controller)
    (events : list Event) (story_file : string) :
  (state (handle api_client e c) = state c
   ∨ match state (handle api_client e c) with
     | BOOTING | IDLE_READY => False
     | WAITING_NETWORK => e = NoInternet
     | PREPARING_STORY =>
         (∃ pins, e = NetworkReady pins
                  ∧ (state c = BOOTING ∨ state c = WAITING_NETWORK))
         ∨ (∃ pins1 pins2, e = StopButton pins1 pins2
                           ∧ (state c = CONFIRM_STOP
                              ∨ story_on c ∧ _pending_stop_confirm c = true))
         ∨ (∃ pins1 pins2, e = StoryFinished pins1 pins2)
         ∨ (∃ story_path timeline_loaded,
               e = StoryRequestDone story_path timeline_loaded
               ∧ story_to_play api_client story_path c = None)
     | REQUESTING_STORY =>
         e = RotaryClick ∧ state c = PREPARING_STORY
         ∧ characters (session c) ≠ []
     | PLAYING_STORY =>
         (e = RotaryClick ∧ (state c = PAUSED ∨ state c = CONFIRM_STOP))
         ∨ (∃ story_path timeline_loaded path,
               e = StoryRequestDone story_path timeline_loaded
               ∧ story_to_play api_client story_path c = Some path)
     | PAUSED => e = RotaryClick ∧ state c = PLAYING_STORY
     | CONFIRM_STOP =>
         (∃ pins1 pins2, e = StopButton pins1 pins2)
         ∧ story_on c ∧ _pending_stop_confirm c = false
     end)
  ∧ state (run api_client events (init story_file)) ≠ IDLE_READY.
Proof.
  assert (Hstep : ∀ e0 c0, state c0 ≠ IDLE_READY →
                           state (handle api_client e0 c0) ≠ IDLE_READY).
  { intros e0 c0 Hc0.
    pose proof (handle_next api_client e0 c0) as Hnext.
    apply (f_equal fst) in Hnext. simpl in Hnext. rewrite Hnext.
    unfold next. destruct e0; simpl; repeat (case_decide || case_match);
      simpl; congruence. }
  split.
  - pose proof (handle_next api_client e c) as Hnext.
    apply (f_equal fst) in Hnext. simpl in Hnext. rewrite Hnext.
    unfold next, story_on.
    destruct e; simpl.
    + case_decide; [right; left; eauto|by left].
    + right. done.
    + by left.
    + by left.
    + by left.
    + by left.
    + destruct (state c) eqn:Hst; try (by left).
      * destruct (characters (session c)) eqn:Hch; [by left|]. by right.
      * by right.
      * right. left. auto.
      * right. left. auto.
    + destruct (state c) eqn:Hst; try (by left).
      * destruct (_pending_stop_confirm c) eqn:Hp; right; simpl.
        -- right. left. eauto 10.
        -- eauto 10.
      * destruct (_pending_stop_confirm c) eqn:Hp; right; simpl.
        -- right. left. eauto 10.
        -- eauto 10.
      * right. simpl. right. left. eauto 10.
    + right. simpl. right. right. left. eauto.
    + destruct (story_to_play api_client story_path c) as [path|] eqn:Hplay.
      * destruct (str_truthy path); [|by left]. right. simpl. right. eauto 10.
      * right. simpl. right. right. right. eauto 10.
  - induction events as [|e0 events IH] using rev_ind; [done|].
    rewrite run_snoc. by apply Hstep.
Qed.

End Entering.

Section Tags.

Import Traces.

Variable api_client : option StoryApiClient.

Lemma feedback_loop_commands (ordered : list (string * Z)) :
  ∀ (active : list string) (c : Controller),
    ∃ cmds,
      issued (feedback_loop api_client ordered active c).2 = issued c ++ cmds
      ∧ Forall2 (is_feedback_for (_reader_active_tags c)) ordered cmds.
Proof.
  induction ordered as [|[reader_id group_index] rest IH]; intros active c.
  - exists []. simpl. by rewrite app_nil_r.
  - simpl. unfold is_feedback_for at 1.
    destruct (mjoin (_reader_active_tags c !! reader_id)) as [tag_id|] eqn:Hslot.
    + set (color := match _tag_colors c !! tag_id with
                    | Some col => col
                    | None => _
                    end).
      destruct (_character_name api_client tag_id
                  (emit (led_set_group_color group_index color) c))
        as [character c2] eqn:Hname.
      pose proof (_character_name_frame api_client tag_id
                    (emit (led_set_group_color group_index color) c)) as Hframe.
      rewrite Hname in Hframe. simpl in Hframe.
      destruct Hframe as (_ & _ & Hslots & Hiss).
      destruct (IH (active ++ [character]) c2) as (cmds & Hcmds & Hall).
      exists (led_set_group_color group_index color :: cmds).
      rewrite Hcmds, Hiss, <- app_assoc. split; [done|].
      constructor.
      * unfold is_feedback_for. simpl. rewrite Hslot. by eexists.
      * by rewrite Hslots in Hall.
    + destruct (IH active (emit (led_clear_group_color group_index) c))
        as (cmds & Hcmds & Hall).
      exists (led_clear_group_color group_index :: cmds).
      rewrite Hcmds. simpl. rewrite <- app_assoc. split; [done|].
      constructor; [|done].
      unfold is_feedback_for. simpl. by rewrite Hslot.
Qed.

Lemma _update_preparing_feedback_commands (c : Controller) :
  state c = PREPARING_STORY →
  ∃ cmds,
    issued (_update_preparing_feedback api_client c) = issued c ++ cmds
    ∧ Forall2 (is_feedback_for (_reader_active_tags c))
        (sorted_by_group _reader_to_group) cmds.
Proof.
  intros Hst. unfold _update_preparing_feedback.
  rewrite decide_False by (intros Hn; by apply Hn).
  destruct (feedback_loop_commands (sorted_by_group _reader_to_group) [] c)
    as (cmds & Hcmds & Hall).
  destruct (feedback_loop _ _ _ _) as [active c1]. simpl in *.
  by exists cmds.
Qed.

Lemma _play_system_prompt_played (category event_name : string) (c : Controller) :
  _play_system_prompt category event_name c
  = emit (prompt_played c category event_name) c.
Proof. unfold _play_system_prompt, prompt_played. by case_decide. Qed.

Lemma feedback_for_held (slots : gmap string (option Z)) (reader_id : string)
    (g tag_id : Z) (cmds : list Command) :
  Forall2 (is_feedback_for slots) (sorted_by_group _reader_to_group) cmds →
  group_index_of reader_id = Some g →
  slots !! reader_id = Some (Some tag_id) →
  ∃ color, led_set_group_color g color ∈ cmds.
Proof.
  intros Hall Hg Hslot.
  apply group_index_of_ordered in Hg.
  apply list_elem_of_lookup in Hg as [i Hi].
  destruct (Forall2_lookup_l _ _ _ _ _ Hall Hi) as (cmd & Hcmd & Hfor).
  unfold is_feedback_for in Hfor. simpl in Hfor. rewrite Hslot in Hfor.
  simpl in Hfor. destruct Hfor as [color ->].
  exists color. by eapply list_elem_of_lookup_2.
Qed.

(** X4 (main.py, [on_tag_detected], [_update_preparing_feedback]): a tag
    detected on a known reader while in PREPARING_STORY is announced by the
    prompt named after the character, in the category "characters", exactly
    when it differs from the tag the reader held before; in both cases the
    feedback is then sent again for every reader, one command per reader in
    ascending group order, a color for a held reader and a clearing for an
    empty one, and the session lists the characters held, the new one
    included. *)
Theorem on_tag_detected_while_preparing (reader_id : string) (tag_id : Z)
    (previous : option Z) (c : Controller) :
  state c = PREPARING_STORY →
  _reader_active_tags c !! reader_id = Some previous →
  let c' := on_tag_detected api_client reader_id tag_id c in
  let character := character_of api_client (_tag_names c) tag_id in
  ∃ cmds,
    issued c'
    = issued c
      ++ (if decide (previous = Some tag_id) then []
          else [system_audio_play_event "characters" character])
      ++ cmds
    ∧ Forall2 (is_feedback_for (_reader_active_tags c'))
        (sorted_by_group _reader_to_group) cmds
    ∧ state c' = PREPARING_STORY
    ∧ _reader_active_tags c' = <[reader_id := Some tag_id]> (_reader_active_tags c)
    ∧ characters (session c') = current_characters api_client c'
    ∧ (∀ g, group_index_of reader_id = Some g →
            character ∈ characters (session c')
            ∧ ∃ color, led_set_group_color g color ∈ cmds).
Proof.
  intros Hst Hslot c' character.
  set (c1 := set_reader_active_tags
               (<[reader_id:=Some tag_id]> (_reader_active_tags c)) c).
  pose proof (_character_name_frame api_client tag_id c1) as Hframe.
  pose proof (_character_name_fst api_client tag_id c1) as Hfst.
  pose proof (_character_name_stable api_client tag_id) as Hstable.
  destruct (_character_name api_client tag_id c1) as [character_name c2] eqn:Hname.
  simpl in Hframe, Hfst.
  destruct Hframe as (Hst2 & Hse2 & Hsl2 & Hiss2).
  set (c3 := if decide (previous ≠ Some tag_id)
             then _play_system_prompt "characters" character_name c2 else c2).
  assert (Hdef : c' = _update_preparing_feedback api_client c3).
  { subst c' c3. unfold on_tag_detected. rewrite Hslot. fold c1.
    rewrite decide_False by (intros Hn; by apply Hn).
    by rewrite Hname. }
  assert (Hst3 : state c3 = PREPARING_STORY).
  { subst c3. case_decide; rewrite ?_play_system_prompt_state; by rewrite Hst2. }
  assert (Hsl3 : _reader_active_tags c3
                 = <[reader_id:=Some tag_id]> (_reader_active_tags c)).
  { subst c3. case_decide; rewrite ?_play_system_prompt_slots; by rewrite Hsl2. }
  assert (Hnames3 : _tag_names c3 = _tag_names c2).
  { subst c3. case_decide; by rewrite ?_play_system_prompt_names. }
  assert (Hiss3 : issued c3
                  = issued c
                    ++ (if decide (previous = Some tag_id) then []
                        else [system_audio_play_event "characters" character])).
  { subst c3. case_decide as Hprev.
    - rewrite decide_False by done.
      rewrite _play_system_prompt_issued by (rewrite Hst2; simpl; congruence).
      rewrite Hiss2. simpl. by rewrite Hfst.
    - rewrite decide_True by (by destruct (decide (previous = Some tag_id))).
      by rewrite Hiss2, app_nil_r. }
  destruct (_update_preparing_feedback_commands c3 Hst3) as (cmds & Hcmds & Hall).
  destruct (_update_preparing_feedback_current api_client c3 Hst3)
    as (Hst' & Hchars & Hcur).
  exists cmds. rewrite Hdef.
  rewrite _update_preparing_feedback_slots, Hsl3.
  rewrite Hsl3 in Hall.
  split_and!; try done.
  - by rewrite Hcmds, Hiss3, <- app_assoc.
  - intros g Hg. split.
    + rewrite Hchars, Hcur. unfold current_characters.
      rewrite Hsl3, Hnames3.
      apply list_elem_of_fmap.
      exists (reader_id, g, tag_id). split.
      * unfold held_tag. simpl. subst character.
        change c2 with (character_name, c2).2. rewrite <- Hname.
        by rewrite Hstable.
      * apply (held_among_ordered
                 (<[reader_id:=Some tag_id]> (_reader_active_tags c))).
        split; [done|]. by rewrite lookup_insert_eq.
    + eapply feedback_for_held; [exact Hall|exact Hg|].
      by rewrite lookup_insert_eq.
Qed.

End Tags.

(** A figurine put on reader 1 of the box that waits for figurines. *)
Lemma on_tag_detected_while_preparing_witness :
  state sample_preparing = PREPARING_STORY
  ∧ _reader_active_tags sample_preparing !! "reader1" = Some None
  ∧ ∃ cmds,
      issued (on_tag_detected (Some sample_api) "reader1" 42 sample_preparing)
      = issued sample_preparing
        ++ [system_audio_play_event "characters" "char_42"] ++ cmds
      ∧ characters
          (session (on_tag_detected (Some sample_api) "reader1" 42
                      sample_preparing))
        = ["char_42"].
Proof.
  assert (Hst : state sample_preparing = PREPARING_STORY) by reflexivity.
  assert (Hslot : _reader_active_tags sample_preparing !! "reader1" = Some None)
    by reflexivity.
  destruct (on_tag_detected_while_preparing (Some sample_api) "reader1" 42 None
              sample_preparing Hst Hslot) as (cmds & Hiss & _).
  split; [exact Hst|]. split; [exact Hslot|].
  exists cmds. split; [exact Hiss|reflexivity].
Defined.

Section Stored.

Import Traces.

Variable api_client : option StoryApiClient.

Lemma start_preparing_commands (pins : Selector.Pins) (c : Controller) :
  ∃ before cmds,
    issued (start_preparing api_client pins c) = issued c ++ before ++ cmds
    ∧ Forall2 (is_feedback_for (_reader_active_tags c))
        (sorted_by_group _reader_to_group) cmds.
Proof.
  unfold start_preparing.
  set (c3 := _play_system_prompt "system" "preparing_story" _).
  assert (Hst3 : state c3 = PREPARING_STORY).
  { subst c3. rewrite _play_system_prompt_state. simpl. apply _set_state_state. }
  assert (Hsl3 : _reader_active_tags c3 = _reader_active_tags c).
  { subst c3. rewrite _play_system_prompt_slots. simpl. apply _set_state_slots. }
  destruct (_update_preparing_feedback_commands api_client c3 Hst3)
    as (cmds & Hcmds & Hall).
  assert (Hcont : continues c c3).
  { subst c3. eapply continues_trans; [|apply continues_play_system_prompt].
    eapply continues_trans; [apply (continues_set_state PREPARING_STORY)|].
    by apply continues_silent. }
  destruct Hcont as (before & Hbefore & _).
  exists before, cmds. rewrite Hcmds, Hbefore, <- app_assoc.
  by rewrite Hsl3 in Hall.
Qed.

(** X5 (main.py, [on_tag_detected], [start_preparing]): a tag detected on
    a known reader outside PREPARING_STORY is stored without a sound: the
    slot takes the tag, and neither the state, the session nor the commands
    issued change.  When the box next starts preparing, the stored tag
    counts: its character is in the session's list and its group gets a
    color. *)
Theorem tag_detected_outside_preparing (reader_id : string) (tag_id g : Z)
    (pins : Selector.Pins) (c : Controller) :
  state c ≠ PREPARING_STORY →
  is_Some (_reader_active_tags c !! reader_id) →
  group_index_of reader_id = Some g →
  let stored := on_tag_detected api_client reader_id tag_id c in
  let prepared := start_preparing api_client pins stored in
  stored
  = set_reader_active_tags
      (<[reader_id := Some tag_id]> (_reader_active_tags c)) c
  ∧ issued stored = issued c
  ∧ character_of api_client (_tag_names c) tag_id
    ∈ characters (session prepared)
  ∧ ∃ color, led_set_group_color g color ∈ issued_since stored prepared.
Proof.
  intros Hst [previous Hslot] Hg stored prepared.
  assert (Hdef : stored
                 = set_reader_active_tags
                     (<[reader_id := Some tag_id]> (_reader_active_tags c)) c).
  { subst stored. unfold on_tag_detected. rewrite Hslot.
    by rewrite decide_True by done. }
  split; [done|]. split; [by rewrite Hdef|].
  assert (Hheld : _reader_active_tags stored !! reader_id = Some (Some tag_id)).
  { rewrite Hdef. simpl. by rewrite lookup_insert_eq. }
  split.
  - subst prepared.
    destruct (start_preparing_spec api_client pins stored) as (_ & -> & _).
    simpl. unfold current_characters.
    apply list_elem_of_fmap. exists (reader_id, g, tag_id). split.
    + by rewrite Hdef.
    + by apply (held_among_ordered (_reader_active_tags stored)).
  - destruct (start_preparing_commands pins stored) as (before & cmds & Hiss & Hall).
    fold prepared in Hiss.
    rewrite (issued_since_app _ _ _ Hiss).
    destruct (feedback_for_held _ _ _ _ _ Hall Hg Hheld) as (color & Hin).
    exists color. apply elem_of_app. by right.
Qed.

Lemma _character_name_provider (tag_id : Z) (c : Controller) :
  names_from_provider api_client c →
  names_from_provider api_client (_character_name api_client tag_id c).2.
Proof.
  intros Hinv. unfold _character_name.
  destruct (_tag_names c !! tag_id) as [cached|] eqn:Hcached; [done|].
  destruct api_client as [api|] eqn:Hapi; [|done].
  destruct (get_character api tag_id) as [info|] eqn:Hinfo; [|done].
  assert (Hins : names_from_provider (Some api)
                   (set_tag_names (<[tag_id:=name info]> (_tag_names c)) c)).
  { intros t n. simpl. rewrite lookup_insert_Some.
    intros [[<- <-]|[_ Hold]]; [by eauto|by apply Hinv]. }
  simpl. by destruct (group_color info).
Qed.

Lemma feedback_loop_provider (ordered : list (string * Z)) :
  ∀ (active : list string) (c : Controller),
    names_from_provider api_client c →
    names_from_provider api_client (feedback_loop api_client ordered active c).2.
Proof.
  induction ordered as [|[reader_id group_index] rest IH]; intros active c Hinv;
    [done|].
  simpl. destruct (mjoin _) as [tag_id|]; [|by apply IH].
  match goal with
  | |- context [_character_name api_client tag_id ?c0] =>
      pose proof (_character_name_provider tag_id c0 Hinv) as Hnext;
      destruct (_character_name api_client tag_id c0) as [character c2]
  end.
  by apply IH.
Qed.

Lemma _update_preparing_feedback_provider (c : Controller) :
  names_from_provider api_client c →
  names_from_provider api_client (_update_preparing_feedback api_client c).
Proof.
  intros Hinv. unfold _update_preparing_feedback. case_decide; [done|].
  pose proof (feedback_loop_provider (sorted_by_group _reader_to_group) [] c Hinv)
    as Hloop.
  by destruct (feedback_loop _ _ _ _) as [active c1].
Qed.

Lemma names_from_provider_ext (c c' : Controller) :
  _tag_names c' = _tag_names c →
  names_from_provider api_client c → names_from_provider api_client c'.
Proof. unfold names_from_provider. by intros ->. Qed.

Lemma start_preparing_provider (pins : Selector.Pins) (c : Controller) :
  names_from_provider api_client c →
  names_from_provider api_client (start_preparing api_client pins c).
Proof.
  intros Hinv. unfold start_preparing.
  apply _update_preparing_feedback_provider.
  eapply names_from_provider_ext; [|exact Hinv].
  rewrite _play_system_prompt_names. simpl. apply _set_state_names.
Qed.

Lemma handle_provider (e : Event) (c : Controller) :
  names_from_provider api_client c →
  names_from_provider api_client (handle api_client e c).
Proof.
  intros Hinv. destruct e; simpl.
  - unfold on_network_ready.
    repeat case_decide; try done; try apply start_preparing_provider;
      (eapply names_from_provider_ext; [|exact Hinv]);
      rewrite ?_set_state_names; simpl; by rewrite ?_play_system_prompt_names.
  - unfold notify_no_internet.
    eapply names_from_provider_ext; [|exact Hinv].
    by rewrite _play_system_prompt_names, _set_state_names.
  - unfold on_tag_detected.
    destruct (_reader_active_tags c !! reader_id) as [previous|]; [|done].
    case_decide; [done|].
    match goal with
    | |- context [_character_name api_client tag_id ?c0] =>
        pose proof (_character_name_provider tag_id c0 Hinv) as Hnext;
        destruct (_character_name api_client tag_id c0) as [character c2]
    end.
    apply _update_preparing_feedback_provider.
    case_decide; [|done].
    eapply names_from_provider_ext; [|exact Hnext].
    by rewrite _play_system_prompt_names.
  - unfold on_tag_removed.
    destruct (_reader_active_tags c !! reader_id) as [[tag_id|]|]; try done.
    case_decide; [done|].
    apply _update_preparing_feedback_provider.
    eapply names_from_provider_ext; [|exact Hinv].
    by rewrite _play_system_prompt_names.
  - unfold on_duration_change.
    eapply names_from_provider_ext; [|exact Hinv].
    by rewrite _play_system_prompt_names.
  - done.
  - eapply names_from_provider_ext; [|exact Hinv].
    unfold on_rotary_click, request_story, pause_story, resume_story.
    repeat (case_decide || case_match); simpl;
      rewrite ?_play_system_prompt_names, ?_set_state_names; done.
  - unfold on_stop_button, stop_story_and_reset.
    repeat (case_decide || case_match); try apply start_preparing_provider;
      (eapply names_from_provider_ext; [|exact Hinv]);
      unfold stop_story_and_reset_head, pause_story;
      repeat case_decide; simpl;
      rewrite ?_play_system_prompt_names, ?_set_state_names; simpl;
      rewrite ?_set_state_names; done.
  - unfold on_story_finished. apply start_preparing_provider.
    eapply names_from_provider_ext; [|exact Hinv].
    unfold on_story_finished_head. by rewrite _set_state_names.
  - unfold request_story_run.
    destruct (match api_client with Some _ => story_path | None => None end)
      as [path|]; [|destruct (str_truthy _)];
      try apply _update_preparing_feedback_provider;
      (eapply names_from_provider_ext; [|exact Hinv]);
      unfold start_story, _configure_story_timeline;
      repeat case_match; simpl;
      rewrite ?_set_state_names; simpl;
      rewrite ?_play_system_prompt_names; done.
Qed.

(** X6 (main.py, [_character_name]): the name cache holds answers of the
    provider only; the fallback name [char_<id>] is never cached.  So, from
    construction on and after any events, the name the controller uses for
    a tag is the provider's whenever the provider knows the tag, and the
    fallback name otherwise, whatever was looked up before; without a
    client the cache stays empty. *)
Theorem name_cache_holds_provider_names (events : list Event)
    (story_file : string) (tag_id : Z) :
  let c := run api_client events (init story_file) in
  names_from_provider api_client c
  ∧ character_of api_client (_tag_names c) tag_id
    = match api_client ≫= (λ api, get_character api tag_id) with
      | Some info => name info
      | None => "char_" +:+ pretty tag_id
      end
  ∧ (api_client = None → _tag_names c = ∅).
Proof.
  intros c.
  assert (Hinv : names_from_provider api_client c).
  { subst c. induction events as [|e events IH] using rev_ind.
    - intros t n. simpl. by rewrite lookup_empty.
    - rewrite run_snoc. by apply handle_provider. }
  split; [done|]. split.
  - unfold character_of.
    destruct (_tag_names c !! tag_id) as [cached|] eqn:Hcached; [|done].
    destruct (Hinv _ _ Hcached) as (api & info & -> & Hinfo & <-).
    simpl. by rewrite Hinfo.
  - intros Hnone. apply map_empty. intros t.
    destruct (_tag_names c !! t) as [cached|] eqn:Hcached; [|done].
    destruct (Hinv _ _ Hcached) as (api & info & Hapi & _). congruence.
Qed.

End Stored.

(** Tag 42 put on reader 1 while the network is still awaited. *)
Lemma tag_detected_outside_preparing_witness :
  state (init "epic.mp3") ≠ PREPARING_STORY
  ∧ is_Some (_reader_active_tags (init "epic.mp3") !! "reader1")
  ∧ group_index_of "reader1" = Some 2
  ∧ "char_42"
    ∈ characters
        (session (start_preparing (Some sample_api) pins_medium
                    (on_tag_detected (Some sample_api) "reader1" 42
                       (init "epic.mp3")))).
Proof.
  assert (Hst : state (init "epic.mp3") ≠ PREPARING_STORY) by (simpl; discriminate).
  assert (Hslot : is_Some (_reader_active_tags (init "epic.mp3") !! "reader1"))
    by (exists None; reflexivity).
  assert (Hg : group_index_of "reader1" = Some 2) by reflexivity.
  destruct (tag_detected_outside_preparing (Some sample_api) "reader1" 42 2
              pins_medium (init "epic.mp3") Hst Hslot Hg) as (_ & _ & Hin & _).
  exact (conj Hst (conj Hslot (conj Hg Hin))).
Defined.

Section Request.

Import Traces.

Variable api_client : option StoryApiClient.




End Request.


(* ===================================================================== *)
(** * The input threads and the network monitor *)
(* ===================================================================== *)

Section InputThreads.

Import Traces Inputs.

Variable api_client : option StoryApiClient.

Lemma last_cons_cons_same {A} (x : A) (l : list A) :
  last (x :: x :: l) = last (x :: l).
Proof. done. Qed.




Lemma stop_button_run_edges (readings : list Selector.Level) :
  ∀ last_state,
    stop_button_run last_state readings
    = length (falling_edges last_state readings).
Proof.
  unfold falling_edges.
  induction readings as [|current rest IH]; intros last_state; [done|].
  cbn [stop_button_run with_previous]. rewrite filter_cons.
  unfold stop_button_poll. change (id current) with current.
  destruct last_state, current; simpl; by rewrite IH.
Qed.

Lemma rotary_run_spec (samples : list RotarySample) :
  ∀ last_clk_state last_sw_state,
    rotations (rotary_run last_clk_state last_sw_state samples)
    = clk_changes last_clk_state samples
    ∧ clicks (rotary_run last_clk_state last_sw_state samples)
      = length (falling_edges last_sw_state (map sw_state samples)).
Proof.
  unfold rotations, clicks, clk_changes, falling_edges.
  induction samples as [|s rest IH]; intros last_clk last_sw; [done|].
  cbn [rotary_run rotary_poll map with_previous omap].
  change (id (sw_state s)) with (sw_state s).
  destruct (IH (clk_state s) (sw_state s)) as (IHr & IHc).
  rewrite omap_app, filter_app, length_app, IHr, IHc.
  rewrite (filter_cons _ (last_sw, sw_state s)).
  cbn [fst snd].
  split.
  - simpl.
    destruct (decide (clk_state s ≠ last_clk));
      by destruct (decide (sw_state s ≠ last_sw ∧ sw_state s = Selector.LOW)).
  - destruct (decide (clk_state s ≠ last_clk));
      destruct last_sw, (sw_state s); simpl; done.
Qed.

(** X9 (hardware/buttons.py, the thread of [StopButton.start];
    hardware/rotary_encoder.py, the thread of [RotaryEncoder.start]): the
    input threads report edges, not levels.  Over any readings, the stop
    button calls [on_press] once per falling edge of its pin, so a button
    kept down is reported once; the encoder calls [on_click] once per
    falling edge of SW and [on_rotate] once per change of CLK, with +1
    when DT differs from CLK and -1 otherwise. *)
Theorem input_threads_report_edges (last_state last_clk_state last_sw_state
    : Selector.Level) (readings : list Selector.Level)
    (samples : list RotarySample) (n : nat) :
  stop_button_run last_state readings
  = length (falling_edges last_state readings)
  ∧ stop_button_run last_state (readings ++ replicate (S n) Selector.LOW)
    = stop_button_run last_state (readings ++ [Selector.LOW])
  ∧ rotations (rotary_run last_clk_state last_sw_state samples)
    = clk_changes last_clk_state samples
  ∧ clicks (rotary_run last_clk_state last_sw_state samples)
    = length (falling_edges last_sw_state (map sw_state samples)).
Proof.
  split; [apply stop_button_run_edges|].
  split; [|apply rotary_run_spec].
  assert (Hheld : ∀ m, stop_button_run Selector.LOW (replicate m Selector.LOW)
                       = 0%nat).
  { induction m as [|m IH]; [done|]. simpl. apply IH. }
  revert last_state. induction readings as [|current rest IH]; intros last_state.
  - cbn [app replicate stop_button_run].
    destruct (stop_button_poll last_state Selector.LOW) as [pressed last'] eqn:Hp.
    assert (last' = Selector.LOW) as ->.
    { unfold stop_button_poll in Hp. destruct last_state; simpl in Hp; congruence. }
    by rewrite Hheld.
  - simpl. destruct (stop_button_poll last_state current) as [pressed last'].
    by rewrite IH.
Qed.

End InputThreads.

Section NetworkMonitor.

Import Traces Monitor.

Variable api_client : option StoryApiClient.

Lemma handle_other_thread_waiting (e : Event) (c : Controller) :
  from_other_thread e →
  waiting (handle api_client e c) → waiting c.
Proof.
  intros Hother. unfold waiting.
  pose proof (handle_next api_client e c) as Hnext.
  apply (f_equal fst) in Hnext. cbn [fst] in Hnext. rewrite Hnext.
  unfold next. destruct e; simpl in *; try done;
    repeat (case_decide || case_match); simpl; intros [?|?]; try done;
    by auto.
Qed.

Lemma on_network_ready_not_waiting (pins : Selector.Pins) (c : Controller) :
  ¬ waiting (on_network_ready api_client pins c)
  ∧ (waiting c → state (on_network_ready api_client pins c) = PREPARING_STORY).
Proof.
  pose proof (handle_next api_client (NetworkReady pins) c) as Hnext.
  apply (f_equal fst) in Hnext. simpl in Hnext.
  unfold waiting. rewrite Hnext.
  case_decide as Hw; simpl; split; try done; by intros [?|?].
Qed.

Lemma system_step_invariant (st : Step) (s : System) :
  well_formed st →
  (waiting (controller s) → _last_status s ≠ Some true) →
  waiting (controller (system_step api_client st s)) →
  _last_status (system_step api_client st s) ≠ Some true.
Proof.
  intros Hwf Hinv. destruct st as [is_online pins|e]; simpl.
  - unfold monitor_poll. case_decide as Hskip; [done|].
    unfold _handle_status. destruct is_online; simpl; [|done].
    case_decide as Hlast.
    + intros Hw. by apply on_network_ready_not_waiting in Hw.
    + intros Hw. by apply Hinv in Hw.
  - intros Hw. apply Hinv. by eapply handle_other_thread_waiting.
Qed.

(** X10 (services/network_monitor.py, [_run] and [_handle_status], as
    wired in main.py's [main], with [on_network_ready] and
    [notify_no_internet]): the box cannot wait for a network which the
    monitor believes to be there.  From construction on, over any turns of
    the monitor and any callbacks of the other threads, taken one after
    the other, whenever the controller is in BOOTING or WAITING_NETWORK
    the monitor's last status is not "online"; so the next turn that finds
    the network brings the box to PREPARING_STORY, and a turn that does not
    find it leaves the box in WAITING_NETWORK.  While a story is on
    (PLAYING_STORY, PAUSED, CONFIRM_STOP) a turn of the monitor changes
    nothing. *)
Theorem network_recovery (steps : list Step) (story_file : string)
    (pins : Selector.Pins) (is_online : bool) :
  Forall well_formed steps →
  let s := system_run api_client steps (boot story_file) in
  (waiting (controller s) → _last_status s ≠ Some true)
  ∧ (waiting (controller s) →
     state (controller (monitor_poll api_client true pins s)) = PREPARING_STORY
     ∧ state (controller (monitor_poll api_client false pins s))
       = WAITING_NETWORK)
  ∧ (state (controller s) ∈ skip_states →
     monitor_poll api_client is_online pins s = s).
Proof.
  intros Hwf s.
  assert (Hinv : waiting (controller s) → _last_status s ≠ Some true).
  { subst s. induction steps as [|st steps IH] using rev_ind.
    - done.
    - apply Forall_app in Hwf as [Hsteps Hst].
      rewrite Forall_singleton in Hst.
      unfold system_run. rewrite fold_left_app. simpl.
      apply system_step_invariant; [done|]. by apply IH. }
  split; [done|]. split.
  - intros Hw. specialize (Hinv Hw).
    assert (Hskip : state (controller s) ∉ skip_states).
    { unfold skip_states. rewrite !elem_of_cons, elem_of_nil.
      destruct Hw as [Hw|Hw]; rewrite Hw; intros H; intuition discriminate. }
    unfold monitor_poll. rewrite !decide_False by done.
    unfold _handle_status. simpl. rewrite decide_True by done.
    split.
    + by apply on_network_ready_not_waiting.
    + unfold notify_no_internet.
      by rewrite _play_system_prompt_state, _set_state_state.
  - intros Hskip. unfold monitor_poll. by rewrite decide_True by done.
Qed.

End NetworkMonitor.

(** The network is not found at the first turn, and a figurine is put on
    reader 1 meanwhile. *)
Lemma network_recovery_witness :
  let steps := [Monitor.Poll false pins_medium;
                Monitor.Callback (TagDetected "reader1" 42)] in
  let s := Monitor.system_run (Some sample_api) steps (Monitor.boot "epic.mp3") in
  Forall Monitor.well_formed steps
  ∧ Monitor.waiting (Monitor.controller s)
  ∧ state (Monitor.controller
             (Monitor.monitor_poll (Some sample_api) true pins_medium s))
    = PREPARING_STORY.
Proof.
  assert (Hwf : Forall Monitor.well_formed
                  [Monitor.Poll false pins_medium;
                   Monitor.Callback (TagDetected "reader1" 42)])
    by (repeat constructor).
  assert (Hw : Monitor.waiting
                 (Monitor.controller
                    (Monitor.system_run (Some sample_api)
                       [Monitor.Poll false pins_medium;
                        Monitor.Callback (TagDetected "reader1" 42)]
                       (Monitor.boot "epic.mp3"))))
    by (right; reflexivity).
  destruct (network_recovery (Some sample_api) _ "epic.mp3" pins_medium true Hwf)
    as (_ & Hrec & _).
  destruct (Hrec Hw) as (Hprep & _).
  exact (conj Hwf (conj Hw Hprep)).
Defined.

(* ===================================================================== *)
(** * The story player *)
(* ===================================================================== *)

Section StoryPlayer.

Import Player.

Context {T : Type} `{TimeOps T}.

Variable ms_to_seconds : Z → T.

Lemma apply_op_consistent (op : Op) (p : AudioPlayer T) :
  consistent p → consistent (apply_op ms_to_seconds op p).
Proof.
  unfold consistent. intros (Hpaused & Hfile & Hpos & Htoken).
  assert (Hgoal : ∀ q : AudioPlayer T,
             (q = p
              ∨ (_paused q = false ∧ _is_playing q = false
                 ∧ _current_file q = None ∧ _last_position q = t_zero
                 ∧ _playback_token p ≤ _playback_token q)
              ∨ (_paused q = false ∧ _is_playing q = true
                 ∧ is_Some (_current_file q)
                 ∧ _playback_token p ≤ _playback_token q)
              ∨ (_is_playing p = true ∧ _is_playing q = true
                 ∧ _current_file q = _current_file p
                 ∧ _playback_token q = _playback_token p)) →
             (_paused q = true → _is_playing q = true)
             ∧ (_is_playing q = true ↔ is_Some (_current_file q))
             ∧ (_is_playing q = false → _last_position q = t_zero)
             ∧ 0 ≤ _playback_token q).
  { intros q [->|[(Hq1 & Hq2 & Hq3 & Hq4 & Hq5)|[(Hq1 & Hq2 & Hq3 & Hq4)
                                                |(Hq0 & Hq1 & Hq2 & Hq3)]]].
    - done.
    - rewrite Hq1, Hq2, Hq3, Hq4.
      split_and!; try done; try lia; try (split; [done|by intros [? ?]]).
    - rewrite Hq1, Hq2. split_and!; try done; lia.
    - rewrite Hq1, Hq2, Hq3.
      split_and!; try done; try lia;
        try (split; [intros _; by apply Hfile|done]). }
  apply Hgoal.
  destruct op; simpl.
  - unfold play_story.
    destruct is_file; simpl; [|by left].
    destruct load_ok; simpl; [destruct play_ok; simpl|].
    + right. right. left. split_and!; try done; lia.
    + right. left. split_and!; try done; lia.
    + right. left. split_and!; try done; lia.
  - unfold pause_story.
    destruct (_is_playing p) eqn:Hplaying; simpl; [|by left].
    destruct (_paused p) eqn:Hp; simpl; [by left|].
    right. right. right. done.
  - unfold resume_story.
    destruct (_is_playing p) eqn:Hplaying; simpl; [|by left].
    destruct (_paused p) eqn:Hp; simpl; [|by left].
    right. right. right. done.
  - right. left. simpl. split_and!; try done; lia.
  - unfold get_playback_position.
    destruct (_is_playing p) eqn:Hplaying; simpl.
    + case_decide; simpl; [|by left].
      right. right. right. done.
    + destruct (_paused p) eqn:Hp; simpl; [|by left].
      by specialize (Hpaused eq_refl).
  - unfold _wait_for_story_end.
    case_decide; simpl; [by left|].
    destruct (negb busy && negb (_paused p)); simpl; [|by left].
    right. left. simpl. split_and!; try done; lia.
Qed.

Lemma apply_op_token (op : Op) (p : AudioPlayer T) :
  _playback_token p ≤ _playback_token (apply_op ms_to_seconds op p)
  ∧ (ends_playback op = true →
     _playback_token p < _playback_token (apply_op ms_to_seconds op p))
  ∧ (ends_playback op = false →
     _playback_token (apply_op ms_to_seconds op p) = _playback_token p).
Proof.
  destruct op; simpl.
  - unfold play_story.
    destruct is_file, load_ok, play_ok; simpl; split_and!; intros; try done; lia.
  - unfold pause_story. destruct (_ && _); simpl; split_and!; intros; try done; lia.
  - unfold resume_story. destruct (_ && _); simpl; split_and!; intros; try done; lia.
  - split_and!; intros; try done; lia.
  - unfold get_playback_position.
    destruct (negb _); [|case_decide]; simpl; split_and!; intros; try done; lia.
  - unfold _wait_for_story_end.
    case_decide; [|destruct (_ && _)]; simpl; split_and!; intros; try done; lia.
Qed.

Lemma apply_ops_snoc (ops : list Op) (op : Op) (p : AudioPlayer T) :
  apply_ops ms_to_seconds (ops ++ [op]) p
  = apply_op ms_to_seconds op (apply_ops ms_to_seconds ops p).
Proof. unfold apply_ops. by rewrite fold_left_app. Qed.

Lemma apply_ops_token (ops : list Op) (p : AudioPlayer T) :
  _playback_token p ≤ _playback_token (apply_ops ms_to_seconds ops p)
  ∧ (existsb ends_playback ops = true →
     _playback_token p < _playback_token (apply_ops ms_to_seconds ops p))
  ∧ (existsb ends_playback ops = false →
     _playback_token (apply_ops ms_to_seconds ops p) = _playback_token p).
Proof.
  induction ops as [|op ops IH] using rev_ind; [by simpl|].
  rewrite apply_ops_snoc, existsb_app. simpl. rewrite orb_false_r.
  destruct IH as (IH1 & IH2 & IH3).
  destruct (apply_op_token op (apply_ops ms_to_seconds ops p)) as (H1 & H2 & H3).
  split_and!.
  - lia.
  - intros [Hops|Hop]%orb_true_iff.
    + specialize (IH2 Hops). lia.
    + specialize (H2 Hop). lia.
  - intros [Hops Hop]%orb_false_iff.
    rewrite H3 by done. by apply IH3.
Qed.

(** X11 (services/audio_player.py, [play_story], [pause_story],
    [resume_story], [stop_story], [_wait_for_story_end],
    [get_playback_position]): whatever calls are made on a new player, its
    attributes stay consistent: it is paused only while playing, it has a
    current file exactly while playing, and its token is never negative.
    When nothing plays, the position reported is zero, and asking for it,
    pausing or resuming changes nothing. *)
Theorem player_stays_consistent (ops : list Op) (pos_ms : Z) (ok : bool) :
  let p := apply_ops ms_to_seconds ops AudioPlayer_new in
  consistent p
  ∧ (_is_playing p = false →
     get_playback_position ms_to_seconds pos_ms p = (t_zero, p)
     ∧ pause_story ok p = p
     ∧ resume_story ok p = p).
Proof.
  intros p.
  assert (Hcons : consistent p).
  { subst p. induction ops as [|op ops IH] using rev_ind.
    - unfold consistent. simpl.
      split_and!; try done; try (split; [done|by intros [? ?]]).
    - rewrite apply_ops_snoc. by apply apply_op_consistent. }
  split; [done|].
  intros Hidle. destruct Hcons as (Hpaused & _).
  assert (Hp : _paused p = false).
  { destruct (_paused p); [|done]. by rewrite Hpaused in Hidle. }
  unfold get_playback_position, pause_story, resume_story.
  by rewrite Hidle, Hp.
Qed.

(** X12 (services/audio_player.py, [play_story], [_stop_story_locked],
    [_wait_for_story_end]): the end of a story is only announced for the
    playback that is current.  The watcher started by [play_story] holds
    the token of its playback; as long as no call stops the player or
    starts another file, the token stays the player's, and once such a
    call was made (a [play_story] whose file fails to load included) the
    watcher returns at its next turn without calling the callback and
    without changing the player, whatever the mixer answers. *)
Theorem stale_watcher_is_silent (p p1 : AudioPlayer T) (filepath : string)
    (is_file load_ok play_ok busy : bool) (token : Z) (ops : list Op) :
  play_story filepath is_file load_ok play_ok p = (Some token, p1) →
  let p2 := apply_ops ms_to_seconds ops p1 in
  _playback_token p1 = token
  ∧ _is_playing p1 = true
  ∧ (existsb ends_playback ops = false → _playback_token p2 = token)
  ∧ (existsb ends_playback ops = true →
     _wait_for_story_end token busy p2 = (WatchReturns, p2)).
Proof.
  intros Hplay p2.
  assert (Hstart : _playback_token p1 = token ∧ _is_playing p1 = true).
  { unfold play_story in Hplay.
    destruct is_file, load_ok, play_ok; simpl in Hplay; try done.
    by simplify_eq. }
  destruct Hstart as (Htok & Hplaying).
  destruct (apply_ops_token ops p1) as (_ & Hends & Hkeeps).
  fold p2 in Hends, Hkeeps.
  split_and!; try done.
  - intros Hno. by rewrite Hkeeps.
  - intros Hyes. specialize (Hends Hyes).
    unfold _wait_for_story_end. rewrite decide_True; [done|]. lia.
Qed.

End StoryPlayer.

(** A story plays on a new player, is paused, and another one is started:
    the watcher of the first returns. *)
Lemma stale_watcher_is_silent_witness :
  let ms := λ pos_ms : Z, (pos_ms # 1000)%Q in
  let p1 := (Player.play_story "a.mp3" true true true Player.AudioPlayer_new).2 in
  let ops := [Player.Pause true; Player.Play "b.mp3" true true true] in
  Player.play_story "a.mp3" true true true Player.AudioPlayer_new = (Some 2, p1)
  ∧ Player._wait_for_story_end 2 false (Player.apply_ops ms ops p1)
    = (Player.WatchReturns, Player.apply_ops ms ops p1).
Proof.
  intros ms p1 ops.
  assert (Hplay : Player.play_story "a.mp3" true true true
                    (Player.AudioPlayer_new (T := Q)) = (Some 2, p1))
    by reflexivity.
  destruct (stale_watcher_is_silent ms _ _ _ _ _ _ false _ ops Hplay)
    as (_ & _ & _ & Hsilent).
  exact (conj Hplay (Hsilent eq_refl)).
Defined.

(* ===================================================================== *)
(** * Colors and pattern names *)
(* ===================================================================== *)

Section PatternNames.

Import Patterns.

Lemma py_round_inject_Z (z : Z) : GroupCycle.py_round (inject_Z z) = z.
Proof.
  unfold GroupCycle.py_round. rewrite Qfloor_Z.
  assert (Hcmp : Qcompare (inject_Z z - inject_Z z) (1 # 2) = Lt).
  { rewrite <- Qlt_alt. unfold Qlt. simpl. lia. }
  by rewrite Hcmp.
Qed.

Lemma clamp_in_range (v : Z) : 0 ≤ Z.max 0 (Z.min 255 v) ≤ 255.
Proof. lia. Qed.

Lemma parse_component_in_range (c : Component) (v : Z) :
  parse_component c = Some v → 0 ≤ v ≤ 255.
Proof. destruct c; simpl; intros [= <-]; lia. Qed.

Lemma parse_components_spec (components : list Component) :
  match parse_components components with
  | Some values =>
(c_overflow ∉ components)
      ∧ length values = length components
      ∧ Forall (λ v, 0 ≤ v ≤ 255) values
  | None => c_overflow ∈ components
  end.
Proof.
  induction components as [|c rest IH]; simpl.
  - split_and!; [by apply not_elem_of_nil|done|done].
  - destruct (parse_component c) as [v|] eqn:Hc.
    + destruct (parse_components rest) as [vs|].
      * destruct IH as (Hno & Hlen & Hall).
        split_and!.
        -- rewrite not_elem_of_cons. split; [|done]. by intros <-.
        -- simpl. by rewrite Hlen.
        -- constructor; [by eapply parse_component_in_range|done].
      * by apply list_elem_of_further.
    + destruct c; try done. apply list_elem_of_here.
Qed.

Lemma nth_in_range (values : list Z) (i : nat) :
  Forall (λ v, 0 ≤ v ≤ 255) values → 0 ≤ nth i values 0 ≤ 255.
Proof.
  intros Hall. revert i. induction Hall as [|v vs Hv _ IH]; intros [|i]; simpl;
    try lia. apply IH.
Qed.

(** X13 (services/story_led_timeline.py, [_parse_color]): the color read
    from a timeline entry.  Data that is neither a dictionary nor a
    sequence gives no color.  Otherwise the first three components are
    read (the keys "r", "g", "b" of a dictionary); if one of them
    overflows on conversion, the exception is not caught and the call
    raises; if not, the result is a color whose three channels are within
    0..255, where a missing or non-numeric component counts as 0.  Whole
    numbers within 0..255 are returned as they are, a sequence shorter
    than three is completed with zeros, and what follows the third
    component is ignored. *)
Theorem parse_color_spec (data : ColorData) (r g b : Z) (q : Q)
    (a1 a2 a3 : Component) (more : list Component) :
  match components_read data with
  | None => _parse_color data = ParseNone
  | Some components =>
      (c_overflow ∈ components → _parse_color data = ParseRaises)
      ∧ (c_overflow ∉ components →
         ∃ color, _parse_color data = ParseColor color ∧ in_gamut color)
  end
  ∧ (0 ≤ r ≤ 255 → 0 ≤ g ≤ 255 → 0 ≤ b ≤ 255 →
     _parse_color (data_sequence [c_number (inject_Z r); c_number (inject_Z g);
                                  c_number (inject_Z b)])
     = ParseColor (r, g, b)
     ∧ _parse_color (data_dict (c_number (inject_Z r)) (c_number (inject_Z g))
                       (c_number (inject_Z b)))
       = ParseColor (r, g, b)
     ∧ _parse_color (data_dict (c_number (inject_Z r)) c_invalid c_invalid)
       = ParseColor (r, 0, 0)
     ∧ _parse_color (data_sequence [c_number (inject_Z r)])
       = ParseColor (r, 0, 0))
  ∧ _parse_color (data_sequence []) = ParseColor (0, 0, 0)
  ∧ _parse_color (data_sequence (a1 :: a2 :: a3 :: more))
    = _parse_color (data_sequence [a1; a2; a3])
  ∧ _parse_color (data_sequence [c_number q])
    = ParseColor (Z.max 0 (Z.min 255 (GroupCycle.py_round q)), 0, 0).
Proof.
  split_and!.
  - assert (Hgen : ∀ components,
               components_read data = Some components →
               (c_overflow ∈ components → _parse_color data = ParseRaises)
               ∧ (c_overflow ∉ components →
                  ∃ color, _parse_color data = ParseColor color
                           ∧ in_gamut color)).
    { intros components Hread.
      assert (Hdef : _parse_color data
                     = match parse_components components with
                       | None => ParseRaises
                       | Some normalized =>
                           let normalized :=
                             normalized ++ replicate (3 - length normalized) 0 in
                           ParseColor (nth 0 normalized 0, nth 1 normalized 0,
                                       nth 2 normalized 0)
                       end).
      { unfold _parse_color. destruct data; simpl in *; by simplify_eq. }
      rewrite Hdef.
      pose proof (parse_components_spec components) as Hspec.
      destruct (parse_components components) as [values|].
      - destruct Hspec as (Hno & _ & Hall).
        split; [done|]. intros _.
        eexists. split; [done|].
        assert (Hfull : Forall (λ v, 0 ≤ v ≤ 255)
                          (values ++ replicate (3 - length values) 0)).
        { apply Forall_app. split; [done|]. apply Forall_replicate. lia. }
        unfold in_gamut. simpl.
        split_and!; by apply nth_in_range.
      - split; [done|]. by intros Hno. }
    destruct (components_read data) as [components|] eqn:Hread.
    + by apply Hgen.
    + by destruct data.
  - intros Hr Hg Hb. unfold _parse_color. simpl.
    rewrite !py_round_inject_Z.
    rewrite !Z.min_r, !Z.max_r by lia. done.
  - done.
  - done.
  - done.
Qed.

Lemma lower_ascii_idemp (a : Ascii.ascii) :
  lower_ascii (lower_ascii a) = lower_ascii a.
Proof. destruct a as [[] [] [] [] [] [] [] []]; reflexivity. Qed.

Lemma lower_idemp (s : string) : lower (lower s) = lower s.
Proof.
  induction s as [|a s IH]; [done|].
  simpl. by rewrite lower_ascii_idemp, IH.
Qed.

Section Translation.

Context {T Params Extra LedPattern : Type}.

Variable translator_params :
  Translator → option Color → option T → Extra → option Params.

Variable build : string → Params → option LedPattern.

(** X14 (services/story_led_timeline.py, [_translate_pattern] and
    [_PATTERN_TRANSLATORS]; services/led_patterns.py, [create_pattern] and
    [_PATTERN_BUILDERS]): every pattern name of a timeline is translated
    to a pattern the table of builders knows.  The name is looked up
    without regard to ASCII case; a name of the table gives the pattern of
    its translator, and an unknown name, or a translator that raises,
    gives the default translation to "story_pulse"; the call itself
    raises only when the default translation does.  Whatever the name,
    the id returned is "loading_blue_cycle", "story_pulse" or "flash", so
    [create_pattern] never rejects it as unknown. *)
Theorem translated_patterns_are_known (pattern_name : string)
    (color : option Color) (duration : option T) (extra : Extra) :
  let translated :=
    _translate_pattern translator_params pattern_name color duration extra in
  let by_default :=
    apply_translator translator_params _default_translation color duration extra in
  (∀ pattern_id params,
      translated = Some (pattern_id, params) →
      pattern_id ∈ ["loading_blue_cycle"; "story_pulse"; "flash"]
      ∧ pattern_id ∈ _PATTERN_BUILDERS
      ∧ create_pattern build pattern_id params ≠ UnknownPattern)
  ∧ _translate_pattern translator_params (lower pattern_name) color duration extra
    = translated
  ∧ (∀ tr, (lower pattern_name, tr) ∈ _PATTERN_TRANSLATORS →
           translated
           = match apply_translator translator_params tr color duration extra with
             | Some result => Some result
             | None => by_default
             end)
  ∧ (lower pattern_name ∉ (_PATTERN_TRANSLATORS.*1) → translated = by_default)
  ∧ (translated = None → by_default = None).
Proof.
  intros translated by_default.
  assert (Htarget : ∀ tr pattern_id params,
             apply_translator translator_params tr color duration extra
             = Some (pattern_id, params) →
             pattern_id ∈ ["loading_blue_cycle"; "story_pulse"; "flash"]).
  { intros tr pattern_id params. unfold apply_translator.
    destruct (translator_params tr color duration extra); simpl; [|done].
    intros [= <- _]. destruct tr; simpl; rewrite !elem_of_cons; auto. }
  assert (Hnodup : NoDup (_PATTERN_TRANSLATORS.*1)).
  { apply (bool_decide_unpack _). by vm_compute. }
  assert (Hcases : (∃ tr, (lower pattern_name, tr) ∈ _PATTERN_TRANSLATORS
                          ∧ translated
                            = match apply_translator translator_params tr color
                                      duration extra with
                              | Some result => Some result
                              | None => by_default
                              end)
                   ∨ ((lower pattern_name ∉ (_PATTERN_TRANSLATORS.*1))
                      ∧ translated = by_default)).
  { subst translated. unfold _translate_pattern.
    destruct ((list_to_map _PATTERN_TRANSLATORS : gmap string Translator)
                !! lower pattern_name) as [tr|] eqn:Hlookup.
    - left. exists tr. split; [by apply elem_of_list_to_map|done].
    - right. split; [|done]. by apply not_elem_of_list_to_map. }
  split_and!.
  - intros pattern_id params Htr.
    assert (Hin : pattern_id ∈ ["loading_blue_cycle"; "story_pulse"; "flash"]).
    { destruct Hcases as [(tr & _ & Heq)|(_ & Heq)]; rewrite Heq in Htr.
      - destruct (apply_translator translator_params tr color duration extra)
          as [result|] eqn:Hres.
        + simplify_eq. by eapply Htarget.
        + by eapply Htarget.
      - by eapply Htarget. }
    assert (Hknown : pattern_id ∈ _PATTERN_BUILDERS).
    { unfold _PATTERN_BUILDERS.
      rewrite !elem_of_cons, elem_of_nil in Hin. rewrite !elem_of_cons. tauto. }
    split_and!; try done.
    unfold create_pattern. rewrite decide_True by done.
    by destruct (build pattern_id params).
  - subst translated. unfold _translate_pattern. by rewrite lower_idemp.
  - intros tr Hin.
    destruct Hcases as [(tr' & Hin' & Heq)|(Hnot & _)].
    + assert (tr' = tr) as ->; [|done].
      apply (elem_of_list_to_map_1 (M := gmap string)) in Hin, Hin'; try done.
      congruence.
    + exfalso. apply Hnot. apply list_elem_of_fmap. by exists (lower pattern_name, tr).
  - intros Hnot. destruct Hcases as [(tr & Hin & _)|(_ & Heq)]; [|done].
    exfalso. apply Hnot. apply list_elem_of_fmap. by exists (lower pattern_name, tr).
  - destruct Hcases as [(tr & _ & Heq)|(_ & Heq)]; rewrite Heq; [|done].
    by destruct (apply_translator translator_params tr color duration extra).
Qed.

End Translation.

End PatternNames.

(* ===================================================================== *)
(** * The group colors of the preparing pattern *)
(* ===================================================================== *)

Section GroupColorsProofs.

Import Patterns GroupColors.

Lemma fill_indices_lookup (gi : Z) (idxs : list Z) :
  ∀ l l' : list Z,
    Forall (λ idx, 0 ≤ idx < Z.of_nat (length l)) idxs →
    foldl (λ acc idx, acc ≫= λ cur, py_setitem cur idx gi) (Some l) idxs
    = Some l' →
    ∀ i : nat,
      (Z.of_nat i ∈ idxs → l' !! i = Some gi)
      ∧ (Z.of_nat i ∉ idxs → l' !! i = l !! i).
Proof.
  induction idxs as [|idx idxs IH]; intros l l' Hall Hfold i.
  - simpl in Hfold. simplify_eq. split; [by intros ?%elem_of_nil|done].
  - apply Forall_cons in Hall as [Hidx Hall].
    simpl in Hfold. unfold py_setitem at 2 in Hfold.
    rewrite decide_True in Hfold by done.
    assert (Hall' : Forall (λ idx0, 0 ≤ idx0 < Z.of_nat (length (<[Z.to_nat idx:=gi]> l)))
                      idxs) by (by rewrite length_insert).
    destruct (IH _ _ Hall' Hfold i) as (Hin & Hout).
    destruct (decide (Z.of_nat i ∈ idxs)) as [Hi|Hi].
    + split; [by auto|]. rewrite not_elem_of_cons. by intros [_ ?].
    + rewrite (Hout Hi). split.
      * intros [Heq|?]%elem_of_cons; [|done]. subst idx.
        rewrite Nat2Z.id. apply list_lookup_insert_eq. lia.
      * intros [Hne _]%not_elem_of_cons.
        apply list_lookup_insert_ne. lia.
Qed.

Lemma fill_range_lookup (gi start stop : Z) (l l' : list Z) :
  0 ≤ start → stop ≤ Z.of_nat (length l) →
  fill_range gi start stop l = Some l' →
  ∀ i : nat,
    (start ≤ Z.of_nat i < stop → l' !! i = Some gi)
    ∧ (¬ (start ≤ Z.of_nat i < stop) → l' !! i = l !! i).
Proof.
  intros Hstart Hstop Hfill i.
  assert (Hall : Forall (λ idx, 0 ≤ idx < Z.of_nat (length l))
                   (seqZ start (stop - start))).
  { apply Forall_forall. intros idx Hidx. apply elem_of_seqZ in Hidx. lia. }
  destruct (fill_indices_lookup gi _ l l' Hall Hfill i) as (Hin & Hout).
  split.
  - intros Hi. apply Hin. apply elem_of_seqZ. lia.
  - intros Hi. apply Hout. rewrite elem_of_seqZ. lia.
Qed.

Lemma fill_groups_lookup (ranges : list (Z * Z)) :
  ∀ (gi from to : Z) (l l' : list Z),
    tiles from ranges to → 0 ≤ from → to ≤ Z.of_nat (length l) →
    fill_groups gi ranges l = Some l' →
    (∀ (j : nat) r (i : nat),
        ranges !! j = Some r → in_range (Z.of_nat i) r →
        l' !! i = Some (gi + Z.of_nat j))
    ∧ (∀ i : nat, ¬ (from ≤ Z.of_nat i < to) → l' !! i = l !! i).
Proof.
  induction ranges as [|[s e] ranges IH]; intros gi from to l l'; simpl.
  - intros _ _ _ [= <-]. split; [by intros j r i ?|done].
  - intros (Hs & Hlen & Hrest) Hfrom Hto Hfill. subst s.
    destruct (tiles_bounds _ _ _ Hrest) as [Hle _].
    destruct (fill_range_ok gi from e l) as (l1 & Hl1 & Hlen1); [lia|lia|].
    rewrite Hl1 in Hfill.
    destruct (IH (gi + 1) e to l1 l' Hrest) as (Hin & Hout); [lia|lia|done|].
    pose proof (fill_range_lookup gi from e l l1 Hfrom ltac:(lia) Hl1) as Hhead.
    split.
    + intros [|j] r i Hr Hi.
      * simpl in Hr. simplify_eq. unfold in_range in Hi. simpl in Hi.
        rewrite Hout by lia. rewrite Z.add_0_r. by apply Hhead.
      * simpl in Hr. rewrite (Hin j r i Hr Hi). f_equal. lia.
    + intros i Hi. rewrite Hout by lia. apply Hhead. lia.
Qed.

(** The pattern after [reset]: the groups, no color set, and the group of
    each pixel. *)
Lemma reset_groups_index (lengths : list Z) (pixel_count : Z) :
  lengths ≠ [] →
  0 < foldr Z.add 0 lengths →
  Z.of_nat (length lengths) ≤ pixel_count →
  ∃ p, GroupCycle.reset pixel_count (GroupCyclePattern_new (Some lengths))
       = Some p
       ∧ tiles 0 (_groups p) pixel_count
       ∧ length (_groups p) = length lengths
       ∧ _group_overrides p = replicate (length lengths) None
       ∧ length (GroupCycle._pixel_group_index p) = Z.to_nat pixel_count
       ∧ ∀ (j : nat) r (i : nat),
           _groups p !! j = Some r → in_range (Z.of_nat i) r →
           GroupCycle._pixel_group_index p !! i = Some (Z.of_nat j).
Proof.
  intros Hne Htotal Hroom.
  assert (0 < pixel_count) as Hpix by (destruct lengths; [done | simpl in *; lia]).
  unfold GroupCycle.reset, on_reset, GroupCyclePattern_new.
  destruct lengths as [| len lengths]; [done |].
  cbn [GroupCycle._base_lengths GroupCycle._pixel_count].
  rewrite Z.max_r by lia.
  rewrite decide_False by lia.
  set (scale := (inject_Z pixel_count / inject_Z _)%Q).
  set (st0 := {| indices := []; cursor := 0; remaining_pixels := pixel_count;
                 remaining_groups := Z.of_nat (length (len :: lengths)) |}).
  destruct (on_reset_loop_tiles pixel_count scale (len :: lengths) st0)
    as (Htiles & Hcursor & Hlen); try done; [simpl; lia |].
  rewrite Hcursor in Htiles by done.
  set (final := fold_left _ _ st0) in *.
  rewrite (tiles_filter _ _ _ Htiles).
  destruct (fill_groups_ok (indices final) 0 0 pixel_count
              (replicate (Z.to_nat pixel_count) (-1)) Htiles)
    as (l' & Hl' & Hlen'); [lia | rewrite length_replicate; lia |].
  rewrite Hl'. eexists. split; [reflexivity |]. simpl.
  destruct (fill_groups_lookup (indices final) 0 0 pixel_count
              (replicate (Z.to_nat pixel_count) (-1)) l' Htiles)
    as (Hin & _); [lia | rewrite length_replicate; lia | done |].
  split_and!; [done | by rewrite Hlen | by rewrite Hlen
              | by rewrite Hlen', length_replicate |].
  intros j r i Hr Hi. by rewrite (Hin j r i Hr Hi).
Qed.


Lemma _normalize_color_tuple (color : Color) :
  in_gamut color → _normalize_color (color_tuple color) = color.
Proof.
  destruct color as [[r g] b]. unfold in_gamut, _normalize_color, color_tuple,
    _clamp. simpl. intros (Hr & Hg & Hb).
  by rewrite !Z.min_r, !Z.max_r by lia.
Qed.

Lemma _render_frame_lookup (dim : Color → Color) (background : list Color)
    (pixel_count : Z) (p : GroupCyclePattern) (i : nat) :
  (Z.of_nat i < pixel_count) →
  _render_frame dim background pixel_count p !! i
  = Some (pixel_color p (base_colors dim background pixel_count) i).
Proof.
  intros Hi. unfold _render_frame.
  rewrite list_lookup_fmap, lookup_seq_lt by lia. done.
Qed.

Lemma pixel_color_in_group (p : GroupCyclePattern) (base : list Color)
    (i j : nat) :
  GroupCycle._pixel_group_index p !! i = Some (Z.of_nat j) →
  (j < length (_group_overrides p))%nat →
  pixel_color p base i
  = match mjoin (_group_overrides p !! j) with
    | Some color => color
    | None => nth i base (0, 0, 0)
    end.
Proof.
  intros Hidx Hj. unfold pixel_color.
  rewrite (decide_True (P := (i < length (_pixel_group_index p))%nat))
    by (by eapply lookup_lt_Some).
  rewrite (nth_lookup_Some _ _ _ _ Hidx).
  rewrite decide_True by lia. by rewrite Nat2Z.id.
Qed.

(** The frame after a reset, and with the color of one group set. *)
Lemma lit_frame_lookup (lengths : list Z) (pixel_count : Z)
    (p : GroupCyclePattern) (g : nat) (r : Z * Z) (color : list Z)
    (dim : Color → Color) (background : list Color) (i : nat) :
  lengths ≠ [] →
  0 < foldr Z.add 0 lengths →
  Z.of_nat (length lengths) ≤ pixel_count →
  GroupCycle.reset pixel_count (GroupCyclePattern_new (Some lengths)) = Some p →
  _groups p !! g = Some r →
  Z.of_nat i < pixel_count →
  let lit := set_group_color (Z.of_nat g) color p in
  let base := base_colors dim background pixel_count in
  _group_overrides p = replicate (length lengths) None
  ∧ (g < length lengths)%nat
  ∧ lit = with_overrides
            (<[g := Some (_normalize_color color)]> (_group_overrides p)) p
  ∧ _render_frame dim background pixel_count p !! i = Some (nth i base (0, 0, 0))
  ∧ _render_frame dim background pixel_count lit !! i
    = Some (if decide (in_range (Z.of_nat i) r) then _normalize_color color
            else nth i base (0, 0, 0)).
Proof.
  intros Hne Htotal Hroom Hreset Hr Hi lit base.
  destruct (reset_groups_index lengths pixel_count Hne Htotal Hroom)
    as (p' & Hreset' & Htiles & Hlen & Hover & Hlenidx & Hidx).
  rewrite Hreset in Hreset'. injection Hreset' as <-.
  assert (Hg : (g < length lengths)%nat).
  { rewrite <- Hlen. by eapply lookup_lt_Some. }
  destruct (tiles_cover _ _ _ (Z.of_nat i) Htiles ltac:(lia))
    as (j & rj & Hrj & Hinj & Huniq).
  assert (Hj : (j < length lengths)%nat).
  { rewrite <- Hlen. by eapply lookup_lt_Some. }
  assert (Hlit : lit = with_overrides
                         (<[g := Some (_normalize_color color)]>
                            (_group_overrides p)) p).
  { subst lit. unfold set_group_color.
    rewrite decide_False by (rewrite Hover, length_replicate; lia).
    by rewrite Nat2Z.id. }
  split_and!; try done.
  - rewrite _render_frame_lookup by done. fold base. f_equal.
    rewrite (pixel_color_in_group p base i j (Hidx _ _ _ Hrj Hinj))
      by (by rewrite Hover, length_replicate).
    rewrite Hover, lookup_replicate_2 by done. done.
  - rewrite _render_frame_lookup by done. fold base. f_equal.
    rewrite (pixel_color_in_group lit base i j).
    + rewrite Hlit. simpl.
      destruct (decide (in_range (Z.of_nat i) r)) as [Hin|Hout].
      * rewrite (Huniq g r Hr Hin).
        rewrite list_lookup_insert_eq
          by (rewrite Hover, length_replicate; lia). done.
      * assert (j ≠ g) by (intros ->; by simplify_eq).
        rewrite list_lookup_insert_ne by done.
        rewrite Hover, lookup_replicate_2 by done. done.
    + rewrite Hlit. simpl. by apply (Hidx j rj i).
    + rewrite Hlit. simpl. by rewrite length_insert, Hover, length_replicate.
Qed.


(** X16 (main.py, [_reader_to_group], [_group_highlight_colors] and
    [_update_preparing_feedback]; services/led_patterns.py,
    [_build_group_cycle], [GroupCyclePattern.on_reset], [set_group_color],
    [_render_frame]): each reader of the controller has its group on the
    preparing pattern.  On a strip of at least four pixels, the default
    preparing pattern has a range for the group index of every reader,
    and the color which the controller sends for a held reader when the
    provider gave none, the highlight color of the group, is shown as it
    is on exactly the pixels of that range. *)
Theorem held_reader_lights_its_group (reader_id : string) (group_index : Z)
    (pixel_count : Z) (dim : Color → Color) (background : list Color) :
  group_index_of reader_id = Some group_index →
  4 ≤ pixel_count →
  let highlight :=
    nth (Z.to_nat (group_index `mod` Z.of_nat (length _group_highlight_colors)))
        _group_highlight_colors (0, 0, 0) in
  ∃ p r,
    GroupCycle.reset pixel_count (_build_group_cycle None) = Some p
    ∧ _groups p !! Z.to_nat group_index = Some r
    ∧ 0 ≤ group_index < 4
    ∧ r.1 < r.2
    ∧ ∀ i : nat,
        Z.of_nat i < pixel_count →
        _render_frame dim background pixel_count
          (set_group_color group_index (color_tuple highlight) p) !! i
        = Some (if decide (in_range (Z.of_nat i) r) then highlight
                else nth i (base_colors dim background pixel_count) (0, 0, 0)).
Proof.
  intros Hg Hpix highlight.
  assert (Hrange : 0 ≤ group_index < 4 ∧ in_gamut highlight).
  { apply group_index_of_ordered in Hg. rewrite ordered_groups_eq in Hg.
    rewrite !elem_of_cons, elem_of_nil in Hg.
    subst highlight. unfold in_gamut.
    destruct Hg as [Hg|[Hg|[Hg|[Hg|[]]]]]; simplify_eq; simpl; lia. }
  destruct Hrange as (Hgi & Hgamut).
  destruct (reset_groups_index [6; 8; 8; 8] pixel_count)
    as (p & Hreset & Htiles & Hlen & _); [done|simpl; lia|simpl; lia|].
  destruct (lookup_lt_is_Some_2 (_groups p) (Z.to_nat group_index))
    as [r Hr]; [rewrite Hlen; simpl; lia|].
  exists p, r. split; [done|]. split; [done|]. split; [done|].
  split.
  { by destruct (tiles_bounds _ _ _ Htiles) as (_ & Hb);
      destruct (Hb _ _ Hr) as (_ & ? & _). }
  intros i Hi.
  destruct (lit_frame_lookup [6; 8; 8; 8] pixel_count p (Z.to_nat group_index)
              r (color_tuple highlight) dim background i
              ltac:(done) ltac:(simpl; lia) ltac:(simpl; lia) Hreset Hr Hi)
    as (_ & _ & _ & _ & Hframe).
  rewrite Z2Nat.id in Hframe by lia.
  by rewrite _normalize_color_tuple in Hframe.
Qed.

End GroupColorsProofs.


(** Reader 1 on a strip of 30 pixels. *)
Lemma held_reader_lights_its_group_witness :
  group_index_of "reader1" = Some 2
  ∧ ∃ p r,
      GroupCycle.reset 30 (_build_group_cycle None) = Some p
      ∧ _groups p !! Z.to_nat 2 = Some r
      ∧ 0 ≤ 2 < 4.
Proof.
  assert (Hg : group_index_of "reader1" = Some 2) by reflexivity.
  destruct (held_reader_lights_its_group "reader1" 2 30 id [] Hg ltac:(lia))
    as (p & r & Hreset & Hr & Hgi & _).
  split; [exact Hg|]. exists p, r. exact (conj Hreset (conj Hr Hgi)).
Defined.

(* ===================================================================== *)
(** * The LED controller *)
(* ===================================================================== *)

Lemma sends_refl (c : Controller) : Traces.sends c c.
Proof. exists []. by rewrite app_nil_r. Qed.

Lemma sends_trans (c1 c2 c3 : Controller) :
  Traces.sends c1 c2 → Traces.sends c2 c3 → Traces.sends c1 c3.
Proof.
  intros (m1 & Hi1 & Hp1) (m2 & Hi2 & Hp2).
  exists (m1 ++ m2). split.
  - by rewrite Hi2, Hi1, app_assoc.
  - by apply Forall_app.
Qed.

Lemma sends_silent (c c' : Controller) :
  issued c' = issued c → Traces.sends c c'.
Proof. intros Hi. exists []. by rewrite app_nil_r. Qed.

Lemma sends_emit (cmd : Command) (c : Controller) :
  Leds.well_addressed cmd = true → Traces.sends c (emit cmd c).
Proof. intros Hq. exists [cmd]. split; [done|by constructor]. Qed.

Lemma sends_set_state (s : StoryBoxState) (c : Controller) :
  Traces.sends c (_set_state s c).
Proof.
  unfold _set_state. case_decide; [apply sends_refl |].
  eapply sends_trans; [by apply (sends_silent c (set_state_attr s c))|].
  apply sends_emit. by destruct s.
Qed.

Lemma sends_play_system_prompt (category event_name : string) (c : Controller) :
  Traces.sends c (_play_system_prompt category event_name c).
Proof. unfold _play_system_prompt. case_decide; by apply sends_emit. Qed.

Section Sends.

Import Traces.

Variable api_client : option StoryApiClient.

Lemma sends_character_name (tag_id : Z) (c : Controller) :
  sends c (_character_name api_client tag_id c).2.
Proof.
  destruct (_character_name_frame api_client tag_id c) as (Hs & _ & _ & Hi).
  by apply sends_silent.
Qed.

Lemma sends_feedback_loop (ordered : list (string * Z)) :
  Forall (λ item : string * Z, 0 ≤ item.2 < 4) ordered →
  ∀ (active : list string) (c : Controller),
    sends c (feedback_loop api_client ordered active c).2.
Proof.
  induction ordered as [| [reader_id group_index] rest IH];
    intros Hall active c.
  { apply sends_refl. }
  apply Forall_cons in Hall as [Hg Hall]. simpl in Hg.
  assert (Hok : bool_decide (0 ≤ group_index < 4) = true)
    by (by apply bool_decide_eq_true).
  simpl. destruct (mjoin (_reader_active_tags c !! reader_id)) as [tag_id |].
  - set (c1 := emit _ c).
    assert (sends c c1) as H1 by by apply sends_emit.
    pose proof (sends_character_name tag_id c1) as H2.
    destruct (_character_name api_client tag_id c1) as [character c2].
    eapply sends_trans; [exact H1 |].
    eapply sends_trans; [exact H2 | by apply IH].
  - eapply sends_trans; [| by apply IH]. by apply sends_emit.
Qed.

Lemma sends_update_preparing_feedback (c : Controller) :
  sends c (_update_preparing_feedback api_client c).
Proof.
  unfold _update_preparing_feedback. case_decide; [apply sends_refl |].
  assert (Hgroups : Forall (λ item : string * Z, 0 ≤ item.2 < 4)
                      (sorted_by_group _reader_to_group)).
  { rewrite ordered_groups_eq. repeat constructor; simpl; lia. }
  pose proof (sends_feedback_loop (sorted_by_group _reader_to_group) Hgroups [] c)
    as Hloop.
  destruct (feedback_loop _ _ _ c) as [l c1].
  eapply sends_trans; [exact Hloop |]. by apply sends_silent.
Qed.

Lemma sends_start_preparing (pins : Selector.Pins) (c : Controller) :
  sends c (start_preparing api_client pins c).
Proof.
  unfold start_preparing.
  eapply sends_trans; [apply sends_set_state |].
  eapply sends_trans; [| apply sends_update_preparing_feedback].
  eapply sends_trans; [| apply sends_play_system_prompt].
  by apply sends_silent.
Qed.

Lemma sends_request_story (c : Controller) : sends c (request_story c).
Proof.
  unfold request_story. case_decide; [apply sends_refl |].
  destruct (characters (session c)).
  - apply sends_play_system_prompt.
  - eapply sends_trans; [apply sends_set_state |]. by apply sends_emit.
Qed.

Lemma sends_pause_story (c : Controller) : sends c (pause_story c).
Proof.
  unfold pause_story. case_decide; [apply sends_refl |].
  eapply sends_trans; [apply sends_set_state |]. by apply sends_emit.
Qed.

Lemma sends_resume_story (c : Controller) : sends c (resume_story c).
Proof.
  unfold resume_story. case_decide; [apply sends_refl |].
  eapply sends_trans; [| by apply sends_emit].
  eapply sends_trans; [| apply sends_set_state].
  by apply sends_silent.
Qed.

Lemma sends_start_story (timeline_loaded : bool) (c : Controller) :
  sends c (start_story timeline_loaded c).
Proof.
  unfold start_story.
  destruct (story_audio_path (session c)) as [path |]; [| apply sends_refl].
  destruct (str_truthy path); [| apply sends_refl].
  eapply sends_trans; [| by apply sends_emit].
  eapply sends_trans; [| by apply sends_silent].
  eapply sends_trans; [| apply sends_set_state].
  unfold _configure_story_timeline.
  destruct timeline_loaded; by apply sends_emit.
Qed.

Lemma sends_stop_story_and_reset (pins1 pins2 : Selector.Pins) (c : Controller) :
  sends c (stop_story_and_reset api_client pins1 pins2 c).
Proof.
  unfold stop_story_and_reset, stop_story_and_reset_head.
  eapply sends_trans; [| apply sends_start_preparing].
  eapply sends_trans; [| apply sends_set_state].
  eapply sends_trans; [by apply (sends_emit audio_stop_story) |].
  eapply sends_trans; [by apply (sends_emit led_clear_story_timeline) |].
  by apply sends_silent.
Qed.

Lemma sends_on_story_finished (pins1 pins2 : Selector.Pins) (c : Controller) :
  sends c (on_story_finished api_client pins1 pins2 c).
Proof.
  unfold on_story_finished, on_story_finished_head.
  eapply sends_trans; [| apply sends_start_preparing].
  eapply sends_trans; [| apply sends_set_state].
  eapply sends_trans; [by apply (sends_emit led_clear_story_timeline) |].
  by apply sends_silent.
Qed.

Lemma sends_request_story_run (story_path : option string)
    (timeline_loaded : bool) (c : Controller) :
  sends c (request_story_run api_client story_path timeline_loaded c).
Proof.
  unfold request_story_run.
  eapply sends_trans; [apply sends_play_system_prompt |].
  set (c1 := _play_system_prompt "system" "story_waiting" c).
  destruct (match api_client with Some _ => story_path | None => None end).
  - eapply sends_trans; [| apply sends_start_story].
    eapply sends_trans; [apply sends_play_system_prompt |].
    by apply sends_silent.
  - destruct (str_truthy (story_file c1)).
    + eapply sends_trans; [| apply sends_start_story].
      eapply sends_trans; [apply sends_play_system_prompt |].
      by apply sends_silent.
    + eapply sends_trans; [| apply sends_update_preparing_feedback].
      eapply sends_trans; [| apply sends_set_state].
      apply sends_play_system_prompt.
Qed.

Lemma sends_handle (e : Event) (c : Controller) :
  sends c (handle api_client e c).
Proof.
  destruct e; simpl.
  - (* on_network_ready *)
    unfold on_network_ready.
    set (c1 := if decide (state c = WAITING_NETWORK) then _ else c).
    assert (sends c c1) as H1.
    { subst c1. case_decide; [| apply sends_refl].
      eapply sends_trans; [apply sends_play_system_prompt |].
      by apply sends_emit. }
    case_decide; [| exact H1].
    eapply sends_trans; [exact H1 |].
    eapply sends_trans; [apply sends_set_state |].
    apply sends_start_preparing.
  - (* notify_no_internet *)
    unfold notify_no_internet.
    eapply sends_trans; [apply sends_set_state |].
    apply sends_play_system_prompt.
  - (* on_tag_detected *)
    unfold on_tag_detected.
    destruct (_reader_active_tags c !! reader_id) as [previous |];
      [| apply sends_refl].
    set (c1 := set_reader_active_tags _ c).
    assert (sends c c1) as H1 by by apply sends_silent.
    case_decide; [exact H1 |].
    pose proof (sends_character_name tag_id c1) as H2.
    destruct (_character_name api_client tag_id c1) as [character_name c2].
    eapply sends_trans; [exact H1 |].
    eapply sends_trans; [exact H2 |].
    eapply sends_trans; [| apply sends_update_preparing_feedback].
    case_decide; [apply sends_play_system_prompt | apply sends_refl].
  - (* on_tag_removed *)
    unfold on_tag_removed.
    destruct (_reader_active_tags c !! reader_id) as [[tag_id |] |];
      try apply sends_refl.
    set (c1 := set_reader_active_tags _ c).
    assert (sends c c1) as H1 by by apply sends_silent.
    case_decide; [exact H1 |].
    eapply sends_trans; [exact H1 |].
    eapply sends_trans; [apply sends_play_system_prompt |].
    apply sends_update_preparing_feedback.
  - (* on_duration_change *)
    unfold on_duration_change.
    eapply sends_trans; [| apply sends_play_system_prompt].
    by apply sends_silent.
  - (* on_rotary_rotate *)
    by apply sends_emit.
  - (* on_rotary_click *)
    unfold on_rotary_click.
    set (c1 := emit _ c).
    assert (sends c c1) as H1 by by apply sends_emit.
    eapply sends_trans; [exact H1 |].
    repeat case_decide; auto using sends_request_story,
      sends_pause_story, sends_resume_story, sends_refl.
  - (* on_stop_button *)
    unfold on_stop_button.
    set (c1 := emit _ c).
    assert (sends c c1) as H1 by by apply sends_emit.
    eapply sends_trans; [exact H1 |].
    repeat case_decide; auto using sends_stop_story_and_reset,
      sends_play_system_prompt.
    destruct (negb (_pending_stop_confirm c1));
      [| apply sends_stop_story_and_reset].
    eapply sends_trans; [| apply sends_play_system_prompt].
    eapply sends_trans; [| apply sends_set_state].
    eapply sends_trans; [| apply sends_pause_story].
    by apply sends_silent.
  - apply sends_on_story_finished.
  - apply sends_request_story_run.
Qed.

Lemma sends_run (events : list Event) :
  ∀ c : Controller, sends c (run api_client events c).
Proof.
  induction events as [| e events IH]; intros c; [apply sends_refl |].
  simpl. eapply sends_trans; [apply sends_handle | apply IH].
Qed.

End Sends.

(** X17 (main.py, every callback; services/led_controller.py,
    [STATE_PATTERN_MAP] and [EVENT_PATTERN_MAP]; services/led_patterns.py,
    [PATTERN_FACTORIES]): the controller only sends the LED controller
    what it can serve.  From construction on and after any events, every
    LED event triggered is one of [EVENT_PATTERN_MAP] whose pattern has a
    factory, every state applied either has no pattern or one that has a
    factory, and every group index sent is one of 0..3. *)
Theorem led_commands_well_addressed (api_client : option StoryApiClient)
    (events : list Event) (story_file : string) (cmd : Command) :
  cmd ∈ issued (run api_client events (init story_file)) →
  Leds.well_addressed cmd = true
  ∧ match cmd with
    | led_trigger_event event_name =>
        ∃ pattern_id, Leds.event_pattern_id event_name = Some pattern_id
                      ∧ pattern_id ∈ Patterns.PATTERN_FACTORIES
                      ∧ pattern_id ∈ Patterns._PATTERN_BUILDERS
    | led_apply_state s =>
        ∀ pattern_id, Leds.STATE_PATTERN_MAP s = Some pattern_id →
                      pattern_id ∈ Patterns.PATTERN_FACTORIES
                      ∧ pattern_id ∈ Patterns._PATTERN_BUILDERS
    | led_set_group_color group_index _ | led_clear_group_color group_index =>
        0 ≤ group_index < 4
    | _ => True
    end.
Proof.
  intros Hin.
  assert (Hsub : ∀ pattern_id, pattern_id ∈ Patterns.PATTERN_FACTORIES →
                               pattern_id ∈ Patterns._PATTERN_BUILDERS).
  { intros pattern_id. unfold Patterns.PATTERN_FACTORIES, Patterns._PATTERN_BUILDERS.
    rewrite !elem_of_cons, !elem_of_nil. tauto. }
  assert (Hok : Leds.well_addressed cmd = true).
  { destruct (sends_run api_client events (init story_file))
      as (more & Hiss & Hall).
    rewrite Hiss in Hin. simpl in Hin.
    apply elem_of_cons in Hin as [->|Hin]; [done|].
    by eapply (proj1 (Forall_forall _ _) Hall). }
  split; [done|].
  destruct cmd; try done; simpl in Hok.
  - intros pattern_id Hid. rewrite Hid in Hok.
    apply andb_true_iff in Hok as [_ Hok]. apply bool_decide_eq_true in Hok.
    auto.
  - destruct (Leds.event_pattern_id event_name) as [pattern_id|]; [|done].
    apply andb_true_iff in Hok as [_ Hok]. apply bool_decide_eq_true in Hok.
    exists pattern_id. auto.
  - by apply bool_decide_eq_true in Hok.
  - by apply bool_decide_eq_true in Hok.
Qed.

(** The box with two figurines: the color sent for reader 1. *)
Lemma led_commands_well_addressed_witness :
  let events := [NetworkReady pins_medium; TagDetected "reader1" 42;
                 TagDetected "reader4" 7] in
  led_set_group_color 2 (80, 160, 255)
  ∈ issued (run (Some sample_api) events (init "epic.mp3"))
  ∧ Leds.well_addressed (led_set_group_color 2 (80, 160, 255)) = true.
Proof.
  intros events.
  assert (Hin : led_set_group_color 2 (80, 160, 255)
                ∈ issued (run (Some sample_api) events (init "epic.mp3"))).
  { vm_compute.
    repeat first [apply list_elem_of_here | apply list_elem_of_further]. }
  destruct (led_commands_well_addressed (Some sample_api) events "epic.mp3" _ Hin)
    as (Hok & _).
  exact (conj Hin Hok).
Defined.

Section ResetCommands.

Import Traces.

Variable api_client : option StoryApiClient.




End ResetCommands.

Section LedProofs.

Import Leds.

Context {T Pattern Timeline Supplier : Type}
        `{PatternOps T Pattern Timeline Supplier}.

Lemma apply_current_state_shape (now : T)
    (lc : LedController Pattern Timeline Supplier) :
  ∃ pattern_id pattern,
    _apply_current_state_locked now lc
    = with_state_pattern pattern_id pattern lc.
Proof.
  unfold _apply_current_state_locked.
  destruct (_current_state lc) as [current|]; [|by eexists _, _].
  destruct (_ && _); [|by eexists _, _].
  destruct (_instantiate_story_pattern_locked now lc); by eexists _, _.
Qed.

Lemma apply_current_state_frame (now : T) (lc : LedController Pattern Timeline Supplier) :
  _current_state (_apply_current_state_locked now lc) = _current_state lc
  ∧ _story_timeline (_apply_current_state_locked now lc) = _story_timeline lc
  ∧ _story_time_supplier (_apply_current_state_locked now lc) = _story_time_supplier lc
  ∧ _event_pattern (_apply_current_state_locked now lc) = _event_pattern lc
  ∧ _event_pattern_id (_apply_current_state_locked now lc) = _event_pattern_id lc
  ∧ _pixel_count (_apply_current_state_locked now lc) = _pixel_count lc
  ∧ driver (_apply_current_state_locked now lc) = driver lc
  ∧ _strip_active (_apply_current_state_locked now lc) = _strip_active lc.
Proof.
  destruct (apply_current_state_shape now lc) as (pattern_id & pattern & ->).
  done.
Qed.

Lemma retire_shape (now : T) (lc : LedController Pattern Timeline Supplier) :
  retire now lc = lc
  ∨ retire now lc = with_event_pattern None None lc
  ∨ (is_Some (_state_pattern lc)
     ∧ retire now lc
       = with_state_pattern (_state_pattern_id lc)
           (_instantiate_pattern now (_state_pattern_id lc) lc) lc).
Proof.
  unfold retire.
  destruct (_event_pattern lc) as [ep|];
    [destruct (pattern_is_finished now ep); [by auto|]|];
    (destruct (_state_pattern lc) as [sp|] eqn:Hsp; [|by auto];
     destruct (pattern_is_finished now sp); [|by auto];
     right; right; split; [by eexists|done]).
Qed.

Lemma retire_frame (now : T) (lc : LedController Pattern Timeline Supplier) :
  let lc' := retire now lc in
  _current_state lc' = _current_state lc
  ∧ _story_timeline lc' = _story_timeline lc
  ∧ _story_time_supplier lc' = _story_time_supplier lc
  ∧ _pixel_count lc' = _pixel_count lc
  ∧ driver lc' = driver lc
  ∧ _strip_active lc' = _strip_active lc
  ∧ (_state_pattern lc = None → _state_pattern lc' = None).
Proof.
  simpl. destruct (retire_shape now lc) as [->|[->|[Hsome ->]]];
    split_and!; try done.
  intros Hnone. rewrite Hnone in Hsome. by destruct Hsome.
Qed.

(** A turn of the loop renders a pattern, retires and drives, or only
    drives. *)
Lemma frame_shape (now : T) (lc : LedController Pattern Timeline Supplier) :
  (∃ lc1 call active,
      frame now lc = drive call active (retire now lc1)
      ∧ _current_state lc1 = _current_state lc
      ∧ _story_timeline lc1 = _story_timeline lc
      ∧ _story_time_supplier lc1 = _story_time_supplier lc
      ∧ _pixel_count lc1 = _pixel_count lc
      ∧ (_state_pattern lc = None → _state_pattern lc1 = None))
  ∨ frame now lc = drive off false lc
  ∨ frame now lc = lc.
Proof.
  unfold frame.
  destruct (shows_event lc) eqn:Hshow.
  - destruct (_event_pattern lc) as [ep|] eqn:Hep.
    + destruct (pattern_render now ep) as [rendered ep'].
      left. case_decide; eexists _, _, _; (split; [reflexivity|done]).
    + destruct (_strip_active lc); auto.
  - destruct (_state_pattern lc) as [sp|] eqn:Hsp.
    + destruct (pattern_render now sp) as [rendered sp'].
      left. case_decide; eexists _, _, _; (split; [reflexivity|done]).
    + destruct (_strip_active lc); auto.
Qed.

Lemma frame_frame (now : T) (lc : LedController Pattern Timeline Supplier) :
  _current_state (frame now lc) = _current_state lc
  ∧ _story_timeline (frame now lc) = _story_timeline lc
  ∧ _story_time_supplier (frame now lc) = _story_time_supplier lc
  ∧ _pixel_count (frame now lc) = _pixel_count lc
  ∧ (_state_pattern lc = None → _state_pattern (frame now lc) = None).
Proof.
  destruct (frame_shape now lc)
    as [(lc1 & call & active & -> & H1 & H2 & H3 & H4 & H5)|[->| ->]];
    [|done|done].
  destruct (retire_frame now lc1) as (R1 & R2 & R3 & R4 & _ & _ & R7).
  simpl. rewrite R1, R2, R3, R4. split_and!; try done.
  intros Hnone. apply R7. by apply H5.
Qed.

Lemma led_step_current_state (st : LedStep T Timeline Supplier) (lc : LedController Pattern Timeline Supplier) :
  _current_state (led_step st lc)
  = match st with
    | Call _ _ _ (led_apply_state s) => Some s
    | _ => _current_state lc
    end.
Proof.
  destruct st as [now timeline time_supplier cmd|now]; simpl.
  - destruct cmd; simpl; try done.
    + unfold apply_state. by rewrite (proj1 (apply_current_state_frame _ _)).
    + unfold trigger_event. destruct (event_pattern_id _); [|done].
      by destruct (str_truthy _).
    + unfold set_group_color. by destruct (_state_pattern lc).
    + unfold clear_group_color. by destruct (_state_pattern lc).
    + unfold set_story_timeline. case_decide; [|done].
      by rewrite (proj1 (apply_current_state_frame _ _)).
    + unfold clear_story_timeline, set_story_timeline. case_decide; [|done].
      by rewrite (proj1 (apply_current_state_frame _ _)).
  - apply frame_frame.
Qed.

Lemma led_step_pixel_count (st : LedStep T Timeline Supplier)
    (lc : LedController Pattern Timeline Supplier) :
  _pixel_count (led_step st lc) = _pixel_count lc.
Proof.
  destruct st as [now timeline time_supplier cmd|now]; simpl;
    [|apply frame_frame].
  destruct cmd; simpl; try done.
  - unfold apply_state.
    by destruct (apply_current_state_shape now
                   (with_current_state (Some s) lc)) as (? & ? & ->).
  - unfold trigger_event. destruct (event_pattern_id _); [|done].
    by destruct (str_truthy _).
  - unfold set_group_color. by destruct (_state_pattern lc).
  - unfold clear_group_color. by destruct (_state_pattern lc).
  - unfold set_story_timeline. case_decide; [|done].
    match goal with
    | |- context [_apply_current_state_locked ?n ?x] =>
        by destruct (apply_current_state_shape n x) as (? & ? & ->)
    end.
  - unfold clear_story_timeline, set_story_timeline. case_decide; [|done].
    match goal with
    | |- context [_apply_current_state_locked ?n ?x] =>
        by destruct (apply_current_state_shape n x) as (? & ? & ->)
    end.
Qed.

Lemma led_step_current_state_apply (now : T) (timeline : Timeline)
    (time_supplier : Supplier) (s : StoryBoxState) (cmd : Command) (lc : LedController Pattern Timeline Supplier) :
  _current_state
    (led_step (Call now timeline time_supplier cmd)
       (led_step (Call now timeline time_supplier (led_apply_state s)) lc))
  = match cmd with
    | led_apply_state s' => Some s'
    | _ => Some s
    end.
Proof.
  rewrite led_step_current_state.
  destruct cmd; try done; by rewrite led_step_current_state.
Qed.

Lemma led_run_snoc (steps : list (LedStep T Timeline Supplier))
    (st : LedStep T Timeline Supplier) (lc : LedController Pattern Timeline Supplier) :
  led_run (steps ++ [st]) lc = led_step st (led_run steps lc).
Proof. unfold led_run. by rewrite fold_left_app. Qed.

Lemma led_run_current_state (steps : list (LedStep T Timeline Supplier))
    (lc : LedController Pattern Timeline Supplier) :
  _current_state (led_run steps lc) = follow (_current_state lc) (calls steps).
Proof.
  induction steps as [|st steps IH] using rev_ind; [done|].
  rewrite led_run_snoc, led_step_current_state.
  unfold calls, follow in *. rewrite omap_app, fold_left_app. simpl.
  destruct st as [now timeline time_supplier cmd|now]; simpl; [|done].
  by destruct cmd.
Qed.

Lemma follow_state_after (cmds : list Command) :
  ∀ st, follow (Some st) cmds = Some (state_after st cmds).
Proof.
  unfold follow. induction cmds as [|cmd cmds IH]; intros st; [done|].
  simpl. destruct cmd; by rewrite IH.
Qed.

Lemma led_step_dark (st : LedStep T Timeline Supplier) (lc : LedController Pattern Timeline Supplier) :
  dark lc → dark (led_step st lc).
Proof.
  unfold dark. intros Hdark s.
  rewrite led_step_current_state.
  destruct st as [now timeline time_supplier cmd|now]; simpl.
  - destruct cmd; simpl; try (by apply Hdark).
    + intros [= <-] Hmap. unfold apply_state, _apply_current_state_locked.
      simpl. rewrite Hmap.
      destruct s0; try done.
    + intros Hs Hmap. unfold trigger_event.
      destruct (event_pattern_id _); [|by eapply Hdark].
      destruct (str_truthy _); simpl; by eapply Hdark.
    + intros Hs Hmap. unfold set_group_color.
      rewrite (Hdark s Hs Hmap). by eapply Hdark.
    + intros Hs Hmap. unfold clear_group_color.
      rewrite (Hdark s Hs Hmap). by eapply Hdark.
    + intros Hs Hmap. unfold set_story_timeline. simpl.
      rewrite decide_False; [by eapply Hdark|].
      rewrite Hs. intros [= ->]. done.
    + intros Hs Hmap. unfold clear_story_timeline, set_story_timeline. simpl.
      rewrite decide_False; [by eapply Hdark|].
      rewrite Hs. intros [= ->]. done.
  - intros Hs Hmap. apply frame_frame. by eapply Hdark.
Qed.

Lemma frame_nothing_to_show (now : T) (lc : LedController Pattern Timeline Supplier) :
  nothing_to_show lc →
  frame now lc = (if _strip_active lc then drive off false lc else lc)
  ∧ nothing_to_show (frame now lc)
  ∧ _strip_active (frame now lc) = false.
Proof.
  intros (Hshow & Hsp). unfold frame. rewrite Hshow, Hsp.
  destruct (_strip_active lc) eqn:Hactive; simpl.
  - split; [done|]. split; [|done]. by split.
  - split; [done|]. split; [|done]. by split.
Qed.

(** X18 (services/led_controller.py, [apply_state], [trigger_event],
    [set_group_color], [clear_group_color], [set_story_timeline],
    [_apply_current_state_locked], [_run_loop], driven by the commands of
    main.py): the LED controller follows the controller.  Let the calls
    made on a new LED controller be the commands the controller has issued
    from construction on, after any events, in their order, with any turns
    of the loop in between and any readings of the clock.  Then the LED
    controller's current state is the controller's state, and in PAUSED
    and CONFIRM_STOP (as in IDLE_READY) there is no state pattern: when no
    event pattern is shown either, a turn of the loop switches the strip
    off if it was lit and does nothing else, and the turns after it do
    nothing at all. *)
Theorem leds_follow_controller_state (api_client : option StoryApiClient)
    (events : list Event) (story_file : string) (led_count : Z)
    (steps : list (LedStep T Timeline Supplier)) (now later : T) :
  calls steps = issued (run api_client events (init story_file)) →
  let c := run api_client events (init story_file) in
  let lc := led_run steps (LedController_new led_count) in
  _current_state lc = Some (state c)
  ∧ _pixel_count lc = led_count
  ∧ (state c = PAUSED ∨ state c = CONFIRM_STOP ∨ state c = IDLE_READY →
     _state_pattern lc = None
     ∧ (shows_event lc = false →
        frame now lc = (if _strip_active lc then drive off false lc else lc)
        ∧ frame later (frame now lc) = frame now lc)).
Proof.
  intros Hcalls c lc.
  assert (Hcur : _current_state lc = Some (state c)).
  { subst lc. rewrite led_run_current_state, Hcalls. simpl.
    destruct (continues_run api_client events (init story_file))
      as (more & Hiss & Hst & _).
    rewrite Hiss. subst c. rewrite Hst. simpl.
    change (follow None (led_apply_state BOOTING :: more))
      with (follow (Some BOOTING) more).
    by rewrite follow_state_after. }
  assert (Hdark : dark lc).
  { subst lc. clear Hcur Hcalls.
    induction steps as [|st steps IH] using rev_ind.
    - by intros s.
    - rewrite led_run_snoc. by apply led_step_dark. }
  assert (Hpix : _pixel_count lc = led_count).
  { subst lc. clear Hcur Hcalls Hdark.
    induction steps as [|st steps IH] using rev_ind; [done|].
    by rewrite led_run_snoc, led_step_pixel_count. }
  split; [done|]. split; [done|].
  intros Hstate.
  assert (Hnone : _state_pattern lc = None).
  { apply (Hdark (state c) Hcur).
    destruct Hstate as [->|[->| ->]]; done. }
  split; [done|].
  intros Hshow.
  destruct (frame_nothing_to_show now lc (conj Hshow Hnone))
    as (Hframe & Hnothing & Hoff).
  split; [done|].
  destruct (frame_nothing_to_show later _ Hnothing) as (Hlater & _).
  by rewrite Hlater, Hoff.
Qed.





Lemma apply_state_playing (now : T) (lc : LedController Pattern Timeline Supplier) :
  let playing := apply_state now PLAYING_STORY lc in
  (_state_pattern_id playing, _state_pattern playing)
  = match _story_timeline lc, _story_time_supplier lc with
    | Some timeline, Some time_supplier =>
        story_pattern now timeline time_supplier lc
    | _, _ => pulse_pattern now lc
    end.
Proof.
  unfold apply_state, _apply_current_state_locked, story_pattern, pulse_pattern,
    _instantiate_story_pattern_locked.
  simpl.
  destruct (_story_timeline lc) as [timeline|],
    (_story_time_supplier lc) as [time_supplier|]; simpl; try done.
  by destruct (scripted timeline time_supplier).
Qed.

Lemma set_story_timeline_fields (now : T) (timeline : option Timeline)
    (time_supplier : option Supplier) (lc : LedController Pattern Timeline Supplier) :
  let lc' := set_story_timeline now timeline
               time_supplier lc in
  _story_timeline lc' = timeline
  ∧ _story_time_supplier lc' = time_supplier
  ∧ _current_state lc' = _current_state lc
  ∧ _pixel_count lc' = _pixel_count lc
  ∧ (_current_state lc ≠ Some PLAYING_STORY →
     _state_pattern_id lc' = _state_pattern_id lc
     ∧ _state_pattern lc' = _state_pattern lc).
Proof.
  unfold set_story_timeline. simpl. case_decide as Hcur.
  - destruct (apply_current_state_frame now
                (with_story_timeline timeline time_supplier lc))
      as (H1 & H2 & H3 & _ & _ & H6 & _).
    rewrite H1, H2, H3, H6. by split_and!.
  - by split_and!.
Qed.

(** X19 (services/led_controller.py, [set_story_timeline],
    [clear_story_timeline], [apply_state], [_apply_current_state_locked],
    [_instantiate_story_pattern_locked]): the timeline of a story takes
    effect at once while PLAYING_STORY and is kept for later otherwise.
    Setting a timeline with its supplier stores both; in PLAYING_STORY the
    state pattern becomes the scripted pattern of that timeline, or
    "story_pulse" when the scripted pattern cannot be built; in any other
    state the state pattern is left alone, and the timeline is used when
    PLAYING_STORY is applied.  Nothing of a timeline set before remains,
    and clearing the timeline brings PLAYING_STORY back to "story_pulse". *)
Theorem story_timeline_takes_effect (now later : T) (timeline : Timeline)
    (time_supplier : Supplier) (old_timeline : option Timeline)
    (old_supplier : option Supplier)
    (lc : LedController Pattern Timeline Supplier) :
  let set_timeline := set_story_timeline in
  let lc' := set_timeline now (Some timeline) (Some time_supplier) lc in
  let playing := apply_state later PLAYING_STORY lc' in
  let cleared := clear_story_timeline later lc' in
  _story_timeline lc' = Some timeline
  ∧ _story_time_supplier lc' = Some time_supplier
  ∧ (_state_pattern_id lc', _state_pattern lc')
    = (if decide (_current_state lc = Some PLAYING_STORY)
       then story_pattern now timeline time_supplier lc
       else (_state_pattern_id lc, _state_pattern lc))
  ∧ (_state_pattern_id playing, _state_pattern playing)
    = story_pattern later timeline time_supplier lc
  ∧ set_timeline now (Some timeline) (Some time_supplier)
      (set_timeline later old_timeline old_supplier lc)
    = lc'
  ∧ _story_timeline cleared = None
  ∧ (_state_pattern_id cleared, _state_pattern cleared)
    = (if decide (_current_state lc = Some PLAYING_STORY)
       then pulse_pattern later lc
       else (_state_pattern_id lc, _state_pattern lc)).
Proof.
  intros set_timeline lc' playing cleared.
  destruct (set_story_timeline_fields now (Some timeline) (Some time_supplier) lc)
    as (Htl & Hsup & Hcur & Hpix & Hkeep).
  fold set_timeline in Htl, Hsup, Hcur, Hpix, Hkeep.
  fold lc' in Htl, Hsup, Hcur, Hpix, Hkeep.
  split; [done|]. split; [done|]. split.
  { destruct (decide (_current_state lc = Some PLAYING_STORY)) as [Hplaying|Hother].
    - subst lc' set_timeline. unfold set_story_timeline. simpl.
      rewrite decide_True by done.
      unfold _apply_current_state_locked, story_pattern,
        _instantiate_story_pattern_locked. simpl. rewrite Hplaying. simpl.
      by destruct (scripted timeline time_supplier).
    - by destruct (Hkeep Hother) as (-> & ->). }
  split.
  { subst playing. rewrite apply_state_playing, Htl, Hsup.
    unfold story_pattern. by rewrite Hpix. }
  split.
  { subst lc' set_timeline. clear.
    destruct lc as [pc spid sp epid ep cur tl sup active calls_made].
    unfold set_story_timeline, _apply_current_state_locked,
      _instantiate_story_pattern_locked, _instantiate_pattern. simpl.
    destruct (decide (cur = Some PLAYING_STORY)) as [->|Hother]; simpl.
    - destruct old_timeline as [t0|], old_supplier as [s0|]; simpl;
        try destruct (scripted t0 s0); simpl;
        rewrite ?decide_True by done; simpl;
        by destruct (scripted timeline time_supplier).
    - by rewrite decide_False by done. }
  destruct (set_story_timeline_fields later None None lc')
    as (Hctl & _ & Hccur & Hcpix & Hckeep).
  split; [done|].
  destruct (decide (_current_state lc = Some PLAYING_STORY)) as [Hplaying|Hother].
  - subst cleared. unfold clear_story_timeline, set_story_timeline. simpl.
    rewrite Hcur, decide_True by done.
    unfold _apply_current_state_locked, pulse_pattern. simpl.
    rewrite Hcur, Hplaying. simpl. by rewrite Hpix.
  - rewrite Hcur in Hckeep. destruct (Hckeep Hother) as (Hid & Hpat).
    subst cleared. unfold clear_story_timeline. rewrite Hid, Hpat.
    by destruct (Hkeep Hother) as (-> & ->).
Qed.

Lemma event_pattern_id_known (event_name pattern_id : string) :
  event_pattern_id event_name = Some pattern_id →
  str_truthy pattern_id = true ∧ pattern_id ∈ Patterns.PATTERN_FACTORIES.
Proof.
  unfold event_pattern_id. intros Hid.
  apply elem_of_list_to_map_2 in Hid.
  unfold EVENT_PATTERN_MAP in Hid. rewrite !elem_of_cons, elem_of_nil in Hid.
  unfold Patterns.PATTERN_FACTORIES. rewrite !elem_of_cons.
  destruct Hid as [Hid|[Hid|[Hid|[]]]]; simplify_eq; split; try done; tauto.
Qed.

(** X20 (services/led_controller.py, [trigger_event], [_run_loop]): the
    flash of an event is shown in place of the state pattern until it is
    finished.  Triggering an event of [EVENT_PATTERN_MAP] installs a new
    pattern for it, reset at that moment, and leaves the state pattern as
    it is.  The next turn of the loop renders the flash: the driver gets
    its colors when their number is the pixel count, and is switched off
    otherwise; if the flash is then finished it is dropped, so that the
    following turn shows the state pattern again, and else it is kept.  An
    event name outside the table is ignored. *)
Theorem event_flash_is_shown_first (now t : T) (event_name pattern_id : string)
    (lc : LedController Pattern Timeline Supplier) :
  event_pattern_id event_name = Some pattern_id →
  let flashing := trigger_event now event_name lc in
  let flash := pattern_reset (_pixel_count lc) now (factory pattern_id) in
  let shown := frame t flashing in
  let colors := default [] (pattern_render t flash).1 in
  let flash' := (pattern_render t flash).2 in
  shows_event flashing = true
  ∧ _event_pattern flashing = Some flash
  ∧ _state_pattern flashing = _state_pattern lc
  ∧ driver shown
    = driver lc ++ [if decide (Z.of_nat (length colors) = _pixel_count lc)
                    then set_pixels colors else off]
  ∧ _strip_active shown
    = bool_decide (Z.of_nat (length colors) = _pixel_count lc)
  ∧ (if pattern_is_finished t flash'
     then shows_event shown = false
          ∧ _event_pattern shown = None
          ∧ _state_pattern shown = _state_pattern lc
     else shows_event shown = true ∧ _event_pattern shown = Some flash')
  ∧ (∀ other, event_pattern_id other = None →
              trigger_event now other lc = lc).
Proof.
  intros Hid flashing flash shown colors flash'.
  destruct (event_pattern_id_known _ _ Hid) as (Htruthy & Hfactory).
  assert (Hdef : flashing
                 = with_event_pattern (Some pattern_id) (Some flash) lc).
  { subst flashing flash. unfold trigger_event, _instantiate_pattern.
    rewrite Hid, Htruthy. by rewrite decide_True by done. }
  assert (Hshow : shows_event flashing = true).
  { rewrite Hdef. unfold shows_event. simpl. done. }
  assert (Hshown : shown
                   = let lc2 := retire t
                                  (with_event_pattern (Some pattern_id)
                                     (Some flash') flashing) in
                     if decide (Z.of_nat (length colors) = _pixel_count lc2)
                     then drive (set_pixels colors) true lc2
                     else drive off false lc2).
  { subst shown. unfold frame. rewrite Hshow.
    replace (_event_pattern flashing) with (Some flash) by (by rewrite Hdef).
    replace (_event_pattern_id flashing) with (Some pattern_id)
      by (by rewrite Hdef).
    subst colors flash'. by destruct (pattern_render t flash). }
  set (lc1 := with_event_pattern (Some pattern_id) (Some flash') flashing)
    in Hshown.
  destruct (retire_frame t lc1) as (_ & _ & _ & Hpix & Hdrv & _).
  assert (Hpix2 : _pixel_count
                    (retire t lc1)
                  = _pixel_count lc).
  { rewrite Hpix. subst lc1. simpl. by rewrite Hdef. }
  assert (Hdrv2 : driver
                    (retire t lc1)
                  = driver lc).
  { rewrite Hdrv. subst lc1. simpl. by rewrite Hdef. }
  simpl in Hshown. rewrite Hpix2 in Hshown.
  split; [done|]. split; [by rewrite Hdef|]. split; [by rewrite Hdef|].
  split.
  { rewrite Hshown. case_decide; simpl; by rewrite Hdrv2. }
  split.
  { rewrite Hshown. case_decide; simpl.
    - by rewrite bool_decide_eq_true_2.
    - by rewrite bool_decide_eq_false_2. }
  split.
  { assert (Hret : retire t lc1
                   = if pattern_is_finished t flash'
                     then with_event_pattern None None lc1
                     else retire t lc1)
      by (unfold retire; simpl; by destruct (pattern_is_finished t flash')).
    destruct (pattern_is_finished t flash') eqn:Hfin.
    - rewrite Hshown, Hret.
      case_decide; simpl; subst lc1; simpl; by rewrite Hdef.
    - assert (Hev : _event_pattern
                      (retire t lc1)
                    = Some flash'
                    ∧ _event_pattern_id
                        (retire t lc1)
                      = Some pattern_id).
      { unfold retire. subst lc1. simpl. rewrite Hfin.
        destruct (_state_pattern flashing) as [sp|]; [|done].
        by destruct (pattern_is_finished t sp). }
      destruct Hev as (Hev & Hevid).
      rewrite Hshown.
      case_decide; unfold shows_event; simpl; by rewrite Hev, Hevid. }
  intros other Hnone. unfold trigger_event. by rewrite Hnone.
Qed.



End LedProofs.

(** The story is paused by the click: the LED controller is in PAUSED. *)
Lemma leds_follow_controller_state_witness :
  let events := Traces.events_to_pause in
  let steps :=
    Traces.sample_steps (issued (run (Some sample_api) events (init "epic.mp3"))) in
  Leds.calls steps = issued (run (Some sample_api) events (init "epic.mp3"))
  ∧ Leds._current_state (Leds.led_run steps (Leds.LedController_new 30))
    = Some (state (run (Some sample_api) events (init "epic.mp3"))).
Proof.
  intros events steps.
  assert (Hcalls : Leds.calls steps
                   = issued (run (Some sample_api) events (init "epic.mp3")))
    by (vm_compute; reflexivity).
  destruct (leds_follow_controller_state (Some sample_api) events "epic.mp3" 30
              steps 0 1 Hcalls) as (Hcur & _).
  exact (conj Hcalls Hcur).
Defined.

(** A click on a new LED controller: the flash of the play button. *)
Lemma event_flash_is_shown_first_witness :
  Leds.event_pattern_id "play_button_press" = Some "flash_play_button"
  ∧ Leds.shows_event
      (Leds.trigger_event 0 "play_button_press"
         (Leds.LedController_new (Pattern := string) (Timeline := unit)
            (Supplier := unit) 30))
    = true.
Proof.
  assert (Hid : Leds.event_pattern_id "play_button_press"
                = Some "flash_play_button") by (vm_compute; reflexivity).
  destruct (event_flash_is_shown_first 0 1 "play_button_press"
              "flash_play_button"
              (Leds.LedController_new (Pattern := string) (Timeline := unit)
                 (Supplier := unit) 30) Hid) as (Hshow & _).
  exact (conj Hid Hshow).
Defined.

